(** * rangepool: allocation of unique integers out of a bounded range

    A shallow embedding of [range_pool.go] and [error.go] of
    giantswarm/rangepool, and the properties of the allocator [nextItem]
    and of the service operations [Create], [Delete] and [Search] built on
    a key-value store.

    Conventions.
    - Go's [int] is the 64-bit two's complement integer; it is a [Z] kept in
      range by [wrap] wherever the source adds.
    - Go's [(value, error)] results are [outcome]s; an error is identified
      by its cause, which is what [microerror.MaskAny] preserves.
    - The storage behind the service is a finite map from keys to values,
      threaded through the operations by the monad [M]. *)

From Stdlib Require Import ZArith String Ascii List Lia Sorted Permutation.
From Stdlib Require Import DecimalString DecimalZ DecimalPos.
From stdpp Require Import gmap strings list fin_maps.

Open Scope string_scope.
Open Scope list_scope.
Open Scope Z_scope.

(** ** Machine integers *)

Definition maxInt : Z := 9223372036854775807.
Definition minInt : Z := -9223372036854775808.

(** The values of Go's [int]. *)
Definition is_int (z : Z) : Prop := minInt <= z <= maxInt.

(** Signed overflow wraps around silently. *)
Definition wrap (z : Z) : Z :=
  (z + 9223372036854775808) mod 18446744073709551616 - 9223372036854775808.

(** ** Errors and results *)

(** The error kinds of [error.go], together with the causes the service
    receives from its collaborators: the storage's "not found" and the two
    errors of [strconv.Atoi]. *)
Inductive error : Type :=
| capacityReachedError
| executionFailedError
| invalidConfigError
| itemsNotFoundError
| notFoundError
| syntaxError
| rangeError.

Definition error_eqb (a b : error) : bool :=
  match a, b with
  | capacityReachedError, capacityReachedError
  | executionFailedError, executionFailedError
  | invalidConfigError, invalidConfigError
  | itemsNotFoundError, itemsNotFoundError
  | notFoundError, notFoundError
  | syntaxError, syntaxError
  | rangeError, rangeError => true
  | _, _ => false
  end.

Definition IsItemsNotFound (err : error) : bool := error_eqb err itemsNotFoundError.
Definition IsNotFound (err : error) : bool := error_eqb err notFoundError.

(** What a call can end in: a value, an error, a runtime panic, or (in the
    model only) a loop that was cut off before it finished. *)
Inductive outcome (A : Type) : Type :=
| Ok (a : A)
| Err (e : error)
| Panic
| OutOfFuel.

Arguments Ok {A} a.
Arguments Err {A} e.
Arguments Panic {A}.
Arguments OutOfFuel {A}.

(** ** Keys, the store and the monad of the service *)

(** The format strings of [range_pool.go], applied to their arguments. *)
Definition IDKeyFormat (namespace ID item : string) : string :=
  "range-pool/" +:+ namespace +:+ "/id/" +:+ ID +:+ "/item/" +:+ item.
Definition IDListKeyFormat (namespace ID : string) : string :=
  "range-pool/" +:+ namespace +:+ "/id/" +:+ ID +:+ "/item".
Definition ItemKeyFormat (namespace item : string) : string :=
  "range-pool/" +:+ namespace +:+ "/item/" +:+ item.
Definition ItemListKeyFormat (namespace : string) : string :=
  "range-pool/" +:+ namespace +:+ "/item".
Definition LatestKeyFormat (namespace : string) : string :=
  "range-pool/" +:+ namespace +:+ "/latest".

(** A computation of the service: it reads and writes the storage and
    ends in an [outcome]. *)
Definition M (A : Type) : Type :=
  gmap string string -> outcome A * gmap string string.

Definition ret {A : Type} (a : A) : M A := fun s => (Ok a, s).

Definition fail {A : Type} (e : error) : M A := fun s => (Err e, s).

(** A result that was computed without the storage. *)
Definition lift {A : Type} (o : outcome A) : M A := fun s => (o, s).

Definition bind {A B : Type} (m : M A) (f : A -> M B) : M B :=
  fun s =>
    match m s with
    | (Ok a, s') => f a s'
    | (Err e, s') => (Err e, s')
    | (Panic, s') => (Panic, s')
    | (OutOfFuel, s') => (OutOfFuel, s')
    end.

(** [v, err := m]: the error of [m] becomes a value the caller inspects. *)
Definition attempt {A : Type} (m : M A) : M (A + error) :=
  fun s =>
    match m s with
    | (Ok a, s') => (Ok (inl a), s')
    | (Err e, s') => (Ok (inr e), s')
    | (Panic, s') => (Panic, s')
    | (OutOfFuel, s') => (OutOfFuel, s')
    end.

Notation "'let*' x ':=' m 'in' f" := (bind m (fun x => f))
  (at level 10, x name, m at level 200, f at level 200).

(** Modelled from the spec: the storage is the external collaborator
    [microstorage.Service], which this repository only calls. The spec
    asks of it [create(key, value)], [delete(key)], the point lookup
    [search(key)] and the prefix scan [list(prefix)] returning values,
    each reporting a distinguishable "not found"; this is the in-memory
    store the tests run on. *)
Module microstorage.

(** [key] lies below the directory [dir]. *)
Definition below (dir key : string) : bool := String.prefix (dir +:+ "/") key.

Definition Create (key value : string) : M unit :=
  fun s => (Ok tt, <[key := value]> s).

Definition Delete (key : string) : M unit :=
  fun s => (Ok tt, delete key s).

Definition Search (key : string) : M string :=
  fun s =>
    match s !! key with
    | Some value => (Ok value, s)
    | None => (Err notFoundError, s)
    end.

Definition values (key : string) (s : gmap string string) : list string :=
  (map_to_list (filter (fun kv => below key kv.1 = true) s)).*2.

Definition List (key : string) : M (list string) :=
  fun s =>
    match values key s with
    | [] => (Err notFoundError, s)
    | list => (Ok list, s)
    end.

End microstorage.

(** ** strconv *)

Definition Itoa (i : Z) : string := NilZero.string_of_int (Z.to_int i).

Definition parseDigits (neg : bool) (digits : string) : outcome Z :=
  match NilZero.uint_of_string digits with
  | None => Err syntaxError
  | Some d =>
      let n := Z.of_int (if neg then Decimal.Neg d else Decimal.Pos d) in
      if (minInt <=? n) && (n <=? maxInt) then Ok n else Err rangeError
  end.

(** [strconv.Atoi]: an optional sign, then one decimal digit or more; the
    value has to fit an [int]. *)
Definition Atoi (s : string) : outcome Z :=
  match s with
  | String "+" digits => parseDigits false digits
  | String "-" digits => parseDigits true digits
  | _ => parseDigits false s
  end.

(** ** The allocator *)

(** [latestItemException] indicates there was no latest range pool item. *)
Definition latestItemException : Z := -1.

Fixpoint containsInt (list : list Z) (item : Z) : bool :=
  match list with
  | [] => false
  | l :: list' => if l =? item then true else containsInt list' item
  end.

(** [sort.Ints] sorts in increasing order. *)
Fixpoint insertInt (x : Z) (l : list Z) : list Z :=
  match l with
  | [] => [x]
  | y :: l' => if x <=? y then x :: y :: l' else y :: insertInt x l'
  end.

Fixpoint sortInts (l : list Z) : list Z :=
  match l with
  | [] => []
  | x :: l' => insertInt x (sortInts l')
  end.

(** The loop [for i := min; i <= max; i++] of the closure [iterator]. It
    leaves at the first [i] that is not in [used], so it runs its body at
    most [len(used) + 1] times as long as [i] takes no value twice; [fuel]
    counts the runs that are left. *)
Fixpoint iterate (used : list Z) (max : Z) (fuel : nat) (i : Z) : option Z :=
  match fuel with
  | O => None
  | S fuel' =>
      if i <=? max then
        if containsInt used i then iterate used max fuel' (wrap (i + 1))
        else Some i
      else Some latestItemException
  end.

Definition iterator (used : list Z) (min max : Z) : option Z :=
  iterate used max (S (length used)) min.

(** [nextItem] implements a stateless algorithm to sort out the next item
    to use. *)
Definition nextItem (used : list Z) (min max latest : Z) : outcome Z :=
  if min <=? -1 then Err executionFailedError
  else if max <=? -1 then Err executionFailedError
  else if min >=? max then Err executionFailedError
  else if negb (latest =? latestItemException) && (latest <? min)
  then Err executionFailedError
  else if negb (latest =? latestItemException) && (latest >? max)
  then Err executionFailedError
  else
    let used := sortInts used in
    let wholeRange :=
      match iterator used min max with
      | None => OutOfFuel
      | Some nextItem =>
          if negb (nextItem =? latestItemException) then Ok nextItem
          else Err capacityReachedError
      end in
    if negb (latest =? latestItemException) then
      match iterator used (wrap (latest + 1)) max with
      | None => OutOfFuel
      | Some nextItem =>
          if negb (nextItem =? latestItemException) then Ok nextItem
          else wholeRange
      end
    else wholeRange.

(** ** The service *)

(** [stringsToInts] takes a list of strings and returns the equivalent list
    of ints. *)
Fixpoint stringsToInts (list : list string) : outcome (Datatypes.list Z) :=
  match list with
  | [] => Ok []
  | l :: list' =>
      match Atoi l with
      | Ok s =>
          match stringsToInts list' with
          | Ok converted => Ok (s :: converted)
          | Err e => Err e
          | Panic => Panic
          | OutOfFuel => OutOfFuel
          end
      | Err e => Err e
      | Panic => Panic
      | OutOfFuel => OutOfFuel
      end
  end.

(** [items[i]], which panics out of range. *)
Definition index (items : list Z) (i : Z) : outcome Z :=
  if (0 <=? i) && (i <? Z.of_nat (length items))
  then Ok (nth (Z.to_nat i) items 0)
  else Panic.

Module Service.

(** The block of [Create] that fetches the items already created: a
    namespace without items has none, which is no error. *)
Definition used (namespace : string) : M (list Z) :=
  let* r := attempt (microstorage.List (ItemListKeyFormat namespace)) in
  let* v := match r with
            | inl v => ret v
            | inr err => if IsNotFound err then ret [] else fail err
            end in
  lift (stringsToInts v).

(** The block of [Create] that fetches the latest item used. *)
Definition latest (namespace : string) : M Z :=
  let* r := attempt (microstorage.Search (LatestKeyFormat namespace)) in
  let* l := match r with
            | inl l => ret l
            | inr err =>
                if IsNotFound err then ret (Itoa latestItemException)
                else fail err
            end in
  lift (Atoi l).

(** The loop [for i := 0; i < num; i++] of [Create], with [n] rounds to
    go. [nextItem] sorts the slice it is given in place, so the caller's
    [used] is sorted when the item is appended to it. *)
Fixpoint allocate (n : nat) (used items : list Z) (min max latest : Z)
  : outcome (list Z) :=
  match n with
  | O => Ok items
  | S n' =>
      match nextItem used min max latest with
      | Ok item =>
          allocate n' (sortInts used ++ [item]) (items ++ [item])
            min max latest
      | Err e => Err e
      | Panic => Panic
      | OutOfFuel => OutOfFuel
      end
  end.

(** The loop of [create] over the items. *)
Fixpoint createItems (namespace ID : string) (items : list Z) : M unit :=
  match items with
  | [] => ret tt
  | item :: items' =>
      let i := Itoa item in
      let* _ := microstorage.Create (ItemKeyFormat namespace i) i in
      let* _ := microstorage.Create (IDKeyFormat namespace ID i) i in
      createItems namespace ID items'
  end.

(** [create] is used to persist new items. *)
Definition create (namespace ID : string) (items : list Z) : M unit :=
  let* _ := createItems namespace ID items in
  let* last := lift (index items (Z.of_nat (length items) - 1)) in
  microstorage.Create (LatestKeyFormat namespace) (Itoa last).

Definition Create (namespace ID : string) (num min max : Z) : M (list Z) :=
  let* used := used namespace in
  let* latest := latest namespace in
  let* items := lift (allocate (Z.to_nat num) used [] min max latest) in
  let* _ := create namespace ID items in
  ret items.

(** The loop of [delete] over the items. *)
Fixpoint deleteItems (namespace ID : string) (items : list Z) : M unit :=
  match items with
  | [] => ret tt
  | item :: items' =>
      let i := Itoa item in
      let* _ := microstorage.Delete (ItemKeyFormat namespace i) in
      let* _ := microstorage.Delete (IDKeyFormat namespace ID i) in
      deleteItems namespace ID items'
  end.

Definition delete (namespace ID : string) (items : list Z) : M unit :=
  let* _ := deleteItems namespace ID items in
  let* _ := microstorage.Delete (IDListKeyFormat namespace ID) in
  let* r := attempt (microstorage.List (ItemListKeyFormat namespace)) in
  let* list := match r with
               | inl list => ret list
               | inr err => if IsNotFound err then ret [] else fail err
               end in
  if (length list =? 0)%nat then
    let* _ := microstorage.Delete (ItemListKeyFormat namespace) in
    microstorage.Delete (LatestKeyFormat namespace)
  else ret tt.

Definition Delete (namespace ID : string) : M unit :=
  let* r := attempt (microstorage.List (IDListKeyFormat namespace ID)) in
  let* v := match r with
            | inl v => ret v
            | inr err => if IsNotFound err then ret [] else fail err
            end in
  let* items := lift (stringsToInts v) in
  delete namespace ID items.

(** Modelled from the spec: [Search] is called by [Test_Service_Search]
    but is missing from [range_pool.go]. It returns every item the owner
    currently holds in the namespace, in ascending numeric order, and
    fails with [itemsNotFoundError] when the owner holds none. *)
Definition Search (namespace ID : string) : M (list Z) :=
  let* r := attempt (microstorage.List (IDListKeyFormat namespace ID)) in
  let* v := match r with
            | inl v => ret v
            | inr err =>
                if IsNotFound err then fail itemsNotFoundError else fail err
            end in
  let* items := lift (stringsToInts v) in
  ret (sortInts items).

End Service.

(** ** Notions the properties are stated with *)

(** [v] is the smallest integer of [lo..hi] that is not in [used]. *)
Definition firstFree (used : list Z) (lo hi v : Z) : Prop :=
  lo <= v <= hi /\ (v ∉ used) /\ (forall j, lo <= j < v -> j ∈ used).

(** No integer of [lo..hi] is free. *)
Definition noneFree (used : list Z) (lo hi : Z) : Prop :=
  forall j, lo <= j <= hi -> j ∈ used.

(** The preconditions [nextItem] validates. *)
Definition validArgs (min max latest : Z) : Prop :=
  0 <= min /\ 0 <= max /\ min < max /\
  (latest = latestItemException \/ min <= latest <= max).

(** The storage after the loop of [create] wrote the records of [items]
    into [s]. *)
Definition written (namespace ID : string) (s : gmap string string)
  (items : list Z) : gmap string string :=
  foldl (fun s item =>
           <[IDKeyFormat namespace ID (Itoa item) := Itoa item]>
             (<[ItemKeyFormat namespace (Itoa item) := Itoa item]> s))
        s items.

(** The storage after the loop of [delete] removed the records of [items]
    from [s]. *)
Definition removed (namespace ID : string) (s : gmap string string)
  (items : list Z) : gmap string string :=
  foldl (fun s item =>
           delete (IDKeyFormat namespace ID (Itoa item))
             (delete (ItemKeyFormat namespace (Itoa item)) s))
        s items.

(** The integer a string stands for, 0 when it stands for none. *)
Definition atoi (s : string) : Z :=
  match Atoi s with
  | Ok z => z
  | _ => 0
  end.

(** [items] are, in this order, what [nextItem] hands out when each item
    is folded into [used] before the next call. *)
Fixpoint allocated (used : list Z) (min max latest : Z) (items : list Z)
  : Prop :=
  match items with
  | [] => True
  | item :: items' =>
      nextItem used min max latest = Ok item /\
      allocated (used ++ [item]) min max latest items'
  end.

(** A call of [Create] on a namespace: the owner, the number of items and
    the bounds. *)
Record request : Type := {
  owner : string;
  count : Z;
  lower : Z;
  upper : Z;
}.

(** Successive calls of [Create] against one namespace with nothing in
    between, all of them successful: the batches they return, in order, and
    the storage they leave. *)
Fixpoint creates (namespace : string) (requests : list request)
  (s : gmap string string) : option (list (list Z) * gmap string string) :=
  match requests with
  | [] => Some ([], s)
  | r :: requests' =>
      match Service.Create namespace (owner r) (count r) (lower r) (upper r) s
      with
      | (Ok items, s') =>
          match creates namespace requests' s' with
          | Some (batches, s'') => Some (items :: batches, s'')
          | None => None
          end
      | _ => None
      end
  end.

(** The last character of a string (of the empty one, the null one). *)
Fixpoint lastChar (s : string) : ascii :=
  match s with
  | "" => Ascii.zero
  | String c "" => c
  | String _ rest => lastChar rest
  end.

Definition isDigit (c : ascii) : bool :=
  match c with
  | "0" | "1" | "2" | "3" | "4" | "5" | "6" | "7" | "8" | "9" => true
  | _ => false
  end%char.

(** A namespace in which owner B holds 3 and the cursor stands on 3, as
    [Create] for A, [Create] for B and [Delete] for A leave it when each
    [Create] asked for one item of 2..4. *)
Definition wrapped_store : gmap string string :=
  <["range-pool/ns/item/3" := "3"]>
    (<["range-pool/ns/id/B/item/3" := "3"]>
       (<["range-pool/ns/latest" := "3"]> ∅)).

(** Every binding below the list key of the owner is a record as [create]
    writes it: the key ends in the value, and the value is a printed
    integer. *)
Definition ownerRecords (namespace ID : string) (s : gmap string string)
  : Prop :=
  forall k x, s !! k = Some x ->
    microstorage.below (IDListKeyFormat namespace ID) k = true ->
    k = IDKeyFormat namespace ID x /\ exists v, x = Itoa v.

(** The storage of [Test_Service_Search] after its first [Create]: the
    owner holds 2 and 3, and the cursor stands on 3. *)
Definition two_items_store : gmap string string :=
  <["range-pool/test-namespace/latest" := "3"]>
    (<["range-pool/test-namespace/id/test-id/item/3" := "3"]>
       (<["range-pool/test-namespace/item/3" := "3"]>
          (<["range-pool/test-namespace/id/test-id/item/2" := "2"]>
             (<["range-pool/test-namespace/item/2" := "2"]> ∅)))).

(** The storage of [Test_Service_Create_NumOne] after its first [Create]:
    the owner holds 2, and the cursor stands on 2. *)
Definition one_item_store : gmap string string :=
  <["range-pool/test-namespace/latest" := "2"]>
    (<["range-pool/test-namespace/id/test-id/item/2" := "2"]>
       (<["range-pool/test-namespace/item/2" := "2"]> ∅)).

(** The free integers of [min..max], in increasing order. *)
Definition freeItems (used : list Z) (min max : Z) : list Z :=
  filter (fun v => v ∉ used) (seqZ min (max - min + 1)).

(** ** Histories of calls *)

(** A name without a slash. *)
Fixpoint noSlash (s : string) : bool :=
  match s with
  | "" => true
  | String c rest => negb (Ascii.eqb c "/") && noSlash rest
  end.

(** The parts of a key between its slashes. *)
Fixpoint segments (s : string) : list string :=
  match s with
  | "" => [""]
  | String c rest =>
      if Ascii.eqb c "/" then "" :: segments rest
      else match segments rest with
           | seg :: segs => String c seg :: segs
           | [] => [String c ""]
           end
  end.

(** A call of the service. *)
Inductive call : Type :=
| CreateCall (namespace ID : string) (num min max : Z)
| DeleteCall (namespace ID : string).

(** The namespace and the owner of the call have no slash in them, and
    [max] is a value of [int]. *)
Definition plainCall (c : call) : bool :=
  match c with
  | CreateCall namespace ID _ _ max =>
      noSlash namespace && noSlash ID && (minInt <=? max) && (max <=? maxInt)
  | DeleteCall namespace ID => noSlash namespace && noSlash ID
  end.

(** The namespace a call works on. *)
Definition namespaceOf (c : call) : string :=
  match c with
  | CreateCall namespace _ _ _ _ | DeleteCall namespace _ => namespace
  end.

(** The storage a call leaves when it returns, with a result or with an
    error. *)
Definition after (c : call) (s : gmap string string)
  : option (gmap string string) :=
  match c with
  | CreateCall namespace ID num min max =>
      match Service.Create namespace ID num min max s with
      | (Ok _, s') | (Err _, s') => Some s'
      | _ => None
      end
  | DeleteCall namespace ID =>
      match Service.Delete namespace ID s with
      | (Ok _, s') | (Err _, s') => Some s'
      | _ => None
      end
  end.

(** The storage a sequence of calls leaves, each of which returns. *)
Fixpoint history (calls : list call) (s : gmap string string)
  : option (gmap string string) :=
  match calls with
  | [] => Some s
  | c :: calls' =>
      match after c s with
      | Some s' => history calls' s'
      | None => None
      end
  end.

(** A binding the service writes for a namespace without a slash: a
    namespace-level record, an owner-level record or a cursor, holding a
    printed [int]. *)
Definition poolBinding (k x : string) : Prop :=
  exists namespace v,
    noSlash namespace = true /\ is_int v /\ x = Itoa v /\
    (k = ItemKeyFormat namespace x \/
     (exists ID, noSlash ID = true /\ k = IDKeyFormat namespace ID x) \/
     k = LatestKeyFormat namespace).

(** The storage holds pools: nothing but bindings of the service; every
    item of a namespace has an owner, and one only; every item of an owner
    is an item of the namespace; a namespace has a cursor exactly while it
    has items. *)
Record consistent (s : gmap string string) : Prop := {
  consistent_bindings :
    forall k x, s !! k = Some x -> poolBinding k x;
  consistent_owner :
    forall namespace v,
      noSlash namespace = true ->
      is_Some (s !! ItemKeyFormat namespace (Itoa v)) ->
      exists ID, noSlash ID = true /\
                 is_Some (s !! IDKeyFormat namespace ID (Itoa v));
  consistent_item :
    forall namespace ID v,
      noSlash namespace = true -> noSlash ID = true ->
      is_Some (s !! IDKeyFormat namespace ID (Itoa v)) ->
      is_Some (s !! ItemKeyFormat namespace (Itoa v));
  consistent_one_owner :
    forall namespace ID ID' v,
      noSlash namespace = true -> noSlash ID = true -> noSlash ID' = true ->
      is_Some (s !! IDKeyFormat namespace ID (Itoa v)) ->
      is_Some (s !! IDKeyFormat namespace ID' (Itoa v)) ->
      ID = ID';
  consistent_cursor :
    forall namespace,
      noSlash namespace = true ->
      (is_Some (s !! LatestKeyFormat namespace) <->
       exists v, is_Some (s !! ItemKeyFormat namespace (Itoa v)));
}.

(** The calls that leave [wrapped_store]. *)
Definition wrapped_history : list call :=
  [CreateCall "ns" "A" 1 2 4; CreateCall "ns" "B" 1 2 4; DeleteCall "ns" "A"].


(** ** Tactics *)

(** Pushes the literal parts of a key outwards: [+:+] is kept folded by
    [simpl], so its two equations are applied by conversion. *)
Ltac string_norm :=
  repeat first
    [ progress change (String ?x ?a +:+ ?b) with (String x (a +:+ b))
    | progress change ("" +:+ ?b) with b ].

Ltac string_norm_in H :=
  repeat first
    [ progress change (String ?x ?a +:+ ?b) with (String x (a +:+ b)) in H
    | progress change ("" +:+ ?b) with b in H ].

(** Two keys of one namespace that differ right after the namespace. *)
Ltac key_discriminate :=
  let H := fresh in
  intros H; apply (String.app_inj "range-pool/") in H;
  apply String.app_inj in H; string_norm_in H; discriminate H.

(** * Properties *)

(** ** The tests of the repository, run on the model *)

(** The table of [Test_nextItem]. *)
Example Test_nextItem :
  map (nextItem [3; 4; 6] 2 9) [-2; 0; 1; -1; 2; 3; 4; 5; 6; 7; 8; 9; 10]
  = [Err executionFailedError; Err executionFailedError;
     Err executionFailedError; Ok 2; Ok 5; Ok 5; Ok 5; Ok 7; Ok 7; Ok 8;
     Ok 9; Ok 2; Err executionFailedError].
Proof. reflexivity. Qed.

(** [Test_Service_Create_Num3_CapacityReached]: the range 2..7 is used up
    by two batches of three. *)
Example Test_Service_Create_Num3_CapacityReached :
  ((let* a := Service.Create "test-namespace" "test-id" 3 2 7 in
    let* b := Service.Create "test-namespace" "test-id" 3 2 7 in
    let* c := attempt (Service.Create "test-namespace" "test-id" 3 2 7) in
    ret (length a, length b, c)) ∅).1
  = Ok (3%nat, 3%nat, inr capacityReachedError).
Proof. reflexivity. Qed.

(** [Test_Service_Create_NumThree_Rotate]: with the cursor on [max], the
    items a [Delete] freed are handed out again from [min]. *)
Example Test_Service_Create_NumThree_Rotate :
  ((let* a := Service.Create "test-namespace" "test-id-1" 3 2 7 in
    let* b := Service.Create "test-namespace" "test-id-2" 3 2 7 in
    let* _ := Service.Delete "test-namespace" "test-id-1" in
    let* c := Service.Create "test-namespace" "test-id-3" 3 2 7 in
    ret (a, b, c)) ∅).1
  = Ok ([2; 3; 4], [5; 6; 7], [2; 3; 4]).
Proof. reflexivity. Qed.

(** [Test_Service_Search]. *)
Example Test_Service_Search :
  ((let* _ := Service.Create "test-namespace" "test-id" 2 2 9 in
    let* a := Service.Search "test-namespace" "test-id" in
    let* _ := Service.Create "test-namespace" "test-id" 2 2 9 in
    let* b := Service.Search "test-namespace" "test-id" in
    let* _ := Service.Delete "test-namespace" "test-id" in
    let* c := attempt (Service.Search "test-namespace" "test-id") in
    ret (a, b, c)) ∅).1
  = Ok ([2; 3], [2; 3; 4; 5], inr itemsNotFoundError).
Proof. reflexivity. Qed.

(** [Test_Service_Create_NumOne] as it stands beside [range_pool.go] in its
    revision: once the only owner is deleted the cursor is gone, and the
    next item is 2 again. (The test of the same name in
    [range_pool_test.go] is of a later revision and expects 4.) *)
Example Test_Service_Create_NumOne :
  ((let* a := Service.Create "test-namespace" "test-id" 1 2 9 in
    let* b := Service.Create "test-namespace" "test-id" 1 2 9 in
    let* _ := Service.Delete "test-namespace" "test-id" in
    let* c := Service.Create "test-namespace" "test-id" 1 2 9 in
    ret (a, b, c)) ∅).1
  = Ok ([2], [3], [2]).
Proof. reflexivity. Qed.

(** ** Machine integers and strconv *)

Lemma wrap_is_int (z : Z) : is_int (wrap z).
Proof.
  unfold is_int, wrap, minInt, maxInt.
  pose proof (Z.mod_pos_bound (z + 9223372036854775808) 18446744073709551616).
  lia.
Qed.

Lemma wrap_id (z : Z) : is_int z -> wrap z = z.
Proof.
  unfold is_int, wrap, minInt, maxInt. intros Hz.
  rewrite Z.mod_small; lia.
Qed.

Lemma string_of_uint_head (d : Decimal.uint) :
  d <> Decimal.Nil ->
  exists c rest, NilEmpty.string_of_uint d = String c rest /\
                 c <> "+"%char /\ c <> "-"%char.
Proof.
  destruct d; intros Hd; try congruence; simpl; eexists _, _;
    (split; [reflexivity | split; discriminate]).
Qed.

Lemma Atoi_unsigned (s : string) (c : ascii) (rest : string) :
  s = String c rest -> c <> "+"%char -> c <> "-"%char ->
  Atoi s = parseDigits false s.
Proof.
  intros -> Hplus Hminus. unfold Atoi.
  destruct c as [[|] [|] [|] [|] [|] [|] [|] [|]]; try reflexivity;
    congruence.
Qed.

(** Reading back what [Itoa] printed gives the number again, when it fits
    an [int]. *)
Lemma Atoi_Itoa_gen (z : Z) :
  Atoi (Itoa z) =
  if (minInt <=? z) && (z <=? maxInt) then Ok z else Err rangeError.
Proof.
  unfold Itoa. destruct z as [|p|p]; [reflexivity| |].
  - simpl Z.to_int. simpl NilZero.string_of_int.
    pose proof (Unsigned.to_uint_nonnil p) as Hnil.
    destruct (string_of_uint_head _ Hnil) as (c & rest & Hs & Hp & Hm).
    assert (Hz : NilZero.string_of_uint (Pos.to_uint p)
                 = NilEmpty.string_of_uint (Pos.to_uint p)).
    { revert Hnil. clear. destruct (Pos.to_uint p); intros Hnil;
        [congruence | reflexivity ..]. }
    rewrite Hz, (Atoi_unsigned _ c rest Hs Hp Hm).
    unfold parseDigits. rewrite <- Hz, NilZero.usu by assumption.
    change (Decimal.Pos (Pos.to_uint p)) with (Z.to_int (Z.pos p)).
    now rewrite DecimalZ.of_to.
  - simpl Z.to_int. simpl NilZero.string_of_int. unfold Atoi.
    unfold parseDigits.
    rewrite NilZero.usu by apply Unsigned.to_uint_nonnil.
    change (Decimal.Neg (Pos.to_uint p)) with (Z.to_int (Z.neg p)).
    now rewrite DecimalZ.of_to.
Qed.

Lemma Atoi_Itoa (z : Z) : is_int z -> Atoi (Itoa z) = Ok z.
Proof.
  intros [Hlo Hhi]. rewrite Atoi_Itoa_gen.
  apply Z.leb_le in Hlo, Hhi. now rewrite Hlo, Hhi.
Qed.

Lemma Atoi_Itoa_inv (z z' : Z) : Atoi (Itoa z) = Ok z' -> z' = z.
Proof.
  rewrite Atoi_Itoa_gen. destruct (_ && _); congruence.
Qed.

Lemma Atoi_Itoa_is_int (z z' : Z) : Atoi (Itoa z) = Ok z' -> is_int z.
Proof.
  rewrite Atoi_Itoa_gen. unfold is_int.
  destruct (minInt <=? z) eqn:Hlo, (z <=? maxInt) eqn:Hhi; simpl;
    try discriminate.
  intros _. split; [now apply Z.leb_le | now apply Z.leb_le].
Qed.

Lemma Itoa_inj (a b : Z) : Itoa a = Itoa b -> a = b.
Proof.
  unfold Itoa. intros H.
  assert (Hn : forall z, Z.to_int z <> Decimal.Pos Decimal.Nil /\
                         Z.to_int z <> Decimal.Neg Decimal.Nil).
  { intros [|p|p]; simpl; split; try discriminate;
      intros [= Hp]; now apply (Unsigned.to_uint_nonnil p). }
  apply DecimalZ.to_int_inj.
  assert (Hs : Some (Z.to_int a) = Some (Z.to_int b)).
  { rewrite <- (NilZero.isi (Z.to_int a)), <- (NilZero.isi (Z.to_int b));
      try apply Hn. now rewrite H. }
  congruence.
Qed.

(** ** Keys *)

Lemma string_app_assoc (a b c : string) : (a +:+ b) +:+ c = a +:+ (b +:+ c).
Proof.
  induction a as [|x a IH]; string_norm; [reflexivity | now f_equal].
Qed.

Lemma prefix_empty (s : string) : String.prefix "" s = true.
Proof. now destruct s. Qed.

Lemma prefix_app (a b c : string) :
  String.prefix (a +:+ b) (a +:+ c) = String.prefix b c.
Proof.
  induction a as [|x a IH]; string_norm; [reflexivity |].
  simpl. now destruct (ascii_dec x x).
Qed.

(** Two keys of one namespace are told apart by what follows the
    namespace. *)
Lemma key_rest_inj (namespace r1 r2 : string) :
  "range-pool/" +:+ namespace +:+ r1 = "range-pool/" +:+ namespace +:+ r2 ->
  r1 = r2.
Proof.
  intros H. apply (String.app_inj "range-pool/") in H.
  now apply String.app_inj in H.
Qed.

Lemma below_rest (namespace r1 r2 : string) :
  microstorage.below ("range-pool/" +:+ namespace +:+ r1)
                     ("range-pool/" +:+ namespace +:+ r2)
  = String.prefix (r1 +:+ "/") r2.
Proof.
  unfold microstorage.below.
  now rewrite !string_app_assoc, !prefix_app.
Qed.

Lemma below_ItemList_ItemKey (namespace item : string) :
  microstorage.below (ItemListKeyFormat namespace)
                     (ItemKeyFormat namespace item) = true.
Proof.
  unfold ItemListKeyFormat, ItemKeyFormat. rewrite below_rest.
  string_norm. simpl. apply prefix_empty.
Qed.

Lemma below_IDList_IDKey (namespace ID item : string) :
  microstorage.below (IDListKeyFormat namespace ID)
                     (IDKeyFormat namespace ID item) = true.
Proof.
  unfold IDListKeyFormat, IDKeyFormat. rewrite below_rest.
  rewrite !string_app_assoc, !prefix_app. string_norm. simpl.
  apply prefix_empty.
Qed.

Lemma below_IDList_ItemKey (namespace ID item : string) :
  microstorage.below (IDListKeyFormat namespace ID)
                     (ItemKeyFormat namespace item) = false.
Proof.
  unfold IDListKeyFormat, ItemKeyFormat. rewrite below_rest.
  now string_norm.
Qed.

Lemma below_IDList_LatestKey (namespace ID : string) :
  microstorage.below (IDListKeyFormat namespace ID)
                     (LatestKeyFormat namespace) = false.
Proof.
  unfold IDListKeyFormat, LatestKeyFormat. rewrite below_rest.
  now string_norm.
Qed.

Lemma ItemKey_inj (namespace a b : string) :
  ItemKeyFormat namespace a = ItemKeyFormat namespace b -> a = b.
Proof.
  unfold ItemKeyFormat. intros H. apply key_rest_inj in H.
  now apply (String.app_inj "/item/") in H.
Qed.

Lemma IDKey_inj (namespace ID a b : string) :
  IDKeyFormat namespace ID a = IDKeyFormat namespace ID b -> a = b.
Proof.
  unfold IDKeyFormat. intros H. apply key_rest_inj in H.
  apply (String.app_inj "/id/"), String.app_inj in H.
  now apply (String.app_inj "/item/") in H.
Qed.

(** Keys of different families differ right after the namespace. *)
Lemma ItemKey_IDKey (namespace ID a b : string) :
  ItemKeyFormat namespace a <> IDKeyFormat namespace ID b.
Proof. unfold ItemKeyFormat, IDKeyFormat. key_discriminate. Qed.

Lemma ItemKey_LatestKey (namespace a : string) :
  ItemKeyFormat namespace a <> LatestKeyFormat namespace.
Proof. unfold ItemKeyFormat, LatestKeyFormat. key_discriminate. Qed.

Lemma IDKey_LatestKey (namespace ID a : string) :
  IDKeyFormat namespace ID a <> LatestKeyFormat namespace.
Proof. unfold IDKeyFormat, LatestKeyFormat. key_discriminate. Qed.

Lemma IDListKey_LatestKey (namespace ID : string) :
  IDListKeyFormat namespace ID <> LatestKeyFormat namespace.
Proof. unfold IDListKeyFormat, LatestKeyFormat. key_discriminate. Qed.

Lemma ItemListKey_LatestKey (namespace : string) :
  ItemListKeyFormat namespace <> LatestKeyFormat namespace.
Proof. unfold ItemListKeyFormat, LatestKeyFormat. key_discriminate. Qed.

Lemma ItemKey_ItemListKey (namespace a : string) :
  ItemKeyFormat namespace a <> ItemListKeyFormat namespace.
Proof. unfold ItemKeyFormat, ItemListKeyFormat. key_discriminate. Qed.

Lemma ItemKey_IDListKey (namespace ID a : string) :
  ItemKeyFormat namespace a <> IDListKeyFormat namespace ID.
Proof. unfold ItemKeyFormat, IDListKeyFormat. key_discriminate. Qed.

Lemma IDKey_ItemListKey (namespace ID a : string) :
  IDKeyFormat namespace ID a <> ItemListKeyFormat namespace.
Proof. unfold IDKeyFormat, ItemListKeyFormat. key_discriminate. Qed.

(** ** The allocator *)

Lemma containsInt_elem (l : list Z) (x : Z) : containsInt l x = true <-> x ∈ l.
Proof.
  induction l as [|y l IH]; simpl.
  - split; [discriminate | intros H; inversion H].
  - rewrite elem_of_cons. destruct (Z.eqb_spec y x) as [->|Hne].
    + split; auto.
    + rewrite IH. split; [auto | intros [->|H]; [congruence | exact H]].
Qed.

Lemma containsInt_not_elem (l : list Z) (x : Z) :
  containsInt l x = false <-> x ∉ l.
Proof.
  rewrite <- containsInt_elem. destruct (containsInt l x); split; congruence.
Qed.

Lemma insertInt_perm (x : Z) (l : list Z) : insertInt x l ≡ₚ x :: l.
Proof.
  induction l as [|y l IH]; simpl; [reflexivity |].
  destruct (x <=? y); [reflexivity |].
  rewrite IH. apply perm_swap.
Qed.

Lemma sortInts_perm (l : list Z) : sortInts l ≡ₚ l.
Proof.
  induction l as [|x l IH]; simpl; [reflexivity |].
  now rewrite insertInt_perm, IH.
Qed.

Lemma insertInt_sorted (x : Z) (l : list Z) :
  Sorted Z.le l -> Sorted Z.le (insertInt x l).
Proof.
  induction l as [|y l IH]; simpl; intros Hs.
  - repeat constructor.
  - destruct (Z.leb_spec x y) as [Hxy|Hyx].
    + constructor; [exact Hs | constructor; exact Hxy].
    + inversion Hs as [|? ? Hl Hhd]; subst.
      constructor; [now apply IH |].
      destruct l as [|z l]; simpl.
      * constructor; lia.
      * destruct (x <=? z); constructor; [lia |].
        inversion Hhd; subst; assumption.
Qed.

Lemma sortInts_sorted (l : list Z) : Sorted Z.le (sortInts l).
Proof.
  induction l as [|x l IH]; simpl; [constructor | now apply insertInt_sorted].
Qed.

Lemma elem_of_sortInts (l : list Z) (x : Z) : x ∈ sortInts l <-> x ∈ l.
Proof. now rewrite sortInts_perm. Qed.

Lemma length_sortInts (l : list Z) : length (sortInts l) = length l.
Proof. now rewrite sortInts_perm. Qed.

(** *** The loop of [iterator] *)

(** Whatever the loop returns is the sentinel or a free integer. *)
Lemma iterate_free (used : list Z) (max : Z) (fuel : nat) (i r : Z) :
  iterate used max fuel i = Some r -> r = latestItemException \/ r ∉ used.
Proof.
  revert i. induction fuel as [|fuel IH]; intros i; simpl; [discriminate |].
  destruct (i <=? max); [| intros [= <-]; now left].
  destruct (containsInt used i) eqn:Hc; [apply IH |].
  intros [= <-]. right. now apply containsInt_not_elem.
Qed.

(** The loop stops at the first free integer it meets. *)
Lemma iterate_first_free (used : list Z) (max : Z) (fuel : nat) (i v r : Z) :
  minInt <= i -> v <= maxInt -> firstFree used i max v ->
  iterate used max fuel i = Some r -> r = v.
Proof.
  intros Hi Hv (Hrange & Hfree & Hbelow). revert i Hi Hrange Hbelow.
  induction fuel as [|fuel IH]; intros i Hi Hrange Hbelow; simpl;
    [discriminate |].
  destruct (Z.leb_spec i max) as [_|Hgt]; [| lia].
  destruct (containsInt used i) eqn:Hc.
  - assert (i <> v) by (intros ->; now apply containsInt_not_elem in Hfree;
                        congruence).
    rewrite wrap_id by (unfold is_int; lia).
    apply IH; [lia | lia |]. intros j Hj. apply Hbelow. lia.
  - intros [= <-]. apply containsInt_not_elem in Hc.
    destruct (Z.eq_dec i v) as [|Hne]; [assumption |].
    exfalso. apply Hc, Hbelow. lia.
Qed.

(** Past a range without a free integer the loop returns the sentinel. *)
Lemma iterate_none_free (used : list Z) (max : Z) (fuel : nat) (i r : Z) :
  minInt <= i -> max < maxInt -> noneFree used i max ->
  iterate used max fuel i = Some r -> r = latestItemException.
Proof.
  intros Hi Hmax. revert i Hi.
  induction fuel as [|fuel IH]; intros i Hi Hnone; simpl; [discriminate |].
  destruct (Z.leb_spec i max) as [Hle|Hgt]; [| congruence].
  assert (Hc : containsInt used i = true)
    by (apply containsInt_elem, Hnone; lia).
  rewrite Hc, wrap_id by (unfold is_int; lia).
  apply IH; [lia |]. intros j Hj. apply Hnone. lia.
Qed.

(** When the loop is cut off, every integer it went through is in [used]. *)
Lemma iterate_cut_off (used : list Z) (max : Z) (fuel : nat) (i : Z) :
  minInt <= i -> max < maxInt -> iterate used max fuel i = None ->
  forall k, (k < fuel)%nat -> i + Z.of_nat k ∈ used.
Proof.
  intros Hi Hmax. revert i Hi.
  induction fuel as [|fuel IH]; intros i Hi; simpl; [intros _ k; lia |].
  destruct (Z.leb_spec i max) as [Hle|Hgt]; [| discriminate].
  destruct (containsInt used i) eqn:Hc; [| discriminate].
  rewrite wrap_id by (unfold is_int; lia). intros Hnone [|k] Hk.
  - rewrite Z.add_0_r. now apply containsInt_elem.
  - replace (i + Z.of_nat (S k)) with (i + 1 + Z.of_nat k) by lia.
    apply IH; [lia | assumption | lia].
Qed.

(** [len(used) + 1] runs are enough as long as [i] cannot overflow. *)
Lemma iterator_returns (used : list Z) (min max : Z) :
  minInt <= min -> max < maxInt -> exists r, iterator used min max = Some r.
Proof.
  intros Hmin Hmax. unfold iterator.
  destruct (iterate used max (S (length used)) min) as [r|] eqn:Hit;
    [now exists r |].
  exfalso.
  pose proof (iterate_cut_off _ _ _ _ Hmin Hmax Hit) as Hall.
  set (visited := (fun k => min + Z.of_nat k) <$> seq 0 (S (length used))).
  assert (Hnodup : NoDup visited).
  { apply NoDup_fmap_2; [intros a b; lia | apply NoDup_seq]. }
  assert (Hsub : visited ⊆+ used).
  { apply NoDup_submseteq; [exact Hnodup |].
    intros x (k & -> & Hk)%list_elem_of_fmap.
    apply elem_of_seq in Hk. apply Hall. lia. }
  apply submseteq_length in Hsub.
  unfold visited in Hsub. rewrite length_fmap, length_seq in Hsub. lia.
Qed.

(** *** The loop under wrap-around *)

Lemma wrap_add (a b : Z) : wrap (wrap a + b) = wrap (a + b).
Proof. unfold wrap. Z.div_mod_to_equations. lia. Qed.

Lemma wrap_offset_inj (i a b : Z) :
  0 <= a < 18446744073709551616 -> 0 <= b < 18446744073709551616 ->
  wrap (i + a) = wrap (i + b) -> a = b.
Proof. unfold wrap. intros Ha Hb. Z.div_mod_to_equations. lia. Qed.

Lemma iterate_cut_off_wrap (used : list Z) (max : Z) (fuel : nat) (i : Z) :
  is_int i -> iterate used max fuel i = None ->
  forall k, (k < fuel)%nat -> wrap (i + Z.of_nat k) ∈ used.
Proof.
  revert i. induction fuel as [|fuel IH]; intros i Hi; simpl;
    [intros _ k; lia |].
  destruct (i <=? max); [| discriminate].
  destruct (containsInt used i) eqn:Hc; [| discriminate].
  intros Hnone [|k] Hk.
  - rewrite Z.add_0_r, wrap_id by exact Hi. now apply containsInt_elem.
  - replace (i + Z.of_nat (S k)) with (i + 1 + Z.of_nat k) by lia.
    rewrite <- wrap_add. apply IH; [apply wrap_is_int | exact Hnone | lia].
Qed.

(** The loop finishes on every slice Go can hold, whatever the bounds:
    [len(used) + 1] runs never take [i] twice to one value. *)
Lemma iterator_total (used : list Z) (min max : Z) :
  is_int min -> Z.of_nat (length used) < 18446744073709551616 ->
  exists r, iterator used min max = Some r.
Proof.
  intros Hmin Hlen. unfold iterator.
  destruct (iterate used max (S (length used)) min) as [r|] eqn:Hit;
    [now exists r |].
  exfalso.
  pose proof (iterate_cut_off_wrap _ _ _ _ Hmin Hit) as Hall.
  set (visited := (fun k => wrap (min + Z.of_nat k))
                    <$> seq 0 (S (length used))).
  assert (Hnodup : NoDup visited).
  { apply NoDup_fmap_2_strong; [| apply NoDup_seq].
    intros a b Ha Hb Heq. apply elem_of_seq in Ha, Hb.
    apply wrap_offset_inj in Heq; lia. }
  assert (Hsub : visited ⊆+ used).
  { apply NoDup_submseteq; [exact Hnodup |].
    intros x (k & -> & Hk)%list_elem_of_fmap.
    apply elem_of_seq in Hk. apply Hall. lia. }
  apply submseteq_length in Hsub.
  unfold visited in Hsub. rewrite length_fmap, length_seq in Hsub. lia.
Qed.

(** *** [nextItem] *)

(** Valid arguments get past the five checks. *)
Lemma nextItem_valid (used : list Z) (min max latest : Z) :
  validArgs min max latest ->
  nextItem used min max latest =
  let used := sortInts used in
  let wholeRange :=
    match iterator used min max with
    | None => OutOfFuel
    | Some nextItem =>
        if negb (nextItem =? latestItemException) then Ok nextItem
        else Err capacityReachedError
    end in
  if negb (latest =? latestItemException) then
    match iterator used (wrap (latest + 1)) max with
    | None => OutOfFuel
    | Some nextItem =>
        if negb (nextItem =? latestItemException) then Ok nextItem
        else wholeRange
    end
  else wholeRange.
Proof.
  unfold nextItem, validArgs, latestItemException.
  intros (Hmin & Hmax & Hlt & Hlatest).
  destruct (Z.leb_spec min (-1)); [lia |].
  destruct (Z.leb_spec max (-1)); [lia |].
  destruct (Z.geb_spec min max); [lia |].
  destruct (Z.eqb_spec latest (-1)) as [->|Hne]; simpl; [reflexivity |].
  destruct (Z.ltb_spec latest min); [lia |].
  destruct (Z.gtb_spec latest max); [lia |].
  reflexivity.
Qed.

(** A call that does not fail on its arguments had valid ones. *)
Lemma nextItem_not_failed (used : list Z) (min max latest : Z) :
  nextItem used min max latest <> Err executionFailedError ->
  validArgs min max latest.
Proof.
  unfold nextItem, validArgs, latestItemException.
  destruct (Z.leb_spec min (-1)); [congruence |].
  destruct (Z.leb_spec max (-1)); [congruence |].
  destruct (Z.geb_spec min max); [congruence |].
  destruct (Z.eqb_spec latest (-1)) as [->|Hne]; simpl.
  - intros _. repeat split; lia.
  - destruct (Z.ltb_spec latest min); [congruence |].
    destruct (Z.gtb_spec latest max); [congruence |].
    intros _. repeat split; lia.
Qed.

Lemma nextItem_Ok_valid (used : list Z) (min max latest v : Z) :
  nextItem used min max latest = Ok v -> validArgs min max latest.
Proof. intros H. apply (nextItem_not_failed used). congruence. Qed.

(** An item [nextItem] hands out is never one of [used], and never the
    sentinel. *)
Lemma nextItem_free (used : list Z) (min max latest v : Z) :
  nextItem used min max latest = Ok v ->
  (v ∉ used) /\ v <> latestItemException.
Proof.
  intros H. pose proof (nextItem_Ok_valid _ _ _ _ _ H) as Hvalid.
  rewrite (nextItem_valid _ _ _ _ Hvalid) in H. cbv zeta in H.
  assert (Hwhole :
    match iterator (sortInts used) min max with
    | None => OutOfFuel
    | Some n => if negb (n =? latestItemException) then Ok n
                else Err capacityReachedError
    end = Ok v -> (v ∉ used) /\ v <> latestItemException).
  { destruct (iterator (sortInts used) min max) as [n|] eqn:Hit;
      [| discriminate].
    destruct (Z.eqb_spec n latestItemException) as [|Hn]; simpl;
      [discriminate |].
    intros [= <-]. split; [| exact Hn].
    apply iterate_free in Hit as [?|Hfree]; [contradiction |].
    now rewrite elem_of_sortInts in Hfree. }
  destruct (negb (latest =? latestItemException)); [| now apply Hwhole].
  destruct (iterator (sortInts used) (wrap (latest + 1)) max) as [n|] eqn:Hit;
    [| discriminate].
  destruct (Z.eqb_spec n latestItemException) as [|Hn]; simpl in H;
    [now apply Hwhole |].
  injection H as <-. split; [| exact Hn].
  apply iterate_free in Hit as [?|Hfree]; [contradiction |].
  now rewrite elem_of_sortInts in Hfree.
Qed.

(** On values Go can hold, [nextItem] answers: the model's bound on the
    loop is never met. *)
Lemma nextItem_answers (used : list Z) (min max latest : Z) :
  is_int min -> Z.of_nat (length used) < 18446744073709551616 ->
  nextItem used min max latest <> OutOfFuel.
Proof.
  intros Hmin Hlen. unfold nextItem.
  rewrite <- length_sortInts in Hlen.
  destruct (iterator_total (sortInts used) min max Hmin Hlen) as [r ->].
  destruct (iterator_total (sortInts used) (wrap (latest + 1)) max
              (wrap_is_int _) Hlen) as [r' ->].
  repeat match goal with
         | |- (if ?c then _ else _) <> _ => destruct c
         end; discriminate.
Qed.

Lemma firstFree_sortInts (used : list Z) (lo hi v : Z) :
  firstFree (sortInts used) lo hi v <-> firstFree used lo hi v.
Proof.
  unfold firstFree. rewrite elem_of_sortInts.
  split; intros (? & ? & Hb); (split; [assumption | split; [assumption |]]);
    intros j Hj; specialize (Hb j Hj); now apply elem_of_sortInts.
Qed.

Lemma noneFree_sortInts (used : list Z) (lo hi : Z) :
  noneFree (sortInts used) lo hi <-> noneFree used lo hi.
Proof.
  unfold noneFree. split; intros H j Hj; specialize (H j Hj);
    now apply elem_of_sortInts.
Qed.

(** First phase: with a cursor, the smallest free integer above it wins. *)
Lemma nextItem_above_latest (used : list Z) (min max latest v r : Z) :
  is_int max -> latest <> latestItemException ->
  firstFree used (latest + 1) max v ->
  nextItem used min max latest = Ok r -> r = v.
Proof.
  intros [_ Hmax] Hlatest Hfirst H.
  pose proof (nextItem_Ok_valid _ _ _ _ _ H) as Hvalid.
  rewrite (nextItem_valid _ _ _ _ Hvalid) in H. cbv zeta in H.
  destruct Hvalid as (Hmin & _ & _ & [?|Hbounds]); [contradiction |].
  assert (Hv : latest + 1 <= v <= max) by apply Hfirst.
  apply Z.eqb_neq in Hlatest. rewrite Hlatest in H. simpl in H.
  rewrite wrap_id in H by (unfold is_int, minInt; lia).
  destruct (iterator (sortInts used) (latest + 1) max) as [n|] eqn:Hit;
    [| discriminate].
  apply (iterate_first_free _ _ _ _ v) in Hit;
    [| unfold minInt; lia | lia | now apply firstFree_sortInts].
  subst n. unfold latestItemException in *.
  destruct (Z.eqb_spec v (-1)); [lia |]. simpl in H. congruence.
Qed.

(** Second phase: without a cursor, or with nothing free above it, the
    smallest free integer of the whole range wins. *)
Lemma nextItem_whole_range (used : list Z) (min max latest v r : Z) :
  max < maxInt ->
  latest = latestItemException \/ noneFree used (latest + 1) max ->
  firstFree used min max v ->
  nextItem used min max latest = Ok r -> r = v.
Proof.
  intros Hmax Hcase Hfirst H.
  pose proof (nextItem_Ok_valid _ _ _ _ _ H) as Hvalid.
  rewrite (nextItem_valid _ _ _ _ Hvalid) in H. cbv zeta in H.
  destruct Hvalid as (Hmin & _ & _ & Hbounds).
  assert (Hv : min <= v <= max) by apply Hfirst.
  assert (Hwhole :
    match iterator (sortInts used) min max with
    | None => OutOfFuel
    | Some n => if negb (n =? latestItemException) then Ok n
                else Err capacityReachedError
    end = Ok r -> r = v).
  { destruct (iterator (sortInts used) min max) as [n|] eqn:Hit;
      [| discriminate].
    apply (iterate_first_free _ _ _ _ v) in Hit;
      [| unfold minInt; lia | lia | now apply firstFree_sortInts].
    subst n. destruct (negb (v =? latestItemException)); congruence. }
  destruct (Z.eqb_spec latest latestItemException) as [|Hne]; simpl in H;
    [now apply Hwhole |].
  destruct Hcase as [?|Hnone]; [contradiction |].
  destruct Hbounds as [?|Hbounds]; [contradiction |].
  rewrite wrap_id in H by (unfold is_int, minInt, maxInt in *; lia).
  destruct (iterator (sortInts used) (latest + 1) max) as [n|] eqn:Hit;
    [| discriminate].
  apply iterate_none_free in Hit;
    [| unfold minInt; lia | assumption | now apply noneFree_sortInts].
  subst n. now apply Hwhole.
Qed.

(** The allocator always answers when [max] is not the largest [int]. *)
Lemma nextItem_returns (used : list Z) (min max latest : Z) :
  max < maxInt -> validArgs min max latest ->
  (exists v, nextItem used min max latest = Ok v) \/
  nextItem used min max latest = Err capacityReachedError.
Proof.
  intros Hmax Hvalid. rewrite (nextItem_valid _ _ _ _ Hvalid). cbv zeta.
  destruct Hvalid as (Hmin & _ & _ & Hbounds).
  destruct (iterator_returns (sortInts used) min max) as [n Hn];
    [unfold minInt; lia | assumption |].
  rewrite Hn.
  assert (Hwhole :
    (exists v, (if negb (n =? latestItemException) then Ok n
                else Err capacityReachedError) = Ok v) \/
    (if negb (n =? latestItemException) then Ok n
     else Err capacityReachedError) = Err capacityReachedError).
  { destruct (negb (n =? latestItemException)); eauto. }
  destruct (Z.eqb_spec latest latestItemException) as [|Hne]; simpl;
    [exact Hwhole |].
  destruct Hbounds as [?|Hbounds]; [contradiction |].
  rewrite wrap_id by (unfold is_int, minInt, maxInt in *; lia).
  destruct (iterator_returns (sortInts used) (latest + 1) max) as [m Hm];
    [unfold minInt; lia | assumption |].
  rewrite Hm. destruct (negb (m =? latestItemException)); eauto.
Qed.

(** With nothing free in the range the allocator reports the exhaustion. *)
Lemma nextItem_capacity_reached (used : list Z) (min max latest : Z) :
  max < maxInt -> validArgs min max latest -> noneFree used min max ->
  nextItem used min max latest = Err capacityReachedError.
Proof.
  intros Hmax Hvalid Hnone.
  destruct (nextItem_returns used min max latest Hmax Hvalid) as [[v Hv]|H];
    [| exact H].
  exfalso. pose proof Hv as Hfree. apply nextItem_free in Hfree as [Hfree Hs].
  rewrite (nextItem_valid _ _ _ _ Hvalid) in Hv. cbv zeta in Hv.
  destruct Hvalid as (Hmin & _ & _ & Hbounds).
  assert (Hwhole :
    match iterator (sortInts used) min max with
    | None => OutOfFuel
    | Some n => if negb (n =? latestItemException) then Ok n
                else Err capacityReachedError
    end <> Ok v).
  { destruct (iterator (sortInts used) min max) as [n|] eqn:Hit;
      [| discriminate].
    apply iterate_none_free in Hit;
      [| unfold minInt; lia | assumption | now apply noneFree_sortInts].
    subst n. discriminate. }
  destruct (Z.eqb_spec latest latestItemException) as [|Hne]; simpl in Hv;
    [contradiction |].
  destruct Hbounds as [?|Hbounds]; [contradiction |].
  rewrite wrap_id in Hv by (unfold is_int, minInt, maxInt in *; lia).
  destruct (iterator (sortInts used) (latest + 1) max) as [n|] eqn:Hit;
    [| discriminate].
  apply iterate_none_free in Hit;
    [| unfold minInt; lia | assumption |].
  - subst n. contradiction.
  - apply noneFree_sortInts. intros j Hj. apply Hnone. lia.
Qed.

Lemma iterate_sentinel (used : list Z) (max : Z) (fuel : nat) (i : Z) :
  0 <= i -> max < maxInt ->
  iterate used max fuel i = Some latestItemException -> noneFree used i max.
Proof.
  intros Hi Hmax. revert i Hi.
  induction fuel as [|fuel IH]; intros i Hi; simpl; [discriminate |].
  destruct (Z.leb_spec i max) as [Hle|Hgt]; [| intros _ j Hj; lia].
  destruct (containsInt used i) eqn:Hc.
  - rewrite wrap_id by (unfold is_int, minInt; lia). intros Hit j Hj.
    destruct (Z.eq_dec j i) as [->|Hne]; [now apply containsInt_elem |].
    apply (IH (i + 1)); [lia | assumption | lia].
  - unfold latestItemException. intros [= ->]. lia.
Qed.

Lemma nextItem_capacity_inv (used : list Z) (min max latest : Z) :
  max < maxInt -> nextItem used min max latest = Err capacityReachedError ->
  noneFree used min max.
Proof.
  intros Hmax H.
  assert (Hvalid : validArgs min max latest)
    by (apply (nextItem_not_failed used); congruence).
  rewrite (nextItem_valid _ _ _ _ Hvalid) in H. cbv zeta in H.
  destruct Hvalid as (Hmin & _ & _ & _).
  assert (Hwhole :
    match iterator (sortInts used) min max with
    | None => OutOfFuel
    | Some n => if negb (n =? latestItemException) then Ok n
                else Err capacityReachedError
    end = Err capacityReachedError -> noneFree used min max).
  { destruct (iterator (sortInts used) min max) as [n|] eqn:Hit;
      [| discriminate].
    destruct (Z.eqb_spec n latestItemException) as [->|]; [| discriminate].
    intros _. apply noneFree_sortInts.
    now apply iterate_sentinel in Hit. }
  destruct (negb (latest =? latestItemException)); [| now apply Hwhole].
  destruct (iterator (sortInts used) (wrap (latest + 1)) max) as [n|];
    [| discriminate].
  destruct (negb (n =? latestItemException)); [discriminate |].
  now apply Hwhole.
Qed.

(** X1: what [nextItem] computes for valid arguments, as long as [max] is
    not the largest [int]: the smallest free integer above the cursor, else the
    smallest free integer of the range, else the exhaustion. *)
Theorem nextItem_spec (used : list Z) (min max latest : Z) :
  max < maxInt -> validArgs min max latest ->
  (forall v, latest <> latestItemException ->
             firstFree used (latest + 1) max v ->
             nextItem used min max latest = Ok v) /\
  (forall v, latest = latestItemException \/ noneFree used (latest + 1) max ->
             firstFree used min max v ->
             nextItem used min max latest = Ok v) /\
  (noneFree used min max ->
   nextItem used min max latest = Err capacityReachedError).
Proof.
  intros Hmax Hvalid.
  assert (Hfree : forall lo v, min <= lo -> firstFree used lo max v ->
            exists r, nextItem used min max latest = Ok r).
  { intros lo v Hlo (Hv & Hfree & _).
    destruct (nextItem_returns used min max latest Hmax Hvalid) as [?|Hcap];
      [assumption |].
    apply nextItem_capacity_inv in Hcap; [| assumption].
    exfalso. apply Hfree, Hcap. lia. }
  split; [| split].
  - intros v Hlatest Hfirst.
    destruct (Hfree (latest + 1) v) as [r Hr]; [| assumption |].
    + destruct Hvalid as (_ & _ & _ & [?|?]); [contradiction | lia].
    + rewrite Hr. f_equal.
      apply (nextItem_above_latest used min max latest); try assumption.
      unfold is_int, minInt. destruct Hvalid as (? & ? & _). lia.
  - intros v Hcase Hfirst.
    destruct (Hfree min v) as [r Hr]; [lia | assumption |].
    rewrite Hr. f_equal.
    now apply (nextItem_whole_range used min max latest).
  - now apply nextItem_capacity_reached.
Qed.

(** C1 (the code at the failing input): with [max] the largest [int] and
    the cursor on it, [latest+1] wraps around to the smallest [int], which
    the loop finds free and [nextItem] returns, an integer outside
    [min..max], where the claim has the smallest free integer of
    [min..max], here 0. *)
Theorem nextItem_leaves_range_at_max_int :
  validArgs 0 maxInt maxInt /\
  firstFree [] 0 maxInt 0 /\
  nextItem [] 0 maxInt maxInt = Ok minInt.
Proof.
  split; [| split].
  - unfold validArgs, maxInt. lia.
  - unfold firstFree, maxInt. split; [lia | split].
    + apply not_elem_of_nil.
    + intros j Hj. lia.
  - reflexivity.
Qed.

(** C5: [nextItem] fails with [executionFailedError] exactly when [min] or
    [max] is negative, or [min >= max], or [latest] is not the sentinel -1
    and lies outside [min..max]; with [min = 2] and [max = 9] it does so for
    [latest = 10] and for [latest = 0]. *)
Theorem nextItem_execution_failed_iff :
  (forall (used : list Z) (min max latest : Z),
      nextItem used min max latest = Err executionFailedError <->
      (min < 0 \/ max < 0 \/ min >= max \/
       (latest <> -1 /\ (latest < min \/ latest > max)))) /\
  nextItem [3; 4; 6] 2 9 10 = Err executionFailedError /\
  nextItem [3; 4; 6] 2 9 0 = Err executionFailedError.
Proof.
  split; [| split; reflexivity].
  intros used min max latest. split.
  - intros H.
    destruct (Z.lt_ge_cases min 0) as [?|Hmin]; [now left |].
    destruct (Z.lt_ge_cases max 0) as [?|Hmax]; [now right; left |].
    destruct (Z.lt_ge_cases min max) as [Hlt|?]; [| right; right; left; lia].
    destruct (Z.eq_dec latest (-1)) as [Heq|Hne].
    + exfalso.
      assert (Hvalid : validArgs min max latest)
        by (unfold validArgs, latestItemException; lia).
      rewrite (nextItem_valid _ _ _ _ Hvalid) in H. cbv zeta in H.
      repeat match type of H with
             | context [match ?x with _ => _ end] => destruct x
             end; discriminate.
    + destruct (Z.lt_ge_cases latest min); [right; right; right; lia |].
      destruct (Z.lt_ge_cases max latest); [right; right; right; lia |].
      exfalso.
      assert (Hvalid : validArgs min max latest)
        by (unfold validArgs, latestItemException; lia).
      rewrite (nextItem_valid _ _ _ _ Hvalid) in H. cbv zeta in H.
      repeat match type of H with
             | context [match ?x with _ => _ end] => destruct x
             end; discriminate.
  - intros H.
    destruct (nextItem used min max latest) as [v|e| |] eqn:Hn.
    + apply nextItem_Ok_valid in Hn.
      unfold validArgs, latestItemException in Hn. lia.
    + destruct e; try reflexivity;
        (assert (Hvalid : validArgs min max latest)
           by (apply (nextItem_not_failed used); congruence);
         unfold validArgs, latestItemException in Hvalid; lia).
    + assert (Hvalid : validArgs min max latest)
        by (apply (nextItem_not_failed used); congruence).
      unfold validArgs, latestItemException in Hvalid. lia.
    + assert (Hvalid : validArgs min max latest)
        by (apply (nextItem_not_failed used); congruence).
      unfold validArgs, latestItemException in Hvalid. lia.
Qed.

(** ** The storage *)

Lemma elem_of_values (key : string) (s : gmap string string) (x : string) :
  x ∈ microstorage.values key s <->
  exists k, s !! k = Some x /\ microstorage.below key k = true.
Proof.
  unfold microstorage.values. rewrite list_elem_of_fmap. split.
  - intros ([k v] & -> & H). apply elem_of_map_to_list in H.
    apply map_lookup_filter_Some in H as [H1 H2]. exists k. now split.
  - intros (k & H1 & H2). exists (k, x). split; [reflexivity |].
    apply elem_of_map_to_list, map_lookup_filter_Some. now split.
Qed.

Lemma values_nil (key : string) (s : gmap string string) :
  microstorage.values key s = [] <->
  forall k x, s !! k = Some x -> microstorage.below key k = false.
Proof.
  split.
  - intros Hnil k x Hk. destruct (microstorage.below key k) eqn:Hb;
      [| reflexivity].
    assert (Hx : x ∈ microstorage.values key s)
      by (apply elem_of_values; eauto).
    rewrite Hnil in Hx. inversion Hx.
  - intros Hall. destruct (microstorage.values key s) as [|x l] eqn:Hv;
      [reflexivity |].
    assert (Hx : x ∈ microstorage.values key s)
      by (rewrite Hv; apply list_elem_of_here).
    apply elem_of_values in Hx as (k & Hk & Hb).
    rewrite (Hall k x Hk) in Hb. discriminate.
Qed.

(** ** Conversions *)

Lemma Atoi_outcome (s : string) :
  (exists z, Atoi s = Ok z) \/ (exists e, Atoi s = Err e).
Proof.
  assert (Hp : forall neg digits,
             (exists z, parseDigits neg digits = Ok z) \/
             (exists e, parseDigits neg digits = Err e)).
  { intros neg digits. unfold parseDigits.
    destruct (NilZero.uint_of_string digits); [| eauto].
    destruct (_ && _); eauto. }
  unfold Atoi. destruct s as [|c s]; [apply Hp |].
  destruct c as [[|] [|] [|] [|] [|] [|] [|] [|]]; apply Hp.
Qed.

Lemma stringsToInts_outcome (l : list string) :
  (exists zs, stringsToInts l = Ok zs) \/ (exists e, stringsToInts l = Err e).
Proof.
  induction l as [|x l IH]; simpl; [eauto |].
  destruct (Atoi_outcome x) as [[z ->]|[e ->]]; [| eauto].
  destruct IH as [[zs ->]|[e ->]]; eauto.
Qed.

Lemma stringsToInts_Ok (l : list string) (zs : list Z) :
  stringsToInts l = Ok zs ->
  zs = atoi <$> l /\ Forall (fun x => Atoi x = Ok (atoi x)) l.
Proof.
  revert zs. induction l as [|x l IH]; simpl; intros zs.
  - intros [= <-]. split; [reflexivity | constructor].
  - destruct (Atoi x) as [z| | |] eqn:Hx; try discriminate.
    destruct (stringsToInts l) as [zs'| | |]; try discriminate.
    intros [= <-]. destruct (IH zs' eq_refl) as [-> Hall].
    assert (Hz : atoi x = z) by (unfold atoi; now rewrite Hx).
    split; [simpl; now rewrite Hz |].
    constructor; [now rewrite Hz | exact Hall].
Qed.

Lemma stringsToInts_all (l : list string) :
  Forall (fun x => exists z, Atoi x = Ok z) l ->
  stringsToInts l = Ok (atoi <$> l).
Proof.
  induction 1 as [|x l [z Hz] _ IH]; simpl; [reflexivity |].
  rewrite Hz, IH. unfold atoi at 2. now rewrite Hz.
Qed.

(** ** What the operations of the service compute *)

Lemma used_run (namespace : string) (s : gmap string string) :
  Service.used namespace s =
  (stringsToInts (microstorage.values (ItemListKeyFormat namespace) s), s).
Proof.
  unfold Service.used, bind, attempt, microstorage.List, lift, ret.
  now destruct (microstorage.values (ItemListKeyFormat namespace) s).
Qed.

Lemma latest_run (namespace : string) (s : gmap string string) :
  Service.latest namespace s =
  (Atoi (default (Itoa latestItemException)
                 (s !! LatestKeyFormat namespace)), s).
Proof.
  unfold Service.latest, bind, attempt, microstorage.Search, lift, ret.
  now destruct (s !! LatestKeyFormat namespace).
Qed.

Lemma createItems_run (namespace ID : string) (items : list Z)
  (s : gmap string string) :
  Service.createItems namespace ID items s
  = (Ok tt, written namespace ID s items).
Proof.
  revert s. induction items as [|item items IH]; intros s; [reflexivity |].
  simpl. unfold bind, microstorage.Create. now rewrite IH.
Qed.

Lemma deleteItems_run (namespace ID : string) (items : list Z)
  (s : gmap string string) :
  Service.deleteItems namespace ID items s
  = (Ok tt, removed namespace ID s items).
Proof.
  revert s. induction items as [|item items IH]; intros s; [reflexivity |].
  simpl. unfold bind, microstorage.Delete. now rewrite IH.
Qed.

Lemma index_last (front : list Z) (x : Z) :
  index (front ++ [x]) (Z.of_nat (length (front ++ [x])) - 1) = Ok x.
Proof.
  unfold index. rewrite length_app. simpl length.
  replace (Z.of_nat (length front + 1) - 1) with (Z.of_nat (length front))
    by lia.
  rewrite Nat2Z.id.
  destruct (Z.leb_spec 0 (Z.of_nat (length front))); [| lia].
  destruct (Z.ltb_spec (Z.of_nat (length front))
                       (Z.of_nat (length front + 1))); [| lia].
  simpl. now rewrite app_nth2, Nat.sub_diag by lia.
Qed.

Lemma create_run (namespace ID : string) (front : list Z) (x : Z)
  (s : gmap string string) :
  Service.create namespace ID (front ++ [x]) s
  = (Ok tt, <[LatestKeyFormat namespace := Itoa x]>
              (written namespace ID s (front ++ [x]))).
Proof.
  unfold Service.create, bind. rewrite createItems_run.
  unfold lift. now rewrite index_last.
Qed.

Lemma create_nil (namespace ID : string) (s : gmap string string) :
  Service.create namespace ID [] s = (Panic, s).
Proof. reflexivity. Qed.

(** ** A batch of the allocator *)

Lemma iterate_ext (used used' : list Z) (max : Z) (fuel : nat) (i : Z) :
  (forall x, x ∈ used <-> x ∈ used') ->
  iterate used max fuel i = iterate used' max fuel i.
Proof.
  intros Hsame. revert i. induction fuel as [|fuel IH]; intros i; simpl;
    [reflexivity |].
  assert (Hc : containsInt used i = containsInt used' i).
  { destruct (containsInt used' i) eqn:Hc'.
    - apply containsInt_elem, Hsame. now apply containsInt_elem.
    - apply containsInt_not_elem. rewrite Hsame.
      now apply containsInt_not_elem. }
  now rewrite Hc, IH.
Qed.

(** The order of [used] is of no consequence to [nextItem]. *)
Lemma nextItem_perm (used used' : list Z) (min max latest : Z) :
  used ≡ₚ used' ->
  nextItem used min max latest = nextItem used' min max latest.
Proof.
  intros Hperm. unfold nextItem, iterator.
  rewrite !length_sortInts, (Permutation_length Hperm).
  assert (Hsame : forall x, x ∈ sortInts used <-> x ∈ sortInts used')
    by (intros x; now rewrite !elem_of_sortInts, Hperm).
  now rewrite !(iterate_ext (sortInts used) (sortInts used') _ _ _ Hsame).
Qed.

Lemma allocated_perm (used used' : list Z) (min max latest : Z)
  (items : list Z) :
  used ≡ₚ used' ->
  allocated used min max latest items -> allocated used' min max latest items.
Proof.
  revert used used'. induction items as [|item items IH]; simpl;
    intros used used' Hperm; [trivial |].
  intros [Hnext Hrest]. split.
  - now rewrite <- (nextItem_perm used used').
  - apply (IH (used ++ [item])); [now rewrite Hperm | exact Hrest].
Qed.

(** The items of a batch are pairwise distinct, free and no sentinel. *)
Lemma allocated_distinct (used : list Z) (min max latest : Z)
  (items : list Z) :
  allocated used min max latest items ->
  NoDup items /\
  forall v, v ∈ items -> (v ∉ used) /\ v <> latestItemException.
Proof.
  revert used. induction items as [|item items IH]; simpl; intros used.
  - intros _. split; [constructor |]. intros v Hv. inversion Hv.
  - intros [Hnext Hrest]. apply nextItem_free in Hnext as [Hfree Hsent].
    destruct (IH _ Hrest) as [Hnodup Hall]. split.
    + constructor; [| exact Hnodup].
      intros Hin. destruct (Hall _ Hin) as [Hnot _].
      apply Hnot, elem_of_app. right. apply list_elem_of_here.
    + intros v [->|Hin]%elem_of_cons; [now split |].
      destruct (Hall _ Hin) as [Hnot Hs]. split; [| exact Hs].
      intros Hu. apply Hnot, elem_of_app. now left.
Qed.

Lemma allocate_Ok (n : nat) (used items : list Z) (min max latest : Z)
  (r : list Z) :
  Service.allocate n used items min max latest = Ok r ->
  exists new, r = items ++ new /\ length new = n /\
              allocated used min max latest new.
Proof.
  revert used items. induction n as [|n IH]; simpl; intros used items.
  - intros [= <-]. exists []. now rewrite app_nil_r.
  - destruct (nextItem used min max latest) as [item| | |] eqn:Hnext;
      try discriminate.
    intros Hrest. apply IH in Hrest as (new & -> & Hlen & Halloc).
    exists (item :: new). rewrite <- app_assoc. simpl.
    split; [reflexivity | split; [now rewrite Hlen |]].
    split; [exact Hnext |].
    apply (allocated_perm (sortInts used ++ [item])); [| exact Halloc].
    now rewrite sortInts_perm.
Qed.


(** ** The records [create] writes and [delete] removes *)

Lemma written_cons (namespace ID : string) (item : Z) (items : list Z)
  (s : gmap string string) :
  written namespace ID s (item :: items)
  = written namespace ID
      (<[IDKeyFormat namespace ID (Itoa item) := Itoa item]>
         (<[ItemKeyFormat namespace (Itoa item) := Itoa item]> s)) items.
Proof. reflexivity. Qed.

Lemma removed_cons (namespace ID : string) (item : Z) (items : list Z)
  (s : gmap string string) :
  removed namespace ID s (item :: items)
  = removed namespace ID
      (delete (IDKeyFormat namespace ID (Itoa item))
         (delete (ItemKeyFormat namespace (Itoa item)) s)) items.
Proof. reflexivity. Qed.

(** A binding whose value is what its key ends in stays through the
    writes. *)
Lemma written_persist (namespace ID : string) (items : list Z)
  (s : gmap string string) (k x : string) :
  s !! k = Some x ->
  (forall y, k = ItemKeyFormat namespace y -> y = x) ->
  (forall y, k = IDKeyFormat namespace ID y -> y = x) ->
  written namespace ID s items !! k = Some x.
Proof.
  intros Hk Hitem Hid. revert s Hk.
  induction items as [|item items IH]; intros s Hk; [exact Hk |].
  rewrite written_cons. apply IH.
  destruct (decide (IDKeyFormat namespace ID (Itoa item) = k)) as [Heq|Hne].
  - rewrite Heq, lookup_insert_eq. f_equal. now apply Hid.
  - rewrite lookup_insert_ne by exact Hne.
    destruct (decide (ItemKeyFormat namespace (Itoa item) = k)) as [Heq|Hne'].
    + rewrite Heq, lookup_insert_eq. f_equal. now apply Hitem.
    + now rewrite lookup_insert_ne.
Qed.

Lemma written_ItemKey (namespace ID : string) (items : list Z)
  (s : gmap string string) (item : Z) :
  item ∈ items ->
  written namespace ID s items !! ItemKeyFormat namespace (Itoa item)
  = Some (Itoa item).
Proof.
  revert s. induction items as [|i items IH]; intros s Hin;
    [inversion Hin |].
  rewrite written_cons.
  apply elem_of_cons in Hin as [->|Hin]; [| now apply IH].
  apply written_persist.
  - rewrite lookup_insert_ne by (apply not_eq_sym, ItemKey_IDKey).
    apply lookup_insert_eq.
  - intros y Hy. symmetry. now apply ItemKey_inj in Hy.
  - intros y Hy. now apply ItemKey_IDKey in Hy.
Qed.

Lemma written_IDKey (namespace ID : string) (items : list Z)
  (s : gmap string string) (item : Z) :
  item ∈ items ->
  written namespace ID s items !! IDKeyFormat namespace ID (Itoa item)
  = Some (Itoa item).
Proof.
  revert s. induction items as [|i items IH]; intros s Hin;
    [inversion Hin |].
  rewrite written_cons.
  apply elem_of_cons in Hin as [->|Hin]; [| now apply IH].
  apply written_persist.
  - apply lookup_insert_eq.
  - intros y Hy. symmetry in Hy. now apply ItemKey_IDKey in Hy.
  - intros y Hy. symmetry. now apply IDKey_inj in Hy.
Qed.

(** Every binding after the writes was there before or is a record of one
    of the items. *)
Lemma written_lookup_inv (namespace ID : string) (items : list Z)
  (s : gmap string string) (k x : string) :
  written namespace ID s items !! k = Some x ->
  s !! k = Some x \/
  exists item, item ∈ items /\ x = Itoa item /\
               (k = ItemKeyFormat namespace x \/
                k = IDKeyFormat namespace ID x).
Proof.
  revert s. induction items as [|item items IH]; intros s Hk; [now left |].
  rewrite written_cons in Hk.
  apply IH in Hk as [Hk|(i & Hi & Hx & Hkey)].
  - destruct (decide (IDKeyFormat namespace ID (Itoa item) = k)) as [Heq|Hne].
    + rewrite Heq, lookup_insert_eq in Hk. injection Hk as <-.
      right. exists item. split; [apply list_elem_of_here |]. auto.
    + rewrite lookup_insert_ne in Hk by exact Hne.
      destruct (decide (ItemKeyFormat namespace (Itoa item) = k))
        as [Heq|Hne'].
      * rewrite Heq, lookup_insert_eq in Hk. injection Hk as <-.
        right. exists item. split; [apply list_elem_of_here |]. auto.
      * rewrite lookup_insert_ne in Hk by exact Hne'. now left.
  - right. exists i. split; [now apply list_elem_of_further | auto].
Qed.

(** A key that is no record of the owner is left as it was. *)
Lemma written_other (namespace ID : string) (items : list Z)
  (s : gmap string string) (k : string) :
  (forall y, k <> ItemKeyFormat namespace y) ->
  (forall y, k <> IDKeyFormat namespace ID y) ->
  written namespace ID s items !! k = s !! k.
Proof.
  intros Hitem Hid. revert s.
  induction items as [|item items IH]; intros s; [reflexivity |].
  rewrite written_cons, IH.
  rewrite !lookup_insert_ne; [reflexivity | |]; apply not_eq_sym; auto.
Qed.

(** The removals only take bindings away. *)
Lemma removed_lookup_Some (namespace ID : string) (items : list Z)
  (s : gmap string string) (k x : string) :
  removed namespace ID s items !! k = Some x -> s !! k = Some x.
Proof.
  revert s. induction items as [|item items IH]; intros s Hk; [exact Hk |].
  rewrite removed_cons in Hk. apply IH in Hk.
  apply lookup_delete_Some in Hk as [_ Hk].
  now apply lookup_delete_Some in Hk as [_ Hk].
Qed.

Lemma removed_lookup_None (namespace ID : string) (items : list Z)
  (s : gmap string string) (k : string) :
  s !! k = None -> removed namespace ID s items !! k = None.
Proof.
  intros Hk. destruct (removed namespace ID s items !! k) as [x|] eqn:Hr;
    [| reflexivity].
  apply removed_lookup_Some in Hr. congruence.
Qed.

Lemma removed_IDKey (namespace ID : string) (items : list Z)
  (s : gmap string string) (item : Z) :
  item ∈ items ->
  removed namespace ID s items !! IDKeyFormat namespace ID (Itoa item) = None.
Proof.
  revert s. induction items as [|i items IH]; intros s Hin;
    [inversion Hin |].
  rewrite removed_cons.
  apply elem_of_cons in Hin as [->|Hin]; [| now apply IH].
  apply removed_lookup_None, lookup_delete_eq.
Qed.

Lemma removed_ItemKey (namespace ID : string) (items : list Z)
  (s : gmap string string) (item : Z) :
  item ∈ items ->
  removed namespace ID s items !! ItemKeyFormat namespace (Itoa item) = None.
Proof.
  revert s. induction items as [|i items IH]; intros s Hin;
    [inversion Hin |].
  rewrite removed_cons.
  apply elem_of_cons in Hin as [->|Hin]; [| now apply IH].
  apply removed_lookup_None.
  rewrite lookup_delete_ne by apply not_eq_sym, ItemKey_IDKey.
  apply lookup_delete_eq.
Qed.

Lemma removed_other (namespace ID : string) (items : list Z)
  (s : gmap string string) (k : string) :
  (forall y, k <> ItemKeyFormat namespace y) ->
  (forall y, k <> IDKeyFormat namespace ID y) ->
  removed namespace ID s items !! k = s !! k.
Proof.
  intros Hitem Hid. revert s.
  induction items as [|item items IH]; intros s; [reflexivity |].
  rewrite removed_cons, IH.
  rewrite !lookup_delete_ne; [reflexivity | |]; apply not_eq_sym; auto.
Qed.

(** ** Create *)

(** What a successful [Create] went through. *)
Lemma Create_inv (namespace ID : string) (num min max : Z)
  (s : gmap string string) (items : list Z) (s' : gmap string string) :
  Service.Create namespace ID num min max s = (Ok items, s') ->
  exists used latest front lastItem,
    Service.used namespace s = (Ok used, s) /\
    Service.latest namespace s = (Ok latest, s) /\
    Service.allocate (Z.to_nat num) used [] min max latest = Ok items /\
    items = front ++ [lastItem] /\
    s' = <[LatestKeyFormat namespace := Itoa lastItem]>
           (written namespace ID s items).
Proof.
  unfold Service.Create, bind at 1.
  destruct (Service.used namespace s) as [[used| | |] s1] eqn:Hused;
    try discriminate.
  assert (s1 = s) as -> by (rewrite used_run in Hused; congruence).
  unfold bind at 1.
  destruct (Service.latest namespace s) as [[latest| | |] s1] eqn:Hlatest;
    try discriminate.
  assert (s1 = s) as -> by (rewrite latest_run in Hlatest; congruence).
  unfold bind at 1, lift.
  destruct (Service.allocate (Z.to_nat num) used [] min max latest)
    as [items'| | |] eqn:Halloc; try discriminate.
  unfold bind, ret.
  destruct items' as [|lastItem front _] using rev_ind.
  - rewrite create_nil. discriminate.
  - rewrite create_run. intros [= <- <-].
    exists used, latest, front, lastItem. auto.
Qed.

(** The batch of a successful [Create] and the storage it leaves. *)
Lemma Create_allocated (namespace ID : string) (num min max : Z)
  (s : gmap string string) (items : list Z) (s' : gmap string string) :
  Service.Create namespace ID num min max s = (Ok items, s') ->
  exists used latest front lastItem,
    Service.used namespace s = (Ok used, s) /\
    Service.latest namespace s = (Ok latest, s) /\
    length items = Z.to_nat num /\
    allocated used min max latest items /\
    items = front ++ [lastItem] /\
    s' = <[LatestKeyFormat namespace := Itoa lastItem]>
           (written namespace ID s items).
Proof.
  intros Hcreate.
  apply Create_inv in Hcreate
    as (used & latest & front & lastItem & Hused & Hlatest & Halloc & Hitems
        & ->).
  apply allocate_Ok in Halloc as (new & Hnew & Hlen & Halloc).
  simpl in Hnew. subst new.
  exists used, latest, front, lastItem. auto 10.
Qed.

(** The records of a batch are in the storage [Create] leaves. *)
Lemma Create_records (namespace ID : string) (lastItem : Z)
  (s : gmap string string) (items : list Z) (v : Z) :
  v ∈ items ->
  <[LatestKeyFormat namespace := Itoa lastItem]>
    (written namespace ID s items) !! ItemKeyFormat namespace (Itoa v)
  = Some (Itoa v) /\
  <[LatestKeyFormat namespace := Itoa lastItem]>
    (written namespace ID s items) !! IDKeyFormat namespace ID (Itoa v)
  = Some (Itoa v).
Proof.
  intros Hv. split.
  - rewrite lookup_insert_ne by (apply not_eq_sym, ItemKey_LatestKey).
    exact (written_ItemKey _ _ _ _ _ Hv).
  - rewrite lookup_insert_ne by (apply not_eq_sym, IDKey_LatestKey).
    exact (written_IDKey _ _ _ _ _ Hv).
Qed.


(** An item with a namespace-level record is one of the used items. *)
Lemma recorded_in_used (namespace : string) (s : gmap string string)
  (used : list Z) (v : Z) :
  Service.used namespace s = (Ok used, s) ->
  s !! ItemKeyFormat namespace (Itoa v) = Some (Itoa v) ->
  v ∈ used.
Proof.
  rewrite used_run. intros [= Hused] Hrec.
  apply stringsToInts_Ok in Hused as [-> Hall].
  assert (Hin : Itoa v ∈ microstorage.values (ItemListKeyFormat namespace) s).
  { apply elem_of_values. eexists. split; [exact Hrec |].
    apply below_ItemList_ItemKey. }
  rewrite Forall_forall in Hall. specialize (Hall _ Hin).
  apply Atoi_Itoa_inv in Hall.
  apply list_elem_of_fmap. exists (Itoa v). split; [now symmetry | exact Hin].
Qed.

(** [Create] keeps the namespace-level records that are there. *)
Lemma Create_keeps_record (namespace ID : string) (num min max : Z)
  (s : gmap string string) (items : list Z) (s' : gmap string string)
  (x : string) :
  Service.Create namespace ID num min max s = (Ok items, s') ->
  s !! ItemKeyFormat namespace x = Some x ->
  s' !! ItemKeyFormat namespace x = Some x.
Proof.
  intros Hcreate Hrec.
  apply Create_inv in Hcreate as (_ & _ & _ & lastItem & _ & _ & _ & _ & ->).
  rewrite lookup_insert_ne by (apply not_eq_sym, ItemKey_LatestKey).
  apply written_persist; [exact Hrec | |].
  - intros y Hy. symmetry. now apply ItemKey_inj in Hy.
  - intros y Hy. now apply ItemKey_IDKey in Hy.
Qed.

(** No integer occurs twice in what successive calls of [Create] return,
    and none of them had a namespace-level record before. *)
Lemma creates_distinct (namespace : string) (requests : list request)
  (s : gmap string string) (batches : list (list Z))
  (s' : gmap string string) :
  creates namespace requests s = Some (batches, s') ->
  NoDup (concat batches) /\
  forall v, v ∈ concat batches ->
            s !! ItemKeyFormat namespace (Itoa v) <> Some (Itoa v).
Proof.
  revert s batches.
  induction requests as [|r requests IH]; intros s batches.
  - intros [= <- <-]. split; [constructor |]. intros v Hv. inversion Hv.
  - cbn [creates].
    destruct (Service.Create namespace (owner r) (count r) (lower r)
                (upper r) s) as [[items| | |] s1] eqn:Hcreate;
      try discriminate.
    destruct (creates namespace requests s1) as [[batches' s2]|] eqn:Hrest;
      [| discriminate].
    intros [= <- <-]. destruct (IH _ _ Hrest) as [Hnodup Hnew].
    destruct (Create_allocated _ _ _ _ _ _ _ _ Hcreate)
      as (used & latest & front & lastItem & Hused & _ & _ & Halloc & _
          & Hs1).
    destruct (allocated_distinct _ _ _ _ _ Halloc) as [Hitems Hfree].
    cbn [concat]. split.
    + apply NoDup_app. split; [exact Hitems | split; [| exact Hnodup]].
      intros v Hv Hin. apply (Hnew v Hin). rewrite Hs1.
      exact (proj1 (Create_records _ _ _ _ _ _ Hv)).
    + intros v [Hv|Hv]%elem_of_app Hs.
      * apply (proj1 (Hfree v Hv)).
        exact (recorded_in_used _ _ _ _ Hused Hs).
      * apply (Hnew v Hv).
        exact (Create_keeps_record _ _ _ _ _ _ _ _ _ Hcreate Hs).
Qed.

Lemma concat_disjoint (batches : list (list Z)) (i j : nat) (bi bj : list Z)
  (v : Z) :
  NoDup (concat batches) ->
  batches !! i = Some bi -> batches !! j = Some bj -> i <> j ->
  v ∈ bi -> v ∉ bj.
Proof.
  revert i j. induction batches as [|b batches IH]; intros i j Hnodup;
    [intros Hi; inversion Hi |].
  simpl in Hnodup. apply NoDup_app in Hnodup as (_ & Hcross & Hrest).
  assert (Hin : forall k bk, batches !! k = Some bk -> v ∈ bk ->
                             v ∈ concat batches).
  { intros k bk Hk Hv. apply list_elem_of_In, in_concat. exists bk.
    split; apply list_elem_of_In; [| exact Hv].
    exact (list_elem_of_lookup_2 _ _ _ Hk). }
  destruct i as [|i], j as [|j]; simpl; intros Hi Hj Hne Hv; try lia.
  - injection Hi as <-. intros Hvj. apply (Hcross v Hv). eauto.
  - injection Hj as <-. intros Hvj. apply (Hcross v Hvj). eauto.
  - apply (IH i j); auto.
Qed.

(** C3: the item sequences that successive successful calls of [Create]
    against one namespace return, with no [Delete] in between, are pairwise
    disjoint: no integer is returned by two different calls. *)
Theorem Create_batches_disjoint (namespace : string)
  (requests : list request) (s : gmap string string)
  (batches : list (list Z)) (s' : gmap string string) :
  creates namespace requests s = Some (batches, s') ->
  forall (i j : nat) (bi bj : list Z) (v : Z),
    batches !! i = Some bi -> batches !! j = Some bj -> i <> j ->
    v ∈ bi -> v ∉ bj.
Proof.
  intros Hcreates i j bi bj v.
  apply concat_disjoint.
  exact (proj1 (creates_distinct _ _ _ _ _ Hcreates)).
Qed.

(** ** Owner records and list keys *)

Lemma append_nonempty (a b : string) : b <> "" -> a +:+ b <> "".
Proof. destruct a; string_norm; [auto | discriminate]. Qed.

Lemma lastChar_app (a b : string) :
  b <> "" -> lastChar (a +:+ b) = lastChar b.
Proof.
  intros Hb. induction a as [|c a IH]; string_norm; [reflexivity |].
  pose proof (append_nonempty a b Hb) as Hab.
  simpl. destruct (a +:+ b); [contradiction | exact IH].
Qed.

Lemma lastChar_uint (d : Decimal.uint) :
  d <> Decimal.Nil ->
  isDigit (lastChar (NilEmpty.string_of_uint d)) = true.
Proof.
  induction d as [|d IH|d IH|d IH|d IH|d IH|d IH|d IH|d IH|d IH|d IH];
    intros Hd; [contradiction | ..];
    (destruct d; [reflexivity | apply IH; discriminate ..]).
Qed.

Lemma Itoa_nonempty (v : Z) : Itoa v <> "".
Proof.
  unfold Itoa. destruct v as [|p|p]; simpl; try discriminate.
  pose proof (Unsigned.to_uint_nonnil p).
  unfold NilZero.string_of_uint. destruct (Pos.to_uint p); discriminate.
Qed.

(** A printed integer ends in a digit. *)
Lemma lastChar_Itoa (v : Z) : isDigit (lastChar (Itoa v)) = true.
Proof.
  assert (Hu : forall p, isDigit (lastChar (NilZero.string_of_uint
                                              (Pos.to_uint p))) = true).
  { intros p. pose proof (Unsigned.to_uint_nonnil p) as Hnil.
    pose proof (lastChar_uint _ Hnil) as Hd.
    unfold NilZero.string_of_uint. destruct (Pos.to_uint p); auto. }
  unfold Itoa. destruct v as [|p|p]; [reflexivity | apply Hu |].
  simpl Z.to_int. simpl NilZero.string_of_int.
  change (String "-" ?s) with ("-" +:+ s).
  rewrite lastChar_app; [apply Hu |].
  exact (Itoa_nonempty (Z.pos p)).
Qed.

(** A record of an owner is no list key of any owner. *)
Lemma IDKey_IDListKey (namespace ID other : string) (v : Z) :
  IDKeyFormat namespace other (Itoa v) <> IDListKeyFormat namespace ID.
Proof.
  unfold IDKeyFormat, IDListKeyFormat. intros H.
  apply (f_equal lastChar) in H.
  pose proof (Itoa_nonempty v) as Hv.
  rewrite !lastChar_app in H;
    repeat first [exact Hv | discriminate | apply append_nonempty].
  pose proof (lastChar_Itoa v) as Hd. rewrite H in Hd. discriminate.
Qed.

(** ** Delete *)

Lemma delete_run (namespace ID : string) (items : list Z)
  (s : gmap string string) :
  Service.delete namespace ID items s =
  let s1 := delete (IDListKeyFormat namespace ID)
              (removed namespace ID s items) in
  match microstorage.values (ItemListKeyFormat namespace) s1 with
  | [] => (Ok tt, delete (LatestKeyFormat namespace)
                    (delete (ItemListKeyFormat namespace) s1))
  | _ => (Ok tt, s1)
  end.
Proof.
  unfold Service.delete, bind at 1. rewrite deleteItems_run.
  unfold bind, attempt, microstorage.Delete, microstorage.List, ret, fail.
  cbv zeta.
  now destruct (microstorage.values (ItemListKeyFormat namespace) _).
Qed.

Lemma Delete_run (namespace ID : string) (s : gmap string string) :
  Service.Delete namespace ID s =
  match stringsToInts (microstorage.values (IDListKeyFormat namespace ID) s)
  with
  | Ok items => Service.delete namespace ID items s
  | Err e => (Err e, s)
  | Panic => (Panic, s)
  | OutOfFuel => (OutOfFuel, s)
  end.
Proof.
  unfold Service.Delete, bind, attempt, microstorage.List, lift, ret.
  destruct (microstorage.values (IDListKeyFormat namespace ID) s) as [|x l];
    [reflexivity |].
  now destruct (stringsToInts (x :: l)).
Qed.

(** Deleting keys leaves an empty listing empty. *)
Lemma values_nil_delete (dir key : string) (s : gmap string string) :
  microstorage.values dir s = [] ->
  microstorage.values dir (delete key s) = [].
Proof.
  rewrite !values_nil. intros Hall k x Hk.
  apply lookup_delete_Some in Hk as [_ Hk]. exact (Hall k x Hk).
Qed.

(** C6: after a successful [Delete], if the listing of the namespace's
    items is empty, the item-list record and the latest-cursor record of the
    namespace are gone; if items remain, the latest-cursor record is what it
    was before the call. *)
Theorem Delete_garbage_collection (namespace ID : string)
  (s s' : gmap string string) :
  Service.Delete namespace ID s = (Ok tt, s') ->
  (microstorage.values (ItemListKeyFormat namespace) s' = [] ->
   s' !! ItemListKeyFormat namespace = None /\
   s' !! LatestKeyFormat namespace = None) /\
  (microstorage.values (ItemListKeyFormat namespace) s' <> [] ->
   s' !! LatestKeyFormat namespace = s !! LatestKeyFormat namespace).
Proof.
  rewrite Delete_run.
  destruct (stringsToInts _) as [items| | |]; try discriminate.
  rewrite delete_run. cbv zeta.
  set (s1 := delete (IDListKeyFormat namespace ID)
               (removed namespace ID s items)).
  destruct (microstorage.values (ItemListKeyFormat namespace) s1)
    as [|x l] eqn:Hlist; intros [= <-].
  - split.
    + intros _. split; [| apply lookup_delete_eq].
      rewrite lookup_delete_ne
        by (apply not_eq_sym, ItemListKey_LatestKey).
      apply lookup_delete_eq.
    + intros Hne. exfalso. apply Hne.
      apply values_nil_delete, values_nil_delete, Hlist.
  - split; [intros Hnil; rewrite Hnil in Hlist; discriminate |].
    intros _. unfold s1.
    rewrite lookup_delete_ne by apply IDListKey_LatestKey.
    apply removed_other; intros y Hy; symmetry in Hy.
    + exact (ItemKey_LatestKey _ _ Hy).
    + exact (IDKey_LatestKey _ _ _ Hy).
Qed.

(** C9: [Delete] for an owner without records in the namespace succeeds,
    and leaves every owner-level record of every owner and every
    namespace-level record as it was. *)
Theorem Delete_without_items (namespace ID : string)
  (s : gmap string string) :
  microstorage.List (IDListKeyFormat namespace ID) s
  = (Err notFoundError, s) ->
  exists s',
    Service.Delete namespace ID s = (Ok tt, s') /\
    (forall (other : string) (v : Z),
        s' !! IDKeyFormat namespace other (Itoa v)
        = s !! IDKeyFormat namespace other (Itoa v)) /\
    (forall v : Z,
        s' !! ItemKeyFormat namespace (Itoa v)
        = s !! ItemKeyFormat namespace (Itoa v)).
Proof.
  unfold microstorage.List at 1. intros Hnone.
  assert (Hnil : microstorage.values (IDListKeyFormat namespace ID) s = [])
    by (destruct (microstorage.values _ s); [reflexivity | discriminate]).
  rewrite Delete_run, Hnil. cbn [stringsToInts].
  rewrite delete_run. cbv zeta. cbn [removed foldl].
  set (s1 := delete (IDListKeyFormat namespace ID) s).
  assert (Hid : forall other v,
             s1 !! IDKeyFormat namespace other (Itoa v)
             = s !! IDKeyFormat namespace other (Itoa v)).
  { intros other v. unfold s1.
    apply lookup_delete_ne, not_eq_sym, IDKey_IDListKey. }
  assert (Hitem : forall v,
             s1 !! ItemKeyFormat namespace (Itoa v)
             = s !! ItemKeyFormat namespace (Itoa v)).
  { intros v. unfold s1.
    apply lookup_delete_ne, not_eq_sym, ItemKey_IDListKey. }
  destruct (microstorage.values (ItemListKeyFormat namespace) s1);
    eexists; (split; [reflexivity |]); split; try assumption.
  - intros other v. rewrite <- Hid.
    rewrite lookup_delete_ne by (apply not_eq_sym, IDKey_LatestKey).
    apply lookup_delete_ne, not_eq_sym, IDKey_ItemListKey.
  - intros v. rewrite <- Hitem.
    rewrite lookup_delete_ne by (apply not_eq_sym, ItemKey_LatestKey).
    apply lookup_delete_ne, not_eq_sym, ItemKey_ItemListKey.
Qed.

(** C10: for [num <= 0], once the used items and the cursor are read, the
    allocation loop of [Create] yields the empty sequence and [create]
    indexes it at [len(items)-1]: the call ends in a panic, with nothing
    written, instead of an empty batch or an error. *)
Theorem Create_nothing_panics (namespace ID : string) (num min max : Z)
  (s : gmap string string) (used : list Z) (latest : Z) :
  num <= 0 ->
  Service.used namespace s = (Ok used, s) ->
  Service.latest namespace s = (Ok latest, s) ->
  Service.allocate (Z.to_nat num) used [] min max latest = Ok [] /\
  index [] (Z.of_nat (length (@nil Z)) - 1) = Panic /\
  Service.Create namespace ID num min max s = (Panic, s).
Proof.
  intros Hnum Hused Hlatest.
  assert (Hn : Z.to_nat num = 0%nat) by lia.
  split; [now rewrite Hn | split; [reflexivity |]].
  unfold Service.Create, bind at 1. rewrite Hused.
  unfold bind at 1. rewrite Hlatest.
  unfold bind at 1, lift. rewrite Hn. cbn [Service.allocate].
  unfold bind. now rewrite create_nil.
Qed.

(** C4 (the code at the failing input): on a fresh namespace, a request
    for three items out of the range of the two largest [int]s succeeds;
    the third item is the smallest [int], and the batch is written. *)
Theorem Create_past_capacity_at_max_int :
  (Service.Create "ns" "A" 3 (maxInt - 1) maxInt ∅).1
  = Ok [maxInt - 1; maxInt; minInt] /\
  (Service.Create "ns" "A" 3 (maxInt - 1) maxInt ∅).2
    !! LatestKeyFormat "ns" = Some (Itoa minInt).
Proof. split; reflexivity. Qed.

(** ** The cursor *)

(** What the loop returns, short of the sentinel, is the first free integer
    from where it started. *)
Lemma iterate_found (used : list Z) (max : Z) (fuel : nat) (i r : Z) :
  minInt <= i -> max < maxInt -> iterate used max fuel i = Some r ->
  r <> latestItemException -> firstFree used i max r.
Proof.
  intros Hi Hmax. revert i Hi.
  induction fuel as [|fuel IH]; intros i Hi; simpl; [discriminate |].
  destruct (Z.leb_spec i max) as [Hle|Hgt]; [| congruence].
  destruct (containsInt used i) eqn:Hc.
  - rewrite wrap_id by (unfold is_int; lia). intros Hit Hr.
    destruct (IH (i + 1) ltac:(lia) Hit Hr) as (Hrange & Hfree & Hbelow).
    split; [lia | split; [exact Hfree |]]. intros j Hj.
    destruct (Z.eq_dec j i) as [->|Hne]; [now apply containsInt_elem |].
    apply Hbelow. lia.
  - intros [= <-] _. split; [lia | split].
    + now apply containsInt_not_elem.
    + intros j Hj. lia.
Qed.

Lemma nextItem_whole_range_found (used : list Z) (min max latest r : Z) :
  max < maxInt ->
  latest = latestItemException \/ noneFree used (latest + 1) max ->
  nextItem used min max latest = Ok r -> firstFree used min max r.
Proof.
  intros Hmax Hcase H.
  pose proof (nextItem_Ok_valid _ _ _ _ _ H) as Hvalid.
  pose proof (nextItem_free _ _ _ _ _ H) as [_ Hsent].
  rewrite (nextItem_valid _ _ _ _ Hvalid) in H. cbv zeta in H.
  destruct Hvalid as (Hmin & _ & _ & Hbounds).
  assert (Hwhole :
    match iterator (sortInts used) min max with
    | None => OutOfFuel
    | Some n => if negb (n =? latestItemException) then Ok n
                else Err capacityReachedError
    end = Ok r -> firstFree used min max r).
  { destruct (iterator (sortInts used) min max) as [n|] eqn:Hit;
      [| discriminate].
    destruct (negb (n =? latestItemException)); [| discriminate].
    intros [= ->]. apply firstFree_sortInts.
    assert (Hlo : minInt <= min) by (unfold minInt; lia).
    exact (iterate_found _ _ _ _ _ Hlo Hmax Hit Hsent). }
  destruct (Z.eqb_spec latest latestItemException) as [|Hne]; simpl in H;
    [now apply Hwhole |].
  destruct Hcase as [?|Hnone]; [contradiction |].
  destruct Hbounds as [?|Hbounds]; [contradiction |].
  rewrite wrap_id in H by (unfold is_int, minInt, maxInt in *; lia).
  destruct (iterator (sortInts used) (latest + 1) max) as [n|] eqn:Hit;
    [| discriminate].
  apply iterate_none_free in Hit;
    [| unfold minInt; lia | assumption | now apply noneFree_sortInts].
  subst n. now apply Hwhole.
Qed.

(** The cursor a successful [Create] leaves is the last item of its
    batch. *)
Lemma Create_latest (namespace ID : string) (num min max : Z)
  (s : gmap string string) (front : list Z) (lastItem : Z)
  (s' : gmap string string) (latest : Z) :
  Service.Create namespace ID num min max s = (Ok (front ++ [lastItem]), s') ->
  Service.latest namespace s' = (Ok latest, s') ->
  latest = lastItem /\ lastItem <> latestItemException.
Proof.
  intros Hcreate Hlatest.
  destruct (Create_allocated _ _ _ _ _ _ _ _ Hcreate)
    as (used & l0 & front' & last' & _ & _ & _ & Halloc & Heq & Hs').
  apply app_inj_tail in Heq as [_ <-].
  rewrite latest_run, Hs', lookup_insert_eq in Hlatest.
  cbn [default] in Hlatest.
  injection Hlatest as Hlatest. apply Atoi_Itoa_inv in Hlatest.
  split; [exact Hlatest |].
  apply (allocated_distinct _ _ _ _ _ Halloc).
  apply elem_of_app. right. apply list_elem_of_here.
Qed.

(** C7 (counterexample): B holds 3, the cursor stands on 3 and the range is
    2..4. [Create] for C returns [4], and [Create] for D right after it
    returns [2] while 3 and 4 are used: 2 is not the smallest free integer
    of 5..4, where no integer is to be had; the scan went on from [min]. *)
Lemma cursor_wraps_to_min :
  (let* _ := Service.Create "ns" "A" 1 2 4 in
   let* _ := Service.Create "ns" "B" 1 2 4 in
   Service.Delete "ns" "A") ∅ = (Ok tt, wrapped_store) /\
  ((let* first := Service.Create "ns" "C" 1 2 4 in
    let* used := Service.used "ns" in
    let* second := Service.Create "ns" "D" 1 2 4 in
    ret (first, used, second)) wrapped_store).1 = Ok ([4], [3; 4], [2]) /\
  ~ firstFree [3; 4] (4 + 1) 4 2.
Proof.
  split; [reflexivity |].
  split; [reflexivity |].
  unfold firstFree. lia.
Qed.

(** C7 (amended): of two successive successful calls of [Create] on one
    namespace with the same bounds, the second starts with the smallest
    free integer above the last item of the first batch whenever there is
    one; when there is none (and [max] is not the largest [int]) it starts
    with the smallest free integer of [min..max]. On a fresh namespace two
    calls for one item of 2..9 return [2] and then [3]. *)
Theorem Create_continues_after_cursor :
  (forall (namespace ID1 ID2 : string) (n1 n2 min max : Z)
          (s0 s1 s2 : gmap string string) (front items2 : list Z)
          (lastItem : Z),
      is_int max ->
      Service.Create namespace ID1 n1 min max s0
      = (Ok (front ++ [lastItem]), s1) ->
      Service.Create namespace ID2 n2 min max s1 = (Ok items2, s2) ->
      exists used first rest,
        Service.used namespace s1 = (Ok used, s1) /\
        items2 = first :: rest /\
        (forall v, firstFree used (lastItem + 1) max v -> first = v) /\
        (max < maxInt -> noneFree used (lastItem + 1) max ->
         firstFree used min max first)) /\
  ((let* a := Service.Create "ns" "A" 1 2 9 in
    let* b := Service.Create "ns" "A" 1 2 9 in
    ret (a, b)) ∅).1 = Ok ([2], [3]).
Proof.
  split; [| reflexivity].
  intros namespace ID1 ID2 n1 n2 min max s0 s1 s2 front items2 lastItem
    Hmax Hfirst Hsecond.
  apply Create_inv in Hsecond
    as (used & latest & front2 & last2 & Hused & Hlatest & Halloc & Hitems2
        & _).
  destruct (Create_latest _ _ _ _ _ _ _ _ _ _ Hfirst Hlatest)
    as [-> Hsent].
  apply allocate_Ok in Halloc as (new & Hnew & _ & Halloc).
  simpl in Hnew. subst new.
  destruct items2 as [|first rest];
    [now apply app_cons_not_nil in Hitems2 |].
  destruct Halloc as [Hnext _].
  exists used, first, rest. split; [exact Hused | split; [reflexivity |]].
  split.
  - intros v Hv.
    exact (nextItem_above_latest used min max lastItem v first Hmax Hsent
             Hv Hnext).
  - intros Hlt Hnone.
    apply (nextItem_whole_range_found used min max lastItem first);
      [assumption | now right | assumption].
Qed.

(** ** The items of an owner *)

Lemma Search_run (namespace ID : string) (s : gmap string string) :
  Service.Search namespace ID s =
  match microstorage.values (IDListKeyFormat namespace ID) s with
  | [] => (Err itemsNotFoundError, s)
  | v =>
      match stringsToInts v with
      | Ok items => (Ok (sortInts items), s)
      | Err e => (Err e, s)
      | Panic => (Panic, s)
      | OutOfFuel => (OutOfFuel, s)
      end
  end.
Proof.
  unfold Service.Search, bind, attempt, microstorage.List, lift, ret, fail.
  destruct (microstorage.values (IDListKeyFormat namespace ID) s) as [|x l];
    [reflexivity |].
  now destruct (stringsToInts (x :: l)).
Qed.

Lemma iterate_is_int (used : list Z) (max : Z) (fuel : nat) (i r : Z) :
  is_int i -> iterate used max fuel i = Some r -> is_int r.
Proof.
  revert i. induction fuel as [|fuel IH]; intros i Hi; simpl;
    [discriminate |].
  destruct (i <=? max).
  - destruct (containsInt used i); [| now intros [= <-]].
    apply IH, wrap_is_int.
  - intros [= <-]. unfold is_int, latestItemException, minInt, maxInt. lia.
Qed.

(** The allocator hands out values of [int]. *)
Lemma nextItem_is_int (used : list Z) (min max latest v : Z) :
  is_int max -> nextItem used min max latest = Ok v -> is_int v.
Proof.
  intros Hmax H.
  pose proof (nextItem_Ok_valid _ _ _ _ _ H) as Hvalid.
  rewrite (nextItem_valid _ _ _ _ Hvalid) in H. cbv zeta in H.
  destruct Hvalid as (Hmin & _ & Hlt & _).
  assert (Hint : is_int min) by (unfold is_int, minInt in *; lia).
  assert (Hwhole :
    match iterator (sortInts used) min max with
    | None => OutOfFuel
    | Some n => if negb (n =? latestItemException) then Ok n
                else Err capacityReachedError
    end = Ok v -> is_int v).
  { destruct (iterator (sortInts used) min max) as [n|] eqn:Hit;
      [| discriminate].
    apply iterate_is_int in Hit; [| exact Hint].
    destruct (negb (n =? latestItemException)); congruence. }
  destruct (negb (latest =? latestItemException)); [| now apply Hwhole].
  destruct (iterator (sortInts used) (wrap (latest + 1)) max) as [n|] eqn:Hit;
    [| discriminate].
  apply iterate_is_int in Hit; [| apply wrap_is_int].
  destruct (negb (n =? latestItemException)); [congruence | now apply Hwhole].
Qed.

Lemma allocated_is_int (used : list Z) (min max latest : Z) (items : list Z) :
  is_int max -> allocated used min max latest items -> Forall is_int items.
Proof.
  intros Hmax. revert used.
  induction items as [|item items IH]; intros used; [constructor |].
  intros [Hnext Hrest]. constructor.
  - exact (nextItem_is_int _ _ _ _ _ Hmax Hnext).
  - exact (IH _ Hrest).
Qed.

(** After [Create] for an owner that had no records, the listing of the
    owner holds the items of the batch, printed. *)
Lemma Create_owner_values (namespace ID : string) (num min max : Z)
  (s : gmap string string) (items : list Z) (s' : gmap string string) :
  Service.Create namespace ID num min max s = (Ok items, s') ->
  microstorage.values (IDListKeyFormat namespace ID) s = [] ->
  microstorage.values (IDListKeyFormat namespace ID) s' ≡ₚ Itoa <$> items.
Proof.
  intros Hcreate Hnone.
  destruct (Create_allocated _ _ _ _ _ _ _ _ Hcreate)
    as (used & latest & front & lastItem & _ & _ & _ & Halloc & _ & Hs').
  destruct (allocated_distinct _ _ _ _ _ Halloc) as [Hnodup _].
  assert (Hentry : forall k x,
             s' !! k = Some x ->
             microstorage.below (IDListKeyFormat namespace ID) k = true ->
             k = IDKeyFormat namespace ID x /\ x ∈ Itoa <$> items).
  { intros k x Hk Hbelow. rewrite Hs' in Hk.
    rewrite lookup_insert_ne in Hk.
    2:{ intros <-. rewrite below_IDList_LatestKey in Hbelow. discriminate. }
    apply written_lookup_inv in Hk as [Hk|(item & Hitem & -> & Hkey)].
    - rewrite values_nil in Hnone. rewrite (Hnone k x Hk) in Hbelow.
      discriminate.
    - destruct Hkey as [->| ->].
      + rewrite below_IDList_ItemKey in Hbelow. discriminate.
      + split; [reflexivity |]. apply list_elem_of_fmap. eauto. }
  apply NoDup_Permutation.
  - unfold microstorage.values. apply NoDup_fmap_2_strong;
      [| apply NoDup_map_to_list].
    intros [k1 x1] [k2 x2] H1 H2 Heq. simpl in Heq. subst x2.
    apply elem_of_map_to_list, map_lookup_filter_Some in H1 as [H1 Hb1].
    apply elem_of_map_to_list, map_lookup_filter_Some in H2 as [H2 Hb2].
    destruct (Hentry _ _ H1 Hb1) as [-> _].
    destruct (Hentry _ _ H2 Hb2) as [-> _]. reflexivity.
  - apply NoDup_fmap_2; [| exact Hnodup]. intros a b. apply Itoa_inj.
  - intros x. split.
    + intros (k & Hk & Hbelow)%elem_of_values.
      exact (proj2 (Hentry _ _ Hk Hbelow)).
    + intros (item & -> & Hitem)%list_elem_of_fmap.
      apply elem_of_values. exists (IDKeyFormat namespace ID (Itoa item)).
      split; [| apply below_IDList_IDKey]. rewrite Hs'.
      exact (proj2 (Create_records _ _ _ _ _ _ Hitem)).
Qed.

(** After a successful [Delete] on well-formed records, the owner has no
    listing left. *)
Lemma Delete_owner_values (namespace ID : string) (s s' : gmap string string) :
  ownerRecords namespace ID s ->
  Service.Delete namespace ID s = (Ok tt, s') ->
  microstorage.values (IDListKeyFormat namespace ID) s' = [].
Proof.
  intros Hwf. rewrite Delete_run.
  destruct (stringsToInts (microstorage.values (IDListKeyFormat namespace ID) s))
    as [items| | |] eqn:Hitems; try discriminate.
  apply stringsToInts_Ok in Hitems as [Hitems Hparse].
  rewrite delete_run. cbv zeta.
  set (s1 := delete (IDListKeyFormat namespace ID)
               (removed namespace ID s items)).
  assert (Hgone : microstorage.values (IDListKeyFormat namespace ID) s1 = []).
  { apply values_nil. intros k x Hk.
    destruct (microstorage.below (IDListKeyFormat namespace ID) k) eqn:Hbelow;
      [exfalso | reflexivity].
    apply lookup_delete_Some in Hk as [_ Hk]. pose proof Hk as Hold.
    apply removed_lookup_Some in Hold.
    destruct (Hwf k x Hold Hbelow) as [-> [v ->]].
    assert (Hin : Itoa v ∈ microstorage.values (IDListKeyFormat namespace ID) s)
      by (apply elem_of_values; eauto).
    rewrite Forall_forall in Hparse. specialize (Hparse _ Hin).
    apply Atoi_Itoa_inv in Hparse.
    assert (Hv : v ∈ items).
    { rewrite Hitems. apply list_elem_of_fmap. exists (Itoa v).
      split; [now symmetry | exact Hin]. }
    rewrite (removed_IDKey namespace ID items s v Hv) in Hk. discriminate. }
  destruct (microstorage.values (ItemListKeyFormat namespace) s1);
    intros [= <-]; [| exact Hgone].
  apply values_nil_delete, values_nil_delete, Hgone.
Qed.

(** C8 (counterexample): the owner of [Test_Service_Search] creates two
    items twice; after the second [Create], which returned 4 and 5,
    [Search] returns the four items 2, 3, 4 and 5 the owner holds, not only
    the two values just allocated. *)
Lemma Search_after_second_Create :
  ((let* a := Service.Create "test-namespace" "test-id" 2 2 9 in
    let* b := Service.Create "test-namespace" "test-id" 2 2 9 in
    let* found := Service.Search "test-namespace" "test-id" in
    ret (a, b, found)) ∅).1 = Ok ([2; 3], [4; 5], [2; 3; 4; 5]) /\
  ~ ([2; 3; 4; 5] ≡ₚ [4; 5]).
Proof.
  split; [reflexivity |].
  intros Hperm. apply Permutation_length in Hperm. discriminate.
Qed.

(** C8 (amended): [Search] fails with [itemsNotFoundError] when the owner
    has no records in the namespace, and otherwise returns the items of the
    owner's records in ascending order; after a [Create] for an owner that
    had no records it returns exactly the items of the batch, in ascending
    order; after a [Delete] of an owner whose records are as [create] wrote
    them it fails with [itemsNotFoundError]. *)
Theorem Search_owner_items :
  (forall (namespace ID : string) (s : gmap string string),
      let v := microstorage.values (IDListKeyFormat namespace ID) s in
      (v = [] ->
       Service.Search namespace ID s = (Err itemsNotFoundError, s)) /\
      (v <> [] -> Forall (fun x => exists z, Atoi x = Ok z) v ->
       exists items,
         Service.Search namespace ID s = (Ok items, s) /\
         Sorted Z.le items /\ items ≡ₚ atoi <$> v)) /\
  (forall (namespace ID : string) (num min max : Z)
          (s s' : gmap string string) (items : list Z),
      is_int max ->
      microstorage.values (IDListKeyFormat namespace ID) s = [] ->
      Service.Create namespace ID num min max s = (Ok items, s') ->
      exists found,
        Service.Search namespace ID s' = (Ok found, s') /\
        Sorted Z.le found /\ found ≡ₚ items) /\
  (forall (namespace ID : string) (s s' : gmap string string),
      ownerRecords namespace ID s ->
      Service.Delete namespace ID s = (Ok tt, s') ->
      Service.Search namespace ID s' = (Err itemsNotFoundError, s')).
Proof.
  assert (Hsome : forall namespace ID s,
    microstorage.values (IDListKeyFormat namespace ID) s <> [] ->
    Forall (fun x => exists z, Atoi x = Ok z)
           (microstorage.values (IDListKeyFormat namespace ID) s) ->
    exists items,
      Service.Search namespace ID s = (Ok items, s) /\
      Sorted Z.le items /\
      items ≡ₚ atoi <$> microstorage.values (IDListKeyFormat namespace ID) s).
  { intros namespace ID s Hne Hparse. rewrite Search_run.
    destruct (microstorage.values (IDListKeyFormat namespace ID) s) as [|x l];
      [contradiction |].
    rewrite (stringsToInts_all _ Hparse).
    eexists. split; [reflexivity |].
    split; [apply sortInts_sorted | apply sortInts_perm]. }
  split; [| split].
  - intros namespace ID s v. split; [| apply Hsome].
    intros Hnil. rewrite Search_run. unfold v in Hnil. now rewrite Hnil.
  - intros namespace ID num min max s s' items Hmax Hnone Hcreate.
    pose proof (Create_owner_values _ _ _ _ _ _ _ _ Hcreate Hnone) as Hperm.
    destruct (Create_allocated _ _ _ _ _ _ _ _ Hcreate)
      as (used & latest & front & lastItem & _ & _ & _ & Halloc & Hitems
          & _).
    pose proof (allocated_is_int _ _ _ _ _ Hmax Halloc) as Hint.
    assert (Hround : atoi <$> (Itoa <$> items) = items).
    { clear -Hint. induction Hint as [|x l Hx _ IH]; [reflexivity |].
      cbn [fmap list_fmap]. f_equal; [| exact IH].
      unfold atoi. now rewrite (Atoi_Itoa _ Hx). }
    destruct (Hsome namespace ID s') as (found & Hsearch & Hsorted & Hfound).
    + intros Hnil. rewrite Hnil in Hperm. symmetry in Hperm.
      apply Permutation_nil_r in Hperm. subst items.
      now destruct front.
    + apply Forall_forall. intros x Hx. rewrite Hperm in Hx.
      apply list_elem_of_fmap in Hx as (item & -> & Hitem).
      rewrite Forall_forall in Hint. exists item.
      exact (Atoi_Itoa _ (Hint _ Hitem)).
    + exists found. split; [exact Hsearch | split; [exact Hsorted |]].
      now rewrite Hfound, Hperm, Hround.
  - intros namespace ID s s' Hwf Hdelete.
    rewrite Search_run.
    now rewrite (Delete_owner_values _ _ _ _ Hwf Hdelete).
Qed.

(** ** The theorems at concrete calls *)


(** [Create_batches_disjoint] at the first two calls of
    [Test_Service_Create_NumOne]. *)
Lemma Create_batches_disjoint_witness :
  creates "test-namespace"
    [ {| owner := "test-id"; count := 1; lower := 2; upper := 9 |};
      {| owner := "test-id"; count := 1; lower := 2; upper := 9 |} ] ∅
  = Some ([[2]; [3]], two_items_store) /\
  2 ∉ [3].
Proof.
  assert (H : creates "test-namespace"
                [ {| owner := "test-id"; count := 1; lower := 2; upper := 9 |};
                  {| owner := "test-id"; count := 1; lower := 2; upper := 9 |} ]
                ∅
              = Some ([[2]; [3]], two_items_store))
    by reflexivity.
  split; [exact H |].
  apply (Create_batches_disjoint _ _ _ _ _ H 0%nat 1%nat [2] [3] 2);
    [reflexivity | reflexivity | lia | apply list_elem_of_here].
Defined.

(** [Delete_garbage_collection] where the owner held every item of the
    namespace. *)
Lemma Delete_garbage_collection_witness :
  Service.Delete "test-namespace" "test-id" two_items_store = (Ok tt, ∅) /\
  (microstorage.values (ItemListKeyFormat "test-namespace") ∅ = [] ->
   (∅ : gmap string string) !! ItemListKeyFormat "test-namespace" = None /\
   (∅ : gmap string string) !! LatestKeyFormat "test-namespace" = None) /\
  (microstorage.values (ItemListKeyFormat "test-namespace") ∅ <> [] ->
   (∅ : gmap string string) !! LatestKeyFormat "test-namespace"
   = two_items_store !! LatestKeyFormat "test-namespace").
Proof.
  assert (H : Service.Delete "test-namespace" "test-id" two_items_store
              = (Ok tt, ∅)) by reflexivity.
  split; [exact H |].
  exact (Delete_garbage_collection "test-namespace" "test-id"
           two_items_store ∅ H).
Defined.

(** [Delete_garbage_collection] where another owner still holds an item:
    the cursor stays on 3. *)
Lemma Delete_keeps_cursor_example :
  (let* _ := Service.Create "ns" "A" 1 2 4 in
   let* _ := Service.Create "ns" "B" 1 2 4 in
   let* _ := Service.Delete "ns" "A" in
   Service.latest "ns") ∅ = (Ok 3, wrapped_store).
Proof. reflexivity. Qed.

(** [Delete_without_items] for owner A where only B holds an item. *)
Lemma Delete_without_items_witness :
  microstorage.List (IDListKeyFormat "ns" "A") wrapped_store
  = (Err notFoundError, wrapped_store) /\
  exists s',
    Service.Delete "ns" "A" wrapped_store = (Ok tt, s') /\
    (forall (other : string) (v : Z),
        s' !! IDKeyFormat "ns" other (Itoa v)
        = wrapped_store !! IDKeyFormat "ns" other (Itoa v)) /\
    (forall v : Z,
        s' !! ItemKeyFormat "ns" (Itoa v)
        = wrapped_store !! ItemKeyFormat "ns" (Itoa v)).
Proof.
  assert (H : microstorage.List (IDListKeyFormat "ns" "A") wrapped_store
              = (Err notFoundError, wrapped_store))
    by reflexivity.
  split; [exact H |].
  exact (Delete_without_items "ns" "A" wrapped_store H).
Defined.

(** [Create_nothing_panics] for no item at all on a fresh namespace. *)
Lemma Create_nothing_panics_witness :
  0 <= 0 /\
  Service.used "test-namespace" ∅ = (Ok [], ∅) /\
  Service.latest "test-namespace" ∅ = (Ok (-1), ∅) /\
  Service.allocate (Z.to_nat 0) [] [] 2 9 (-1) = Ok [] /\
  index [] (Z.of_nat (length (@nil Z)) - 1) = Panic /\
  Service.Create "test-namespace" "test-id" 0 2 9 ∅ = (Panic, ∅).
Proof.
  assert (Hnum : 0 <= 0) by lia.
  assert (Hused : Service.used "test-namespace" ∅ = (Ok [], ∅))
    by reflexivity.
  assert (Hlatest : Service.latest "test-namespace" ∅ = (Ok (-1), ∅))
    by reflexivity.
  split; [exact Hnum | split; [exact Hused | split; [exact Hlatest |]]].
  exact (Create_nothing_panics "test-namespace" "test-id" 0 2 9 ∅ [] (-1)
           Hnum Hused Hlatest).
Defined.

(** [Create_continues_after_cursor] at the two calls of
    [Test_Service_Create_NumOne]. *)
Lemma Create_continues_after_cursor_witness :
  is_int 9 /\
  Service.Create "test-namespace" "test-id" 1 2 9 ∅
  = (Ok ([] ++ [2]), one_item_store) /\
  Service.Create "test-namespace" "test-id" 1 2 9 one_item_store
  = (Ok [3], two_items_store) /\
  exists used first rest,
    Service.used "test-namespace" one_item_store = (Ok used, one_item_store) /\
    [3] = first :: rest /\
    (forall v, firstFree used (2 + 1) 9 v -> first = v) /\
    (9 < maxInt -> noneFree used (2 + 1) 9 -> firstFree used 2 9 first).
Proof.
  assert (Hmax : is_int 9) by (unfold is_int, minInt, maxInt; lia).
  assert (H1 : Service.Create "test-namespace" "test-id" 1 2 9 ∅
               = (Ok ([] ++ [2]), one_item_store))
    by reflexivity.
  assert (H2 : Service.Create "test-namespace" "test-id" 1 2 9 one_item_store
               = (Ok [3], two_items_store))
    by reflexivity.
  split; [exact Hmax | split; [exact H1 | split; [exact H2 |]]].
  exact (proj1 Create_continues_after_cursor "test-namespace" "test-id"
           "test-id" 1 1 2 9 ∅ one_item_store two_items_store [] [3] 2
           Hmax H1 H2).
Defined.

Lemma ownerRecords_two_items :
  ownerRecords "test-namespace" "test-id" two_items_store.
Proof.
  intros k x Hk Hbelow. unfold two_items_store in Hk.
  repeat (apply lookup_insert_Some in Hk as [[<- <-]|[_ Hk]];
          [first [ vm_compute in Hbelow; discriminate Hbelow
                 | split; [reflexivity |];
                   first [exists 2; reflexivity | exists 3; reflexivity] ]
          |]).
  rewrite lookup_empty in Hk. discriminate.
Qed.

(** [Search_owner_items] along [Test_Service_Search]: after the first
    [Create], and after the [Delete] that follows it. *)
Lemma Search_owner_items_witness :
  is_int 9 /\
  microstorage.values (IDListKeyFormat "test-namespace" "test-id") ∅ = [] /\
  Service.Create "test-namespace" "test-id" 2 2 9 ∅
  = (Ok [2; 3], two_items_store) /\
  (exists found,
      Service.Search "test-namespace" "test-id" two_items_store
      = (Ok found, two_items_store) /\
      Sorted Z.le found /\ found ≡ₚ [2; 3]) /\
  ownerRecords "test-namespace" "test-id" two_items_store /\
  Service.Delete "test-namespace" "test-id" two_items_store = (Ok tt, ∅) /\
  Service.Search "test-namespace" "test-id" ∅ = (Err itemsNotFoundError, ∅).
Proof.
  assert (Hmax : is_int 9) by (unfold is_int, minInt, maxInt; lia).
  assert (Hnone : microstorage.values
                    (IDListKeyFormat "test-namespace" "test-id") ∅ = [])
    by reflexivity.
  assert (Hcreate : Service.Create "test-namespace" "test-id" 2 2 9 ∅
                    = (Ok [2; 3], two_items_store))
    by reflexivity.
  assert (Hdelete : Service.Delete "test-namespace" "test-id" two_items_store
                    = (Ok tt, ∅)) by reflexivity.
  split; [exact Hmax | split; [exact Hnone | split; [exact Hcreate |]]].
  split.
  - exact (proj1 (proj2 Search_owner_items) "test-namespace" "test-id" 2 2 9
             ∅ two_items_store [2; 3] Hmax Hnone Hcreate).
  - split; [exact ownerRecords_two_items | split; [exact Hdelete |]].
    exact (proj2 (proj2 Search_owner_items) "test-namespace" "test-id"
             two_items_store ∅ ownerRecords_two_items Hdelete).
Defined.

(** ** Failed allocations *)

Lemma nextItem_in_range (used : list Z) (min max latest v : Z) :
  max < maxInt -> nextItem used min max latest = Ok v -> min <= v <= max.
Proof.
  intros Hmax H.
  pose proof (nextItem_Ok_valid _ _ _ _ _ H) as Hvalid.
  pose proof (nextItem_free _ _ _ _ _ H) as [_ Hsent].
  rewrite (nextItem_valid _ _ _ _ Hvalid) in H. cbv zeta in H.
  destruct Hvalid as (Hmin & _ & _ & Hbounds).
  assert (Hfrom : forall lo, min <= lo ->
             iterator (sortInts used) lo max = Some v -> min <= v <= max).
  { intros lo Hlo Hit.
    assert (Hint : minInt <= lo) by (unfold minInt; lia).
    destruct (iterate_found _ _ _ _ _ Hint Hmax Hit Hsent) as [Hrange _].
    lia. }
  assert (Hwhole :
    match iterator (sortInts used) min max with
    | None => OutOfFuel
    | Some n => if negb (n =? latestItemException) then Ok n
                else Err capacityReachedError
    end = Ok v -> min <= v <= max).
  { destruct (iterator (sortInts used) min max) as [n|] eqn:Hit;
      [| discriminate].
    destruct (negb (n =? latestItemException)); [| discriminate].
    intros [= ->]. apply (Hfrom min); [lia | exact Hit]. }
  destruct (Z.eqb_spec latest latestItemException) as [|Hne]; simpl in H;
    [now apply Hwhole |].
  destruct Hbounds as [?|Hbounds]; [contradiction |].
  rewrite wrap_id in H by (unfold is_int, minInt, maxInt in *; lia).
  destruct (iterator (sortInts used) (latest + 1) max) as [n|] eqn:Hit;
    [| discriminate].
  destruct (negb (n =? latestItemException)); [| now apply Hwhole].
  injection H as ->. apply (Hfrom (latest + 1)); [lia | exact Hit].
Qed.

Lemma allocated_in_range (used : list Z) (min max latest : Z)
  (items : list Z) :
  max < maxInt -> allocated used min max latest items ->
  forall v, v ∈ items -> min <= v <= max.
Proof.
  intros Hmax. revert used.
  induction items as [|item items IH]; intros used Halloc v Hv;
    [inversion Hv |].
  destruct Halloc as [Hnext Hrest].
  apply elem_of_cons in Hv as [->|Hv].
  - exact (nextItem_in_range _ _ _ _ _ Hmax Hnext).
  - exact (IH _ Hrest v Hv).
Qed.

(** For valid arguments a batch ends in its items or in the exhaustion. *)
Lemma allocate_valid (n : nat) (used items : list Z) (min max latest : Z) :
  max < maxInt -> validArgs min max latest ->
  (exists r, Service.allocate n used items min max latest = Ok r) \/
  Service.allocate n used items min max latest = Err capacityReachedError.
Proof.
  intros Hmax Hvalid. revert used items.
  induction n as [|n IH]; intros used items; cbn [Service.allocate];
    [eauto |].
  destruct (nextItem_returns used min max latest Hmax Hvalid)
    as [[v ->]| ->]; [apply IH | now right].
Qed.


(** X3: when [max] is not the largest [int], a [Create] that asks for more
    items than are free in [min..max] fails with [capacityReachedError]
    and writes nothing. *)
Theorem Create_beyond_capacity (namespace ID : string) (num min max : Z)
  (s : gmap string string) (used : list Z) (latest : Z) :
  max < maxInt -> validArgs min max latest ->
  Service.used namespace s = (Ok used, s) ->
  Service.latest namespace s = (Ok latest, s) ->
  Z.of_nat (length (freeItems used min max)) < num ->
  Service.Create namespace ID num min max s = (Err capacityReachedError, s).
Proof.
  intros Hmax Hvalid Hused Hlatest Hnum.
  unfold Service.Create, bind at 1. rewrite Hused.
  unfold bind at 1. rewrite Hlatest. unfold bind at 1, lift.
  destruct (allocate_valid (Z.to_nat num) used [] min max latest Hmax Hvalid)
    as [[items Halloc]| ->]; [exfalso | reflexivity].
  apply allocate_Ok in Halloc as (new & Hnew & Hlen & Halloc).
  destruct (allocated_distinct _ _ _ _ _ Halloc) as [Hnodup Hfree].
  pose proof (allocated_in_range _ _ _ _ _ Hmax Halloc) as Hrange.
  assert (Hsub : new ⊆+ freeItems used min max).
  { apply NoDup_submseteq; [exact Hnodup |]. intros v Hv.
    apply list_elem_of_filter. split; [exact (proj1 (Hfree v Hv)) |].
    apply elem_of_seqZ. specialize (Hrange v Hv). lia. }
  apply submseteq_length in Hsub. lia.
Qed.

(** [nextItem_spec] at a row of [Test_nextItem]: above the cursor 5, the
    used 6 is skipped and 7 is the item. *)
Lemma nextItem_spec_witness :
  9 < maxInt /\ validArgs 2 9 5 /\ 5 <> latestItemException /\
  firstFree [3; 4; 6] (5 + 1) 9 7 /\
  nextItem [3; 4; 6] 2 9 5 = Ok 7.
Proof.
  assert (Hmax : 9 < maxInt) by reflexivity.
  assert (Hvalid : validArgs 2 9 5)
    by (unfold validArgs, latestItemException; lia).
  assert (Hlatest : 5 <> latestItemException) by discriminate.
  assert (Hfirst : firstFree [3; 4; 6] (5 + 1) 9 7).
  { split; [lia | split].
    - intros Hin. repeat (apply elem_of_cons in Hin as [Hin|Hin];
                          [discriminate Hin |]). inversion Hin.
    - intros j Hj. replace j with 6 by lia.
      apply list_elem_of_further, list_elem_of_further, list_elem_of_here. }
  split; [exact Hmax | split; [exact Hvalid | split; [exact Hlatest |]]].
  split; [exact Hfirst |].
  exact (proj1 (nextItem_spec [3; 4; 6] 2 9 5 Hmax Hvalid) 7 Hlatest Hfirst).
Defined.


(** [Create_beyond_capacity] where the range 2..3 is used up. *)
Lemma Create_beyond_capacity_witness :
  3 < maxInt /\ validArgs 2 3 3 /\
  Service.used "test-namespace" two_items_store
  = (Ok [3; 2], two_items_store) /\
  Service.latest "test-namespace" two_items_store = (Ok 3, two_items_store) /\
  Z.of_nat (length (freeItems [3; 2] 2 3)) < 1 /\
  Service.Create "test-namespace" "other-id" 1 2 3 two_items_store
  = (Err capacityReachedError, two_items_store).
Proof.
  assert (Hmax : 3 < maxInt) by reflexivity.
  assert (Hvalid : validArgs 2 3 3)
    by (unfold validArgs, latestItemException; lia).
  assert (Hused : Service.used "test-namespace" two_items_store
                  = (Ok [3; 2], two_items_store)) by reflexivity.
  assert (Hlatest : Service.latest "test-namespace" two_items_store
                    = (Ok 3, two_items_store)) by reflexivity.
  assert (Hfree : Z.of_nat (length (freeItems [3; 2] 2 3)) < 1)
    by reflexivity.
  split; [exact Hmax | split; [exact Hvalid | split; [exact Hused |]]].
  split; [exact Hlatest | split; [exact Hfree |]].
  exact (Create_beyond_capacity "test-namespace" "other-id" 1 2 3
           two_items_store [3; 2] 3 Hmax Hvalid Hused Hlatest Hfree).
Defined.

(** * Further properties of the code *)

(** ** The helpers and the allocator *)

(** X4: [containsInt] is membership in the list: it answers [true]
    exactly for the items that occur in it. *)
Theorem containsInt_In :
  forall (l : list Z) (item : Z),
    (containsInt l item = true <-> In item l) /\
    (containsInt l item = false <-> ~ In item l).
Proof.
  intros l item. induction l as [|x l [IHt IHf]]; simpl.
  - split; split; try discriminate; tauto.
  - destruct (Z.eqb_spec x item) as [->|Hne].
    + split; split.
      * intros _. now left.
      * reflexivity.
      * discriminate.
      * intros Hnot. exfalso. apply Hnot. now left.
    + split; split.
      * intros H. right. now apply IHt.
      * intros [?|H]; [contradiction | now apply IHt].
      * intros H [?|Hin]; [contradiction |]. now apply IHf in H.
      * intros H. apply IHf. intros Hin. apply H. now right.
Qed.

Lemma stringsToInts_length (l : list string) (zs : list Z) :
  stringsToInts l = Ok zs -> length zs = length l.
Proof.
  intros H. apply stringsToInts_Ok in H as [-> _]. apply length_fmap.
Qed.

(** The conversion stops at the first string that is no integer. *)
Lemma stringsToInts_Err (l : list string) (e : error) :
  stringsToInts l = Err e ->
  exists front x rest,
    l = front ++ x :: rest /\ Atoi x = Err e /\
    stringsToInts front = Ok (atoi <$> front).
Proof.
  induction l as [|x l IH]; simpl; [discriminate |].
  destruct (Atoi x) as [z| e' | |] eqn:Hx; try discriminate.
  - destruct (stringsToInts l) as [zs| e' | |] eqn:Hl; try discriminate.
    intros [= ->]. destruct (IH eq_refl) as (front & y & rest & -> & Hy & Hf).
    exists (x :: front), y, rest. split; [reflexivity | split; [exact Hy |]].
    simpl. rewrite Hx, Hf. unfold atoi at 2. now rewrite Hx.
  - intros [= ->]. exists [], x, l. auto.
Qed.

(** X5: [stringsToInts] converts element by element and in order: on
    success the result has the length of the input and holds at each place
    the integer [strconv.Atoi] reads there; it fails exactly when some
    string is no integer, with the error of the first such string. *)
Theorem stringsToInts_spec :
  forall l : list string,
    (forall zs, stringsToInts l = Ok zs ->
       length zs = length l /\
       forall (i : nat) (x : string), l !! i = Some x ->
         exists z, zs !! i = Some z /\ Atoi x = Ok z) /\
    (forall e, stringsToInts l = Err e <->
       exists front x rest,
         l = front ++ x :: rest /\ Atoi x = Err e /\
         Forall (fun y => exists z, Atoi y = Ok z) front).
Proof.
  intros l. split.
  - intros zs H. split; [exact (stringsToInts_length _ _ H) |].
    apply stringsToInts_Ok in H as [-> Hall]. intros i x Hi.
    exists (atoi x). split.
    + now rewrite list_lookup_fmap, Hi.
    + rewrite Forall_forall in Hall. apply Hall.
      exact (list_elem_of_lookup_2 _ _ _ Hi).
  - intros e. split.
    + intros H. apply stringsToInts_Err in H
        as (front & x & rest & -> & Hx & Hfront).
      exists front, x, rest. split; [reflexivity | split; [exact Hx |]].
      apply stringsToInts_Ok in Hfront as [_ Hall].
      eapply Forall_impl; [exact Hall |]. intros y Hy. now exists (atoi y).
    + intros (front & x & rest & -> & Hx & Hfront).
      induction Hfront as [|y front [z Hy] _ IH]; simpl.
      * now rewrite Hx.
      * now rewrite Hy, IH.
Qed.

(** X6: what [create] prints, [stringsToInts] reads back: a list of [int]s
    printed with [strconv.Itoa] converts to the list itself. *)
Theorem stringsToInts_Itoa (zs : list Z) :
  Forall is_int zs -> stringsToInts (Itoa <$> zs) = Ok zs.
Proof.
  induction 1 as [|z zs Hz _ IH]; [reflexivity |].
  cbn [fmap list_fmap stringsToInts]. fold (Itoa <$> zs).
  now rewrite (Atoi_Itoa z Hz), IH.
Qed.

(** X7: an item [nextItem] returns is never one of [used] and never the
    sentinel -1, whatever the arguments; it is an [int] when [max] is one,
    and it lies in [min..max] when [max] is not the largest [int]. *)
Theorem nextItem_result (used : list Z) (min max latest v : Z) :
  nextItem used min max latest = Ok v ->
  (v ∉ used) /\ v <> latestItemException /\
  (is_int max -> is_int v) /\
  (max < maxInt -> min <= v <= max).
Proof.
  intros H. destruct (nextItem_free _ _ _ _ _ H) as [Hfree Hsent].
  split; [exact Hfree | split; [exact Hsent | split]].
  - intros Hmax. exact (nextItem_is_int _ _ _ _ _ Hmax H).
  - intros Hmax. exact (nextItem_in_range _ _ _ _ _ Hmax H).
Qed.

(** X8: the order of [used] is of no consequence: [nextItem] answers the
    same on every permutation of [used], so neither the order in which
    the storage lists the items nor the sorting [nextItem] does in place
    on the caller's slice changes an allocation. *)
Theorem nextItem_order_irrelevant (used used' : list Z)
  (min max latest : Z) :
  used ≡ₚ used' ->
  nextItem used min max latest = nextItem used' min max latest /\
  nextItem (sortInts used) min max latest = nextItem used min max latest.
Proof.
  intros Hperm. split.
  - exact (nextItem_perm _ _ _ _ _ Hperm).
  - apply nextItem_perm, sortInts_perm.
Qed.

(** ** What [Create] and [Delete] touch *)

Lemma written_is_Some (namespace ID : string) (items : list Z)
  (s : gmap string string) (k : string) :
  is_Some (s !! k) -> is_Some (written namespace ID s items !! k).
Proof.
  revert s. induction items as [|item items IH]; intros s Hk; [exact Hk |].
  rewrite written_cons. apply IH.
  apply lookup_insert_is_Some'. right.
  apply lookup_insert_is_Some'. now right.
Qed.

(** A successful [Create] keeps the keys that are bound. *)
Lemma Create_lookup_old (namespace ID : string) (num min max : Z)
  (s : gmap string string) (items : list Z) (s' : gmap string string)
  (k : string) :
  Service.Create namespace ID num min max s = (Ok items, s') ->
  is_Some (s !! k) -> is_Some (s' !! k).
Proof.
  intros Hcreate Hk.
  apply Create_allocated in Hcreate as (_ & _ & _ & l & _ & _ & _ & _ & _ & ->).
  apply lookup_insert_is_Some'. right. now apply written_is_Some.
Qed.

(** It changes nothing but the namespace-level records, the records of
    the owner and the cursor. *)
Lemma Create_lookup_other (namespace ID : string) (num min max : Z)
  (s : gmap string string) (items : list Z) (s' : gmap string string)
  (k : string) :
  Service.Create namespace ID num min max s = (Ok items, s') ->
  (forall y, k <> ItemKeyFormat namespace y) ->
  (forall y, k <> IDKeyFormat namespace ID y) ->
  k <> LatestKeyFormat namespace ->
  s' !! k = s !! k.
Proof.
  intros Hcreate Hitem Hid Hlatest.
  apply Create_allocated in Hcreate as (_ & _ & _ & l & _ & _ & _ & _ & _ & ->).
  rewrite lookup_insert_ne by (apply not_eq_sym, Hlatest).
  now apply written_other.
Qed.

(** Its bindings are the old ones, the records of the batch and the
    cursor. *)
Lemma Create_lookup_inv (namespace ID : string) (num min max : Z)
  (s : gmap string string) (items : list Z) (s' : gmap string string)
  (k x : string) :
  Service.Create namespace ID num min max s = (Ok items, s') ->
  s' !! k = Some x ->
  s !! k = Some x \/
  ((k = ItemKeyFormat namespace x \/ k = IDKeyFormat namespace ID x \/
    k = LatestKeyFormat namespace) /\
   exists v, v ∈ items /\ x = Itoa v).
Proof.
  intros Hcreate Hk.
  apply Create_allocated in Hcreate
    as (_ & _ & front & lastItem & _ & _ & _ & _ & Hitems & ->).
  destruct (decide (LatestKeyFormat namespace = k)) as [<-|Hne].
  - rewrite lookup_insert_eq in Hk. injection Hk as <-. right.
    split; [auto |]. exists lastItem. split; [| reflexivity].
    rewrite Hitems. apply elem_of_app. right. apply list_elem_of_here.
  - rewrite lookup_insert_ne in Hk by exact Hne.
    apply written_lookup_inv in Hk as [Hk|(item & Hitem & -> & Hkey)];
      [now left |].
    right. split; [tauto | now exists item].
Qed.

(** X9: a successful [Create] removes no binding and changes nothing but
    the namespace-level records, the records of the owner and the cursor
    of the namespace; what it leaves in the storage besides the old
    bindings are the two records of each item of the batch and the
    cursor, which holds an item of the batch. *)
Theorem Create_frame (namespace ID : string) (num min max : Z)
  (s : gmap string string) (items : list Z) (s' : gmap string string) :
  Service.Create namespace ID num min max s = (Ok items, s') ->
  (forall k, is_Some (s !! k) -> is_Some (s' !! k)) /\
  (forall k,
      (forall y, k <> ItemKeyFormat namespace y) ->
      (forall y, k <> IDKeyFormat namespace ID y) ->
      k <> LatestKeyFormat namespace ->
      s' !! k = s !! k) /\
  (forall k x, s' !! k = Some x ->
      s !! k = Some x \/
      ((k = ItemKeyFormat namespace x \/ k = IDKeyFormat namespace ID x \/
        k = LatestKeyFormat namespace) /\
       exists v, v ∈ items /\ x = Itoa v)).
Proof.
  intros Hcreate. split; [| split].
  - intros k. exact (Create_lookup_old _ _ _ _ _ _ _ _ _ Hcreate).
  - intros k. exact (Create_lookup_other _ _ _ _ _ _ _ _ _ Hcreate).
  - intros k x. exact (Create_lookup_inv _ _ _ _ _ _ _ _ _ _ Hcreate).
Qed.


(** What a [Delete] that returns went through. *)
Lemma Delete_inv (namespace ID : string) (s s' : gmap string string) :
  Service.Delete namespace ID s = (Ok tt, s') ->
  exists items,
    stringsToInts (microstorage.values (IDListKeyFormat namespace ID) s)
    = Ok items /\
    let s1 := delete (IDListKeyFormat namespace ID)
                (removed namespace ID s items) in
    (microstorage.values (ItemListKeyFormat namespace) s1 = [] /\
     s' = delete (LatestKeyFormat namespace)
            (delete (ItemListKeyFormat namespace) s1) \/
     microstorage.values (ItemListKeyFormat namespace) s1 <> [] /\ s' = s1).
Proof.
  rewrite Delete_run.
  destruct (stringsToInts _) as [items| | |]; try discriminate.
  rewrite delete_run. cbv zeta. intros H. exists items.
  split; [reflexivity |].
  destruct (microstorage.values (ItemListKeyFormat namespace) _) as [|x l]
    eqn:Hlist; injection H as <-; [left | right]; split; try reflexivity.
  discriminate.
Qed.

(** A successful [Delete] only takes bindings away. *)
Lemma Delete_lookup_Some (namespace ID : string) (s s' : gmap string string)
  (k x : string) :
  Service.Delete namespace ID s = (Ok tt, s') ->
  s' !! k = Some x -> s !! k = Some x.
Proof.
  intros Hdelete Hk. apply Delete_inv in Hdelete as (items & _ & Hs').
  cbv zeta in Hs'.
  assert (Hs1 : delete (IDListKeyFormat namespace ID)
                  (removed namespace ID s items) !! k = Some x).
  { destruct Hs' as [[_ ->]|[_ ->]]; [| exact Hk].
    apply lookup_delete_Some in Hk as [_ Hk].
    now apply lookup_delete_Some in Hk as [_ Hk]. }
  apply lookup_delete_Some in Hs1 as [_ Hs1].
  exact (removed_lookup_Some _ _ _ _ _ _ Hs1).
Qed.

(** It leaves every key but the namespace-level records, the records of
    the owner, the two list keys and the cursor as it was. *)
Lemma Delete_lookup_other (namespace ID : string) (s s' : gmap string string)
  (k : string) :
  Service.Delete namespace ID s = (Ok tt, s') ->
  (forall y, k <> ItemKeyFormat namespace y) ->
  (forall y, k <> IDKeyFormat namespace ID y) ->
  k <> IDListKeyFormat namespace ID ->
  k <> ItemListKeyFormat namespace ->
  k <> LatestKeyFormat namespace ->
  s' !! k = s !! k.
Proof.
  intros Hdelete Hitem Hid Hidlist Hitemlist Hlatest.
  apply Delete_inv in Hdelete as (items & _ & Hs'). cbv zeta in Hs'.
  assert (Hs1 : delete (IDListKeyFormat namespace ID)
                  (removed namespace ID s items) !! k = s !! k).
  { rewrite lookup_delete_ne by (apply not_eq_sym, Hidlist).
    now apply removed_other. }
  destruct Hs' as [[_ ->]|[_ ->]]; [| exact Hs1].
  rewrite lookup_delete_ne by (apply not_eq_sym, Hlatest).
  rewrite lookup_delete_ne by (apply not_eq_sym, Hitemlist).
  exact Hs1.
Qed.

(** X10: a successful [Delete] adds and changes no binding, and removes
    nothing but namespace-level records, records of the owner, the two
    list keys and the cursor of the namespace. *)
Theorem Delete_frame (namespace ID : string) (s s' : gmap string string) :
  Service.Delete namespace ID s = (Ok tt, s') ->
  (forall k x, s' !! k = Some x -> s !! k = Some x) /\
  (forall k,
      (forall y, k <> ItemKeyFormat namespace y) ->
      (forall y, k <> IDKeyFormat namespace ID y) ->
      k <> IDListKeyFormat namespace ID ->
      k <> ItemListKeyFormat namespace ->
      k <> LatestKeyFormat namespace ->
      s' !! k = s !! k).
Proof.
  intros Hdelete. split.
  - intros k x. exact (Delete_lookup_Some _ _ _ _ _ _ Hdelete).
  - intros k. exact (Delete_lookup_other _ _ _ _ _ Hdelete).
Qed.

(** A [Delete] that fails has removed nothing. *)
Lemma Delete_Err (namespace ID : string) (s s' : gmap string string)
  (e : error) :
  Service.Delete namespace ID s = (Err e, s') ->
  s' = s /\
  stringsToInts (microstorage.values (IDListKeyFormat namespace ID) s)
  = Err e.
Proof.
  rewrite Delete_run.
  destruct (stringsToInts _) as [items|e'| |] eqn:Hitems; try discriminate.
  - rewrite delete_run. cbv zeta.
    destruct (microstorage.values (ItemListKeyFormat namespace) _);
      discriminate.
  - now intros [= -> <-].
Qed.


(** X12: [Delete] is idempotent on an owner whose records are as [create]
    wrote them: a second [Delete] succeeds and leaves the storage as the
    first one left it. *)
Theorem Delete_idempotent (namespace ID : string)
  (s s' : gmap string string) :
  ownerRecords namespace ID s ->
  Service.Delete namespace ID s = (Ok tt, s') ->
  Service.Delete namespace ID s' = (Ok tt, s').
Proof.
  intros Hwf Hdelete.
  pose proof (Delete_owner_values _ _ _ _ Hwf Hdelete) as Hnone.
  apply Delete_inv in Hdelete as (items & _ & Hs'). cbv zeta in Hs'.
  set (s1 := delete (IDListKeyFormat namespace ID)
               (removed namespace ID s items)) in Hs'.
  assert (Hgone : s' !! IDListKeyFormat namespace ID = None).
  { destruct Hs' as [[_ ->]|[_ ->]]; [| apply lookup_delete_eq].
    rewrite !lookup_delete_None. right; right. apply lookup_delete_eq. }
  rewrite Delete_run, Hnone. cbn [stringsToInts].
  rewrite delete_run. cbv zeta. cbn [removed foldl].
  rewrite (delete_id _ _ Hgone).
  destruct Hs' as [[Hnil Hs']|[Hsome Hs']].
  - assert (Hnil' : microstorage.values (ItemListKeyFormat namespace) s' = [])
      by (rewrite Hs'; apply values_nil_delete, values_nil_delete, Hnil).
    rewrite Hnil'. f_equal.
    rewrite (delete_id s' (ItemListKeyFormat namespace)).
    + apply delete_id. rewrite Hs'. apply lookup_delete_eq.
    + rewrite Hs'.
      rewrite lookup_delete_ne by (apply not_eq_sym, ItemListKey_LatestKey).
      apply lookup_delete_eq.
  - rewrite Hs'.
    destruct (microstorage.values (ItemListKeyFormat namespace) s1);
      [contradiction | reflexivity].
Qed.

(** ** Keys of names without a slash *)

Lemma prefix_inv (p k : string) :
  String.prefix p k = true -> exists rest, k = p +:+ rest.
Proof.
  revert k. induction p as [|c p IH]; intros k H; [now exists k |].
  destruct k as [|c' k]; [discriminate |]. simpl in H.
  destruct (ascii_dec c c') as [->|]; [| discriminate].
  apply IH in H as [rest ->]. now exists rest.
Qed.

(** What lies below the list key of a namespace are its namespace-level
    records, and below the list key of an owner the records of the
    owner. *)
Lemma below_ItemList_inv (namespace k : string) :
  microstorage.below (ItemListKeyFormat namespace) k = true ->
  exists rest, k = ItemKeyFormat namespace rest.
Proof.
  unfold microstorage.below. intros [rest ->]%prefix_inv. exists rest.
  unfold ItemListKeyFormat, ItemKeyFormat.
  now rewrite !string_app_assoc.
Qed.

Lemma below_IDList_inv (namespace ID k : string) :
  microstorage.below (IDListKeyFormat namespace ID) k = true ->
  exists rest, k = IDKeyFormat namespace ID rest.
Proof.
  unfold microstorage.below. intros [rest ->]%prefix_inv. exists rest.
  unfold IDListKeyFormat, IDKeyFormat.
  now rewrite !string_app_assoc.
Qed.

Lemma segments_slash (a b : string) :
  noSlash a = true -> segments (a +:+ String "/" b) = a :: segments b.
Proof.
  induction a as [|c a IH]; string_norm; [reflexivity |].
  cbn [noSlash segments]. intros [Hc Ha]%andb_prop.
  apply negb_true_iff in Hc. rewrite Hc, (IH Ha). reflexivity.
Qed.

Lemma segments_plain (a : string) : noSlash a = true -> segments a = [a].
Proof.
  induction a as [|c a IH]; [reflexivity |].
  cbn [noSlash segments]. intros [Hc Ha]%andb_prop.
  apply negb_true_iff in Hc. rewrite Hc, (IH Ha). reflexivity.
Qed.

Lemma noSlash_uint (d : Decimal.uint) :
  noSlash (NilEmpty.string_of_uint d) = true.
Proof. induction d; simpl; auto. Qed.

(** A printed integer has no slash. *)
Lemma noSlash_Itoa (v : Z) : noSlash (Itoa v) = true.
Proof.
  assert (Hu : forall d, noSlash (NilZero.string_of_uint d) = true).
  { intros d. unfold NilZero.string_of_uint.
    destruct d; try reflexivity; apply (noSlash_uint (_ d)). }
  unfold Itoa, NilZero.string_of_int.
  destruct (Z.to_int v); [apply Hu |]. cbn [noSlash]. apply Hu.
Qed.

Lemma segments_ItemKey (namespace item : string) :
  noSlash namespace = true ->
  segments (ItemKeyFormat namespace item)
  = "range-pool" :: namespace :: "item" :: segments item.
Proof.
  intros Hns.
  change (ItemKeyFormat namespace item)
    with ("range-pool" +:+
          String "/" (namespace +:+ String "/" ("item" +:+ String "/" item))).
  now rewrite !segments_slash.
Qed.

Lemma segments_IDKey (namespace ID item : string) :
  noSlash namespace = true -> noSlash ID = true ->
  segments (IDKeyFormat namespace ID item)
  = "range-pool" :: namespace :: "id" :: ID :: "item" :: segments item.
Proof.
  intros Hns HID.
  change (IDKeyFormat namespace ID item)
    with ("range-pool" +:+
          String "/" (namespace +:+ String "/" ("id" +:+
          String "/" (ID +:+ String "/" ("item" +:+ String "/" item))))).
  now rewrite !segments_slash.
Qed.

Lemma segments_LatestKey (namespace : string) :
  noSlash namespace = true ->
  segments (LatestKeyFormat namespace) = ["range-pool"; namespace; "latest"].
Proof.
  intros Hns.
  change (LatestKeyFormat namespace)
    with ("range-pool" +:+ String "/" (namespace +:+ String "/" "latest")).
  now rewrite !segments_slash.
Qed.

Lemma segments_ItemListKey (namespace : string) :
  noSlash namespace = true ->
  segments (ItemListKeyFormat namespace) = ["range-pool"; namespace; "item"].
Proof.
  intros Hns.
  change (ItemListKeyFormat namespace)
    with ("range-pool" +:+ String "/" (namespace +:+ String "/" "item")).
  now rewrite !segments_slash.
Qed.

Lemma segments_IDListKey (namespace ID : string) :
  noSlash namespace = true -> noSlash ID = true ->
  segments (IDListKeyFormat namespace ID)
  = ["range-pool"; namespace; "id"; ID; "item"].
Proof.
  intros Hns HID.
  change (IDListKeyFormat namespace ID)
    with ("range-pool" +:+
          String "/" (namespace +:+ String "/" ("id" +:+
          String "/" (ID +:+ String "/" "item")))).
  now rewrite !segments_slash.
Qed.

Lemma segments_Itoa (v : Z) : segments (Itoa v) = [Itoa v].
Proof. apply segments_plain, noSlash_Itoa. Qed.

Lemma segments_nonempty (s : string) : segments s <> [].
Proof.
  destruct s as [|c s]; [discriminate |]. cbn [segments].
  destruct (Ascii.eqb c "/"); [discriminate |].
  destruct (segments s); discriminate.
Qed.

Lemma plain_ItemKey_inj (ns ns' a b : string) :
  noSlash ns = true -> noSlash ns' = true ->
  ItemKeyFormat ns a = ItemKeyFormat ns' b -> ns = ns' /\ a = b.
Proof.
  intros Hns Hns' H. pose proof (f_equal segments H) as Hseg.
  rewrite !segments_ItemKey in Hseg by assumption.
  injection Hseg as -> _. split; [reflexivity |].
  exact (ItemKey_inj _ _ _ H).
Qed.

Lemma plain_IDKey_inj (ns ns' ID ID' a b : string) :
  noSlash ns = true -> noSlash ns' = true ->
  noSlash ID = true -> noSlash ID' = true ->
  IDKeyFormat ns ID a = IDKeyFormat ns' ID' b ->
  ns = ns' /\ ID = ID' /\ a = b.
Proof.
  intros Hns Hns' HID HID' H. pose proof (f_equal segments H) as Hseg.
  rewrite !segments_IDKey in Hseg by assumption.
  injection Hseg as -> -> _. split; [reflexivity | split; [reflexivity |]].
  exact (IDKey_inj _ _ _ _ H).
Qed.

Lemma plain_LatestKey_inj (ns ns' : string) :
  noSlash ns = true -> noSlash ns' = true ->
  LatestKeyFormat ns = LatestKeyFormat ns' -> ns = ns'.
Proof.
  intros Hns Hns' H. apply (f_equal segments) in H.
  rewrite !segments_LatestKey in H by assumption. now injection H.
Qed.

Lemma plain_ItemKey_IDKey (ns ns' ID a b : string) :
  noSlash ns = true -> noSlash ns' = true -> noSlash ID = true ->
  ItemKeyFormat ns a <> IDKeyFormat ns' ID b.
Proof.
  intros Hns Hns' HID H. apply (f_equal segments) in H.
  rewrite segments_ItemKey, segments_IDKey in H by assumption.
  discriminate H.
Qed.

Lemma plain_ItemKey_LatestKey (ns ns' a : string) :
  noSlash ns = true -> noSlash ns' = true ->
  ItemKeyFormat ns a <> LatestKeyFormat ns'.
Proof.
  intros Hns Hns' H. apply (f_equal segments) in H.
  rewrite segments_ItemKey, segments_LatestKey in H by assumption.
  discriminate H.
Qed.

Lemma plain_IDKey_LatestKey (ns ns' ID a : string) :
  noSlash ns = true -> noSlash ns' = true -> noSlash ID = true ->
  IDKeyFormat ns ID a <> LatestKeyFormat ns'.
Proof.
  intros Hns Hns' HID H. apply (f_equal segments) in H.
  rewrite segments_IDKey, segments_LatestKey in H by assumption.
  discriminate H.
Qed.

Lemma plain_ItemKey_ItemListKey (ns ns' a : string) :
  noSlash ns = true -> noSlash ns' = true ->
  ItemKeyFormat ns a <> ItemListKeyFormat ns'.
Proof.
  intros Hns Hns' H. apply (f_equal segments) in H.
  rewrite segments_ItemKey, segments_ItemListKey in H by assumption.
  injection H as _ H. exact (segments_nonempty _ H).
Qed.

Lemma plain_ItemKey_IDListKey (ns ns' ID a : string) :
  noSlash ns = true -> noSlash ns' = true -> noSlash ID = true ->
  ItemKeyFormat ns a <> IDListKeyFormat ns' ID.
Proof.
  intros Hns Hns' HID H. apply (f_equal segments) in H.
  rewrite segments_ItemKey, segments_IDListKey in H by assumption.
  discriminate H.
Qed.

Lemma plain_IDKey_ItemListKey (ns ns' ID a : string) :
  noSlash ns = true -> noSlash ns' = true -> noSlash ID = true ->
  IDKeyFormat ns ID a <> ItemListKeyFormat ns'.
Proof.
  intros Hns Hns' HID H. apply (f_equal segments) in H.
  rewrite segments_IDKey, segments_ItemListKey in H by assumption.
  discriminate H.
Qed.

Lemma plain_IDKey_IDListKey (ns ns' ID ID' a : string) :
  noSlash ns = true -> noSlash ns' = true ->
  noSlash ID = true -> noSlash ID' = true ->
  IDKeyFormat ns ID a <> IDListKeyFormat ns' ID'.
Proof.
  intros Hns Hns' HID HID' H. apply (f_equal segments) in H.
  rewrite segments_IDKey, segments_IDListKey in H by assumption.
  injection H as _ _ H. exact (segments_nonempty _ H).
Qed.

Lemma plain_LatestKey_ItemListKey (ns ns' : string) :
  noSlash ns = true -> noSlash ns' = true ->
  LatestKeyFormat ns <> ItemListKeyFormat ns'.
Proof.
  intros Hns Hns' H. apply (f_equal segments) in H.
  rewrite segments_LatestKey, segments_ItemListKey in H by assumption.
  discriminate H.
Qed.

Lemma plain_LatestKey_IDListKey (ns ns' ID : string) :
  noSlash ns = true -> noSlash ns' = true -> noSlash ID = true ->
  LatestKeyFormat ns <> IDListKeyFormat ns' ID.
Proof.
  intros Hns Hns' HID H. apply (f_equal segments) in H.
  rewrite segments_LatestKey, segments_IDListKey in H by assumption.
  discriminate H.
Qed.

(** X23: the keys of slash-free names do not collide. The record of an
    item, the record of an owner and the cursor determine the namespace,
    the owner and the item they are made of; keys of different kinds
    differ; and no record and no cursor is a list key. *)
Theorem key_formats_injective (ns ns' ID ID' : string) (v v' : Z) :
  noSlash ns = true -> noSlash ns' = true ->
  noSlash ID = true -> noSlash ID' = true ->
  (ItemKeyFormat ns (Itoa v) = ItemKeyFormat ns' (Itoa v') ->
   ns = ns' /\ v = v') /\
  (IDKeyFormat ns ID (Itoa v) = IDKeyFormat ns' ID' (Itoa v') ->
   ns = ns' /\ ID = ID' /\ v = v') /\
  (LatestKeyFormat ns = LatestKeyFormat ns' -> ns = ns') /\
  ItemKeyFormat ns (Itoa v) <> IDKeyFormat ns' ID' (Itoa v') /\
  ItemKeyFormat ns (Itoa v) <> LatestKeyFormat ns' /\
  IDKeyFormat ns ID (Itoa v) <> LatestKeyFormat ns' /\
  (forall k, k = ItemKeyFormat ns (Itoa v) \/
             k = IDKeyFormat ns ID (Itoa v) \/ k = LatestKeyFormat ns ->
             k <> ItemListKeyFormat ns' /\ k <> IDListKeyFormat ns' ID').
Proof.
  intros Hns Hns' HID HID'. repeat split.
  - now apply plain_ItemKey_inj in H as [-> _].
  - now apply plain_ItemKey_inj in H as [_ ->%Itoa_inj].
  - now apply plain_IDKey_inj in H as (-> & _ & _).
  - now apply plain_IDKey_inj in H as (_ & -> & _).
  - now apply plain_IDKey_inj in H as (_ & _ & ->%Itoa_inj).
  - now apply plain_LatestKey_inj.
  - now apply plain_ItemKey_IDKey.
  - now apply plain_ItemKey_LatestKey.
  - now apply plain_IDKey_LatestKey.
  - destruct H as [->|[->| ->]].
    + now apply plain_ItemKey_ItemListKey.
    + now apply plain_IDKey_ItemListKey.
    + now apply plain_LatestKey_ItemListKey.
  - destruct H as [->|[->| ->]].
    + now apply plain_ItemKey_IDListKey.
    + now apply plain_IDKey_IDListKey.
    + now apply plain_LatestKey_IDListKey.
Qed.

(** ** Storage that holds pools *)

Lemma atoi_Itoa (v : Z) : is_int v -> atoi (Itoa v) = v.
Proof. intros Hv. unfold atoi. now rewrite Atoi_Itoa. Qed.

(** The binding of a namespace-level record holds the item of its key. *)
Lemma binding_ItemKey (s : gmap string string) (ns rest x : string) :
  consistent s -> noSlash ns = true ->
  s !! ItemKeyFormat ns rest = Some x ->
  rest = x /\ exists v, is_int v /\ x = Itoa v.
Proof.
  intros Hs Hns Hx.
  destruct (consistent_bindings s Hs _ _ Hx)
    as (ns' & v & Hns' & Hv & -> & [Hk|[(ID & HID & Hk)|Hk]]).
  - apply plain_ItemKey_inj in Hk as [_ ->]; eauto.
  - now apply plain_ItemKey_IDKey in Hk.
  - now apply plain_ItemKey_LatestKey in Hk.
Qed.

Lemma binding_IDKey (s : gmap string string) (ns ID rest x : string) :
  consistent s -> noSlash ns = true -> noSlash ID = true ->
  s !! IDKeyFormat ns ID rest = Some x ->
  rest = x /\ exists v, is_int v /\ x = Itoa v.
Proof.
  intros Hs Hns HID Hx.
  destruct (consistent_bindings s Hs _ _ Hx)
    as (ns' & v & Hns' & Hv & -> & [Hk|[(ID' & HID' & Hk)|Hk]]).
  - symmetry in Hk. now apply plain_ItemKey_IDKey in Hk.
  - apply plain_IDKey_inj in Hk as (_ & _ & ->); eauto.
  - now apply plain_IDKey_LatestKey in Hk.
Qed.

(** No list key is bound. *)
Lemma consistent_ItemListKey (s : gmap string string) (ns : string) :
  consistent s -> noSlash ns = true -> s !! ItemListKeyFormat ns = None.
Proof.
  intros Hs Hns. destruct (s !! ItemListKeyFormat ns) as [x|] eqn:Hx;
    [exfalso | reflexivity].
  destruct (consistent_bindings s Hs _ _ Hx)
    as (ns' & v & Hns' & Hv & -> & [Hk|[(ID' & HID' & Hk)|Hk]]);
    symmetry in Hk.
  - now apply plain_ItemKey_ItemListKey in Hk.
  - now apply plain_IDKey_ItemListKey in Hk.
  - now apply plain_LatestKey_ItemListKey in Hk.
Qed.

Lemma consistent_IDListKey (s : gmap string string) (ns ID : string) :
  consistent s -> noSlash ns = true -> noSlash ID = true ->
  s !! IDListKeyFormat ns ID = None.
Proof.
  intros Hs Hns HID. destruct (s !! IDListKeyFormat ns ID) as [x|] eqn:Hx;
    [exfalso | reflexivity].
  destruct (consistent_bindings s Hs _ _ Hx)
    as (ns' & v & Hns' & Hv & -> & [Hk|[(ID' & HID' & Hk)|Hk]]);
    symmetry in Hk.
  - now apply plain_ItemKey_IDListKey in Hk.
  - now apply plain_IDKey_IDListKey in Hk.
  - now apply plain_LatestKey_IDListKey in Hk.
Qed.

(** A listing whose bindings are records converts, to the items that have
    a record. *)
Lemma listing_items (dir : string) (key : string -> string)
  (s : gmap string string) :
  (forall k, microstorage.below dir k = true -> exists rest, k = key rest) ->
  (forall rest, microstorage.below dir (key rest) = true) ->
  (forall rest x, s !! key rest = Some x ->
                  rest = x /\ exists v, is_int v /\ x = Itoa v) ->
  stringsToInts (microstorage.values dir s)
  = Ok (atoi <$> microstorage.values dir s) /\
  forall v, v ∈ atoi <$> microstorage.values dir s <->
            is_Some (s !! key (Itoa v)).
Proof.
  intros Hinv Hbelow Hrecord.
  assert (Hvalue : forall x, x ∈ microstorage.values dir s ->
             exists v, is_int v /\ x = Itoa v /\ s !! key x = Some x).
  { intros x (k & Hk & Hb)%elem_of_values.
    apply Hinv in Hb as [rest ->].
    destruct (Hrecord _ _ Hk) as [-> (v & Hv & ->)]. eauto. }
  split.
  - apply stringsToInts_all, Forall_forall. intros x Hx.
    destruct (Hvalue x Hx) as (v & Hv & -> & _).
    exists v. now apply Atoi_Itoa.
  - intros v. rewrite list_elem_of_fmap. split.
    + intros (x & -> & Hx).
      destruct (Hvalue x Hx) as (w & Hw & -> & Hk).
      rewrite (atoi_Itoa w Hw). eauto.
    + intros [x Hx]. destruct (Hrecord _ _ Hx) as [Heq (w & Hw & ->)].
      apply Itoa_inj in Heq as ->. exists (Itoa w).
      split; [now rewrite atoi_Itoa |].
      apply elem_of_values. exists (key (Itoa w)). auto.
Qed.

(** In storage that holds pools, the used items of a namespace are the
    items with a namespace-level record. *)
Lemma used_items (s : gmap string string) (ns : string) :
  consistent s -> noSlash ns = true ->
  exists used,
    Service.used ns s = (Ok used, s) /\
    forall v, v ∈ used <-> is_Some (s !! ItemKeyFormat ns (Itoa v)).
Proof.
  intros Hs Hns. rewrite used_run.
  destruct (listing_items (ItemListKeyFormat ns) (ItemKeyFormat ns) s)
    as [-> Hitems]; [| | | eauto].
  - apply below_ItemList_inv.
  - apply below_ItemList_ItemKey.
  - intros rest x. now apply binding_ItemKey.
Qed.

(** The listing of an owner converts to the items the owner has a record
    of. *)
Lemma owner_items (s : gmap string string) (ns ID : string) :
  consistent s -> noSlash ns = true -> noSlash ID = true ->
  exists items,
    stringsToInts (microstorage.values (IDListKeyFormat ns ID) s) = Ok items /\
    forall v, v ∈ items <-> is_Some (s !! IDKeyFormat ns ID (Itoa v)).
Proof.
  intros Hs Hns HID.
  destruct (listing_items (IDListKeyFormat ns ID) (IDKeyFormat ns ID) s)
    as [-> Hitems]; [| | | eauto].
  - apply below_IDList_inv.
  - apply below_IDList_IDKey.
  - intros rest x. now apply binding_IDKey.
Qed.

(** The cursor of a namespace converts. *)
Lemma latest_value (s : gmap string string) (ns : string) :
  consistent s -> noSlash ns = true ->
  exists latest, Service.latest ns s = (Ok latest, s) /\ is_int latest.
Proof.
  intros Hs Hns. rewrite latest_run.
  destruct (s !! LatestKeyFormat ns) as [x|] eqn:Hx; simpl.
  - destruct (consistent_bindings s Hs _ _ Hx) as (_ & v & _ & Hv & -> & _).
    exists v. now rewrite Atoi_Itoa.
  - exists (-1). split; [reflexivity |]. unfold is_int, minInt, maxInt. lia.
Qed.

Lemma removed_keep (namespace ID : string) (items : list Z)
  (s : gmap string string) (k : string) :
  (forall v, v ∈ items -> k <> ItemKeyFormat namespace (Itoa v)) ->
  (forall v, v ∈ items -> k <> IDKeyFormat namespace ID (Itoa v)) ->
  removed namespace ID s items !! k = s !! k.
Proof.
  revert s. induction items as [|item items IH]; intros s Hitem Hid;
    [reflexivity |].
  rewrite removed_cons, IH.
  - rewrite !lookup_delete_ne; [reflexivity | |]; apply not_eq_sym;
      [apply Hitem | apply Hid]; apply list_elem_of_here.
  - intros v Hv. apply Hitem. now apply list_elem_of_further.
  - intros v Hv. apply Hid. now apply list_elem_of_further.
Qed.

Lemma Create_Err (namespace ID : string) (num min max : Z)
  (s s' : gmap string string) (e : error) :
  Service.Create namespace ID num min max s = (Err e, s') -> s' = s.
Proof.
  unfold Service.Create, bind at 1. rewrite used_run.
  destruct (stringsToInts _) as [used| | |]; try discriminate;
    [| now intros [= _ <-]].
  unfold bind at 1. rewrite latest_run.
  destruct (Atoi _) as [latest| | |]; try discriminate;
    [| now intros [= _ <-]].
  unfold bind at 1, lift.
  destruct (Service.allocate (Z.to_nat num) used [] min max latest)
    as [items| | |]; try discriminate; [| now intros [= _ <-]].
  unfold bind, ret.
  destruct items as [|lastItem front _] using rev_ind.
  - rewrite create_nil. discriminate.
  - rewrite create_run. discriminate.
Qed.

Lemma consistent_empty : consistent ∅.
Proof.
  split.
  - intros k x Hk. rewrite lookup_empty in Hk. discriminate.
  - intros ns v _ [x Hx]. rewrite lookup_empty in Hx. discriminate.
  - intros ns ID v _ _ [x Hx]. rewrite lookup_empty in Hx. discriminate.
  - intros ns ID ID' v _ _ _ [x Hx]. rewrite lookup_empty in Hx.
    discriminate.
  - intros ns _. split.
    + intros [x Hx]. rewrite lookup_empty in Hx. discriminate.
    + intros [v [x Hx]]. rewrite lookup_empty in Hx. discriminate.
Qed.

(** [Create] keeps the pools. *)
Lemma Create_consistent (ns ID : string) (num min max : Z)
  (s : gmap string string) (items : list Z) (s' : gmap string string) :
  consistent s -> noSlash ns = true -> noSlash ID = true -> is_int max ->
  Service.Create ns ID num min max s = (Ok items, s') ->
  consistent s'.
Proof.
  intros Hs Hns HID Hmax Hcreate.
  pose proof (fun k x => Create_lookup_inv _ _ _ _ _ _ _ _ k x Hcreate)
    as Hnew.
  pose proof (fun k => Create_lookup_old _ _ _ _ _ _ _ _ k Hcreate) as Hold.
  pose proof (fun k => Create_lookup_other _ _ _ _ _ _ _ _ k Hcreate)
    as Hother.
  destruct (Create_allocated _ _ _ _ _ _ _ _ Hcreate)
    as (used & latest & front & lastItem & Hused & _ & _ & Halloc & Hitems
        & Hs').
  pose proof (allocated_is_int _ _ _ _ _ Hmax Halloc) as Hint.
  rewrite Forall_forall in Hint.
  destruct (allocated_distinct _ _ _ _ _ Halloc) as [_ Hfree].
  assert (Hrec : forall v, v ∈ items ->
             s' !! ItemKeyFormat ns (Itoa v) = Some (Itoa v) /\
             s' !! IDKeyFormat ns ID (Itoa v) = Some (Itoa v)).
  { intros v Hv. rewrite Hs'. now apply Create_records. }
  assert (Hlast : lastItem ∈ items).
  { rewrite Hitems. apply elem_of_app. right. apply list_elem_of_here. }
  assert (Hcur : is_Some (s' !! LatestKeyFormat ns)).
  { rewrite Hs', lookup_insert_eq. eauto. }
  assert (Hfresh : forall v, v ∈ items ->
             s !! ItemKeyFormat ns (Itoa v) = None).
  { intros v Hv. destruct (s !! ItemKeyFormat ns (Itoa v)) as [x|] eqn:Hx;
      [exfalso | reflexivity].
    destruct (binding_ItemKey s ns _ x Hs Hns Hx) as [<- _].
    apply (proj1 (Hfree v Hv)).
    exact (recorded_in_used _ _ _ _ Hused Hx). }
  assert (Hfresh' : forall ID' v, noSlash ID' = true -> v ∈ items ->
             ~ is_Some (s !! IDKeyFormat ns ID' (Itoa v))).
  { intros ID' v HID' Hv Hsome.
    apply (consistent_item s Hs ns ID' v Hns HID') in Hsome as [x Hx].
    rewrite (Hfresh v Hv) in Hx. discriminate. }
  assert (Howner : forall ns0 ID0 v,
             noSlash ns0 = true -> noSlash ID0 = true ->
             is_Some (s' !! IDKeyFormat ns0 ID0 (Itoa v)) ->
             is_Some (s !! IDKeyFormat ns0 ID0 (Itoa v)) \/
             ns0 = ns /\ ID0 = ID /\ v ∈ items).
  { intros ns0 ID0 v Hns0 HID0 [x Hx].
    apply Hnew in Hx as [Hx|[[Hk|[Hk|Hk]] (w & Hw & ->)]].
    - left. eauto.
    - symmetry in Hk. now apply plain_ItemKey_IDKey in Hk.
    - apply plain_IDKey_inj in Hk as (-> & -> & ->%Itoa_inj); auto.
    - now apply plain_IDKey_LatestKey in Hk. }
  split.
  - intros k x Hk. apply Hnew in Hk as [Hk|[Hkey (v & Hv & ->)]].
    + exact (consistent_bindings s Hs _ _ Hk).
    + exists ns, v. split; [exact Hns | split; [exact (Hint v Hv) |]].
      split; [reflexivity |]. destruct Hkey as [Hk|[Hk|Hk]]; eauto.
  - intros ns0 v Hns0 [x Hx].
    apply Hnew in Hx as [Hx|[[Hk|[Hk|Hk]] (w & Hw & ->)]].
    + destruct (consistent_owner s Hs ns0 v Hns0 (ex_intro _ x Hx))
        as (ID0 & HID0 & Hsome).
      exists ID0. split; [exact HID0 | now apply Hold].
    + apply plain_ItemKey_inj in Hk as [-> ->]; [| assumption ..].
      exists ID. split; [exact HID |].
      rewrite (proj2 (Hrec w Hw)). eauto.
    + now apply plain_ItemKey_IDKey in Hk.
    + now apply plain_ItemKey_LatestKey in Hk.
  - intros ns0 ID0 v Hns0 HID0 Hsome.
    apply Howner in Hsome as [Hsome|(-> & -> & Hv)]; [| | assumption ..].
    + apply Hold. exact (consistent_item s Hs ns0 ID0 v Hns0 HID0 Hsome).
    + rewrite (proj1 (Hrec v Hv)). eauto.
  - intros ns0 ID1 ID2 v Hns0 HID1 HID2 H1 H2.
    apply Howner in H1 as [H1|(-> & -> & Hv1)]; [| | assumption ..];
      apply Howner in H2 as [H2|(Hns2 & -> & Hv2)]; try assumption.
    + exact (consistent_one_owner s Hs ns0 ID1 ID2 v Hns0 HID1 HID2 H1 H2).
    + subst ns0. now destruct (Hfresh' ID1 v HID1 Hv2).
    + now destruct (Hfresh' ID2 v HID2 Hv1).
    + reflexivity.
  - intros ns0 Hns0. destruct (decide (ns0 = ns)) as [->|Hne].
    + split; intros _; [| exact Hcur].
      exists lastItem. rewrite (proj1 (Hrec lastItem Hlast)). eauto.
    + rewrite Hother.
      * rewrite (consistent_cursor s Hs ns0 Hns0).
        split; intros [v Hv]; exists v.
        -- rewrite Hother; [exact Hv | | |].
           ++ intros y [? _]%plain_ItemKey_inj; auto.
           ++ intros y. now apply plain_ItemKey_IDKey.
           ++ now apply plain_ItemKey_LatestKey.
        -- rewrite Hother in Hv; [exact Hv | | |].
           ++ intros y [? _]%plain_ItemKey_inj; auto.
           ++ intros y. now apply plain_ItemKey_IDKey.
           ++ now apply plain_ItemKey_LatestKey.
      * intros y Hy. symmetry in Hy.
        now apply plain_ItemKey_LatestKey in Hy.
      * intros y Hy. symmetry in Hy. now apply plain_IDKey_LatestKey in Hy.
      * intros ?%plain_LatestKey_inj; auto.
Qed.

(** What [Delete] does on storage that holds pools: it removes the
    records of the items the owner holds, and the cursor with the last
    item of the namespace. *)
Lemma Delete_pool (s : gmap string string) (ns ID : string) :
  consistent s -> noSlash ns = true -> noSlash ID = true ->
  exists items,
    (forall v, v ∈ items <-> is_Some (s !! IDKeyFormat ns ID (Itoa v))) /\
    Service.Delete ns ID s =
    (Ok tt,
     match microstorage.values (ItemListKeyFormat ns) (removed ns ID s items)
     with
     | [] => delete (LatestKeyFormat ns) (removed ns ID s items)
     | _ => removed ns ID s items
     end).
Proof.
  intros Hs Hns HID.
  destruct (owner_items s ns ID Hs Hns HID) as (items & Hconv & Hitems).
  exists items. split; [exact Hitems |].
  rewrite Delete_run, Hconv, delete_run. cbv zeta.
  assert (Hid : delete (IDListKeyFormat ns ID) (removed ns ID s items)
                = removed ns ID s items).
  { apply delete_id, removed_lookup_None. now apply consistent_IDListKey. }
  rewrite Hid.
  destruct (microstorage.values (ItemListKeyFormat ns) _); [| reflexivity].
  f_equal. f_equal. apply delete_id, removed_lookup_None.
  now apply consistent_ItemListKey.
Qed.

(** [Delete] keeps the pools. *)
Lemma Delete_consistent (ns ID : string) (s s' : gmap string string) :
  consistent s -> noSlash ns = true -> noSlash ID = true ->
  Service.Delete ns ID s = (Ok tt, s') -> consistent s'.
Proof.
  intros Hs Hns HID Hdelete.
  destruct (Delete_pool s ns ID Hs Hns HID) as (items & Hitems & Hrun).
  rewrite Hrun in Hdelete. injection Hdelete as Hs'.
  set (r := removed ns ID s items) in *.
  assert (Hsub : forall k x, s' !! k = Some x -> r !! k = Some x).
  { intros k x. rewrite <- Hs'.
    destruct (microstorage.values (ItemListKeyFormat ns) r); [| auto].
    now intros [_ H]%lookup_delete_Some. }
  assert (Hsame : forall k, k <> LatestKeyFormat ns -> s' !! k = r !! k).
  { intros k Hk. rewrite <- Hs'.
    destruct (microstorage.values (ItemListKeyFormat ns) r);
      [| reflexivity].
    apply lookup_delete_ne. auto. }
  assert (Hr : forall k x, r !! k = Some x -> s !! k = Some x).
  { intros k x. apply removed_lookup_Some. }
  assert (HkeepID : forall ns0 ID0 v,
             noSlash ns0 = true -> noSlash ID0 = true ->
             (ns0 = ns -> ID0 = ID -> v ∉ items) ->
             s' !! IDKeyFormat ns0 ID0 (Itoa v)
             = s !! IDKeyFormat ns0 ID0 (Itoa v)).
  { intros ns0 ID0 v Hns0 HID0 Hv.
    rewrite Hsame by now apply plain_IDKey_LatestKey.
    apply removed_keep.
    - intros w _ Hk. symmetry in Hk. now apply plain_ItemKey_IDKey in Hk.
    - intros w Hw Hk.
      apply plain_IDKey_inj in Hk as (-> & -> & ->%Itoa_inj); auto.
      now apply Hv. }
  assert (HkeepItem : forall ns0 v,
             noSlash ns0 = true -> (ns0 = ns -> v ∉ items) ->
             s' !! ItemKeyFormat ns0 (Itoa v)
             = s !! ItemKeyFormat ns0 (Itoa v)).
  { intros ns0 v Hns0 Hv.
    rewrite Hsame by now apply plain_ItemKey_LatestKey.
    apply removed_keep.
    - intros w Hw Hk.
      apply plain_ItemKey_inj in Hk as (-> & ->%Itoa_inj); auto.
      now apply Hv.
    - intros w _ Hk. now apply plain_ItemKey_IDKey in Hk. }
  split.
  - intros k x Hk. exact (consistent_bindings s Hs _ _ (Hr _ _ (Hsub _ _ Hk))).
  - intros ns0 v Hns0 [x Hx].
    destruct (consistent_owner s Hs ns0 v Hns0
                (ex_intro _ x (Hr _ _ (Hsub _ _ Hx))))
      as (ID0 & HID0 & Hsome).
    exists ID0. split; [exact HID0 |].
    rewrite HkeepID; [exact Hsome | assumption ..|].
    intros -> -> Hv. apply Hsub in Hx. unfold r in Hx.
    rewrite (removed_ItemKey ns ID items s v Hv) in Hx. discriminate.
  - intros ns0 ID0 v Hns0 HID0 [x Hx].
    pose proof (Hr _ _ (Hsub _ _ Hx)) as Hxs.
    rewrite HkeepItem; [| assumption |].
    + apply (consistent_item s Hs ns0 ID0 v Hns0 HID0). eauto.
    + intros -> Hv. pose proof (proj1 (Hitems v) Hv) as Hown.
      assert (ID0 = ID) as ->.
      { apply (consistent_one_owner s Hs ns ID0 ID v); eauto. }
      apply Hsub in Hx. unfold r in Hx.
      rewrite (removed_IDKey ns ID items s v Hv) in Hx. discriminate.
  - intros ns0 ID1 ID2 v Hns0 HID1 HID2 [x1 H1] [x2 H2].
    apply (consistent_one_owner s Hs ns0 ID1 ID2 v); eauto.
  - intros ns0 Hns0. destruct (decide (ns0 = ns)) as [->|Hne].
    + destruct (microstorage.values (ItemListKeyFormat ns) r) as [|x l]
        eqn:Hval.
      * split.
        -- intros [x Hx]. rewrite <- Hs', lookup_delete_eq in Hx.
           discriminate.
        -- intros (v & x & Hx). apply Hsub in Hx.
           rewrite values_nil in Hval. apply Hval in Hx.
           rewrite below_ItemList_ItemKey in Hx. discriminate.
      * assert (Hx : x ∈ microstorage.values (ItemListKeyFormat ns) r)
          by (rewrite Hval; apply list_elem_of_here).
        apply elem_of_values in Hx as (k & Hk & Hb).
        apply below_ItemList_inv in Hb as [rest ->].
        destruct (binding_ItemKey s ns rest x Hs Hns (Hr _ _ Hk))
          as [-> (v & _ & ->)].
        split; intros _.
        -- exists v. rewrite <- Hs'. eauto.
        -- rewrite <- Hs'. unfold r. rewrite removed_keep.
           ++ apply (consistent_cursor s Hs ns Hns). exists v. eauto.
           ++ intros w _ Hw. symmetry in Hw.
              now apply ItemKey_LatestKey in Hw.
           ++ intros w _ Hw. symmetry in Hw.
              now apply IDKey_LatestKey in Hw.
    + rewrite Hsame by (intros ?%plain_LatestKey_inj; auto).
      unfold r. rewrite removed_keep.
      * rewrite (consistent_cursor s Hs ns0 Hns0).
        split; intros [v Hv]; exists v;
          [rewrite HkeepItem | rewrite HkeepItem in Hv]; auto;
          intros; contradiction.
      * intros w _ Hw. symmetry in Hw.
        now apply plain_ItemKey_LatestKey in Hw.
      * intros w _ Hw. symmetry in Hw. now apply plain_IDKey_LatestKey in Hw.
Qed.

Lemma after_consistent (c : call) (s s' : gmap string string) :
  plainCall c = true -> consistent s -> after c s = Some s' ->
  consistent s'.
Proof.
  destruct c as [ns ID num min max|ns ID]; cbn [plainCall after];
    intros Hplain Hs.
  - apply andb_prop in Hplain as [Hplain Hmax2].
    apply andb_prop in Hplain as [Hplain Hmax1].
    apply andb_prop in Hplain as [Hns HID].
    destruct (Service.Create ns ID num min max s) as [[items|e| |] s1]
      eqn:Hcreate; intros [= <-].
    + apply (Create_consistent ns ID num min max s items s1); auto.
      unfold is_int. lia.
    + apply Create_Err in Hcreate. now subst s1.
  - apply andb_prop in Hplain as [Hns HID].
    destruct (Delete_pool s ns ID Hs Hns HID) as (items & _ & Hrun).
    rewrite Hrun. intros [= <-].
    exact (Delete_consistent ns ID s _ Hs Hns HID Hrun).
Qed.

Lemma history_step (calls : list call) (s0 s : gmap string string) :
  forallb plainCall calls = true -> consistent s0 ->
  history calls s0 = Some s -> consistent s.
Proof.
  revert s0. induction calls as [|c calls IH]; intros s0; cbn [forallb history].
  - now intros _ Hs [= <-].
  - intros [Hc Hcalls]%andb_prop Hs.
    destruct (after c s0) as [s1|] eqn:Hafter; [| discriminate].
    apply IH; [exact Hcalls |].
    exact (after_consistent c s0 s1 Hc Hs Hafter).
Qed.

(** X13: whatever sequence of [Create] and [Delete] calls with slash-free
    namespaces and owners has run on storage that was empty, the storage
    holds nothing but records and cursors of the service, each with a
    printed [int]; every item of a namespace has an owner, and one only;
    every item of an owner is an item of its namespace; and a namespace
    has a cursor exactly while it has items. *)
Theorem history_consistent (calls : list call) (s : gmap string string) :
  forallb plainCall calls = true -> history calls ∅ = Some s ->
  consistent s.
Proof.
  intros Hcalls. apply history_step; [exact Hcalls | apply consistent_empty].
Qed.

(** On storage that holds pools, [Delete] takes away the records of the
    items the owner holds, and nothing else but the cursor. *)
Lemma Delete_pool_lookup (ns ID : string) (s s' : gmap string string) :
  consistent s -> noSlash ns = true -> noSlash ID = true ->
  Service.Delete ns ID s = (Ok tt, s') ->
  exists items,
    (forall v, v ∈ items <-> is_Some (s !! IDKeyFormat ns ID (Itoa v))) /\
    forall k, k <> LatestKeyFormat ns ->
              s' !! k = removed ns ID s items !! k.
Proof.
  intros Hs Hns HID Hdelete.
  destruct (Delete_pool s ns ID Hs Hns HID) as (items & Hitems & Hrun).
  rewrite Hrun in Hdelete. injection Hdelete as <-.
  exists items. split; [exact Hitems |]. intros k Hk.
  destruct (microstorage.values (ItemListKeyFormat ns) _); [| reflexivity].
  apply lookup_delete_ne. auto.
Qed.

(** X14: on storage built by slash-free calls, [Delete] never fails; the
    owner holds nothing afterwards, the items in use in the namespace are
    those that were in use and that the owner did not hold, and the
    records of the other owners are as they were. *)
Theorem Delete_in_pool (calls : list call) (s : gmap string string)
  (ns ID : string) :
  forallb plainCall calls = true -> history calls ∅ = Some s ->
  noSlash ns = true -> noSlash ID = true ->
  exists s',
    Service.Delete ns ID s = (Ok tt, s') /\
    (forall v, s' !! IDKeyFormat ns ID (Itoa v) = None) /\
    (forall v, is_Some (s' !! ItemKeyFormat ns (Itoa v)) <->
               is_Some (s !! ItemKeyFormat ns (Itoa v)) /\
               ~ is_Some (s !! IDKeyFormat ns ID (Itoa v))) /\
    (forall ID' v, noSlash ID' = true -> ID' <> ID ->
       s' !! IDKeyFormat ns ID' (Itoa v) = s !! IDKeyFormat ns ID' (Itoa v)).
Proof.
  intros Hcalls Hhistory Hns HID.
  pose proof (history_step calls ∅ s Hcalls consistent_empty Hhistory) as Hs.
  destruct (Delete_pool s ns ID Hs Hns HID) as (items0 & _ & Hrun).
  eexists. split; [exact Hrun |].
  destruct (Delete_pool_lookup ns ID s _ Hs Hns HID Hrun)
    as (items & Hitems & Hsame).
  set (s' := match microstorage.values _ _ with [] => _ | _ => _ end) in *.
  clearbody s'. clear items0.
  assert (Hkeep : forall v, v ∉ items ->
             s' !! ItemKeyFormat ns (Itoa v) = s !! ItemKeyFormat ns (Itoa v)).
  { intros v Hv. rewrite Hsame by apply ItemKey_LatestKey.
    apply removed_keep.
    - intros w Hw ->%ItemKey_inj%Itoa_inj. contradiction.
    - intros w _ Hk. now apply ItemKey_IDKey in Hk. }
  split; [| split].
  - intros v. rewrite Hsame by apply IDKey_LatestKey.
    destruct (decide (v ∈ items)) as [Hv|Hv]; [now apply removed_IDKey |].
    rewrite removed_keep.
    + rewrite Hitems in Hv. now apply eq_None_not_Some.
    + intros w _ Hk. symmetry in Hk. now apply ItemKey_IDKey in Hk.
    + intros w Hw ->%IDKey_inj%Itoa_inj. contradiction.
  - intros v. rewrite <- Hitems.
    destruct (decide (v ∈ items)) as [Hv|Hv].
    + rewrite Hsame by apply ItemKey_LatestKey.
      rewrite (removed_ItemKey ns ID items s v Hv).
      split; [intros [x Hx]; discriminate | tauto].
    + rewrite (Hkeep v Hv). tauto.
  - intros ID' v HID' Hne. rewrite Hsame by apply IDKey_LatestKey.
    apply removed_keep.
    + intros w _ Hk. symmetry in Hk. now apply ItemKey_IDKey in Hk.
    + intros w _ Hk. apply plain_IDKey_inj in Hk as (_ & Hk & _); auto.
Qed.

Lemma nextItem_invalid (used : list Z) (min max latest : Z) :
  ~ validArgs min max latest ->
  nextItem used min max latest = Err executionFailedError.
Proof.
  intros Hinvalid.
  destruct (nextItem used min max latest) as [v|e| |] eqn:H.
  1,3,4: exfalso; apply Hinvalid, (nextItem_not_failed used);
    rewrite H; discriminate.
  destruct e; try reflexivity; exfalso;
    apply Hinvalid, (nextItem_not_failed used); rewrite H; discriminate.
Qed.

(** What [Create] computes. *)
Lemma Create_run (namespace ID : string) (num min max : Z)
  (s : gmap string string) :
  Service.Create namespace ID num min max s =
  match stringsToInts (microstorage.values (ItemListKeyFormat namespace) s)
  with
  | Ok used =>
      match Atoi (default (Itoa latestItemException)
                          (s !! LatestKeyFormat namespace)) with
      | Ok latest =>
          match Service.allocate (Z.to_nat num) used [] min max latest with
          | Ok [] => (Panic, s)
          | Ok items =>
              (Ok items,
               <[LatestKeyFormat namespace := Itoa (List.last items 0)]>
                 (written namespace ID s items))
          | Err e => (Err e, s)
          | Panic => (Panic, s)
          | OutOfFuel => (OutOfFuel, s)
          end
      | Err e => (Err e, s)
      | Panic => (Panic, s)
      | OutOfFuel => (OutOfFuel, s)
      end
  | Err e => (Err e, s)
  | Panic => (Panic, s)
  | OutOfFuel => (OutOfFuel, s)
  end.
Proof.
  unfold Service.Create, bind at 1. rewrite used_run.
  destruct (stringsToInts _) as [used| | |]; try reflexivity.
  unfold bind at 1. rewrite latest_run.
  destruct (Atoi _) as [latest| | |]; try reflexivity.
  unfold bind at 1, lift.
  destruct (Service.allocate (Z.to_nat num) used [] min max latest)
    as [items| | |]; try reflexivity.
  unfold bind, ret.
  destruct items as [|lastItem front _] using rev_ind; [reflexivity |].
  rewrite create_run, last_last.
  destruct (front ++ [lastItem]) eqn:Hitems; [| reflexivity].
  now apply app_nil in Hitems as [_ ?].
Qed.

(** X15: on storage built by slash-free calls, [Create] for one item or
    more, with [max] below the largest [int], reads the used items and
    the cursor without an error; with bounds and cursor that [nextItem]
    accepts, it returns a batch or fails with [capacityReachedError]
    and writes nothing; otherwise it fails with [executionFailedError]
    and writes nothing. It does not panic. *)
Theorem Create_in_pool (calls : list call) (s : gmap string string)
  (ns ID : string) (num min max : Z) :
  forallb plainCall calls = true -> history calls ∅ = Some s ->
  noSlash ns = true -> 1 <= num -> max < maxInt ->
  exists used latest,
    Service.used ns s = (Ok used, s) /\
    (forall v, v ∈ used <-> is_Some (s !! ItemKeyFormat ns (Itoa v))) /\
    Service.latest ns s = (Ok latest, s) /\
    (validArgs min max latest ->
     (exists items s', Service.Create ns ID num min max s = (Ok items, s')) \/
     Service.Create ns ID num min max s = (Err capacityReachedError, s)) /\
    (~ validArgs min max latest ->
     Service.Create ns ID num min max s = (Err executionFailedError, s)).
Proof.
  intros Hcalls Hhistory Hns Hnum Hmax.
  pose proof (history_step calls ∅ s Hcalls consistent_empty Hhistory) as Hs.
  destruct (used_items s ns Hs Hns) as (used & Hused & Hitems).
  destruct (latest_value s ns Hs Hns) as (latest & Hlatest & _).
  exists used, latest.
  split; [exact Hused | split; [exact Hitems | split; [exact Hlatest |]]].
  rewrite Create_run. rewrite used_run in Hused. rewrite latest_run in Hlatest.
  injection Hused as ->. injection Hlatest as ->.
  split.
  - intros Hvalid.
    destruct (allocate_valid (Z.to_nat num) used [] min max latest Hmax Hvalid)
      as [[items Halloc]|Halloc]; rewrite Halloc; [left | now right].
    apply allocate_Ok in Halloc as (new & Hnew & Hlen & _).
    destruct items as [|item items]; [| eauto].
    symmetry in Hnew. apply app_nil in Hnew as [_ ->]. simpl in Hlen. lia.
  - intros Hinvalid.
    destruct (Z.to_nat num) as [|n] eqn:Hn; [lia |].
    cbn [Service.allocate]. now rewrite nextItem_invalid.
Qed.

Lemma written_keep (namespace ID : string) (items : list Z)
  (s : gmap string string) (k : string) :
  (forall v, v ∈ items -> k <> ItemKeyFormat namespace (Itoa v)) ->
  (forall v, v ∈ items -> k <> IDKeyFormat namespace ID (Itoa v)) ->
  written namespace ID s items !! k = s !! k.
Proof.
  revert s. induction items as [|item items IH]; intros s Hitem Hid;
    [reflexivity |].
  rewrite written_cons, IH.
  - rewrite !lookup_insert_ne; [reflexivity | |]; apply not_eq_sym;
      [apply Hitem | apply Hid]; apply list_elem_of_here.
  - intros v Hv. apply Hitem. now apply list_elem_of_further.
  - intros v Hv. apply Hid. now apply list_elem_of_further.
Qed.

(** The items of a batch had no record. *)
Lemma Create_fresh (ns ID : string) (num min max : Z)
  (s : gmap string string) (items : list Z) (s' : gmap string string)
  (v : Z) :
  consistent s -> noSlash ns = true ->
  Service.Create ns ID num min max s = (Ok items, s') ->
  v ∈ items -> s !! ItemKeyFormat ns (Itoa v) = None.
Proof.
  intros Hs Hns Hcreate Hv.
  destruct (Create_allocated _ _ _ _ _ _ _ _ Hcreate)
    as (used & latest & _ & _ & Hused & _ & _ & Halloc & _ & _).
  destruct (allocated_distinct _ _ _ _ _ Halloc) as [_ Hfree].
  destruct (s !! ItemKeyFormat ns (Itoa v)) as [x|] eqn:Hx;
    [exfalso | reflexivity].
  destruct (binding_ItemKey s ns _ x Hs Hns Hx) as [<- _].
  apply (proj1 (Hfree v Hv)).
  exact (recorded_in_used _ _ _ _ Hused Hx).
Qed.

Lemma Delete_pool_Ok (s : gmap string string) (ns ID : string) :
  consistent s -> noSlash ns = true -> noSlash ID = true ->
  exists s', Service.Delete ns ID s = (Ok tt, s').
Proof.
  intros Hs Hns HID.
  destruct (Delete_pool s ns ID Hs Hns HID) as (items & _ & Hrun). eauto.
Qed.

(** X16: on storage built by slash-free calls, a [Create] for an owner
    whose listing is empty, followed by a [Delete] for this owner, leaves
    the storage as it was before the two calls when the namespace had no
    items; when it had, only the cursor has moved, to the last item of
    the batch. *)
Theorem Create_Delete_round_trip (calls : list call)
  (s : gmap string string) (ns ID : string) (num min max : Z)
  (items : list Z) (s1 : gmap string string) :
  forallb plainCall calls = true -> history calls ∅ = Some s ->
  noSlash ns = true -> noSlash ID = true -> is_int max ->
  microstorage.values (IDListKeyFormat ns ID) s = [] ->
  Service.Create ns ID num min max s = (Ok items, s1) ->
  Service.Delete ns ID s1
  = (Ok tt,
     match microstorage.values (ItemListKeyFormat ns) s with
     | [] => s
     | _ => <[LatestKeyFormat ns := Itoa (List.last items 0)]> s
     end).
Proof.
  intros Hcalls Hhistory Hns HID Hmax Hlisting Hcreate.
  pose proof (history_step calls ∅ s Hcalls consistent_empty Hhistory) as Hs.
  assert (Hnone : forall v, s !! IDKeyFormat ns ID (Itoa v) = None).
  { intros v. destruct (s !! IDKeyFormat ns ID (Itoa v)) as [x|] eqn:Hx;
      [exfalso | reflexivity].
    rewrite values_nil in Hlisting. apply Hlisting in Hx.
    rewrite below_IDList_IDKey in Hx. discriminate. }
  pose proof (Create_consistent ns ID num min max s items s1
                Hs Hns HID Hmax Hcreate) as Hs1.
  destruct (Delete_pool_Ok s1 ns ID Hs1 Hns HID) as [s2 Hrun].
  rewrite Hrun. f_equal.
  pose proof (Delete_consistent ns ID s1 s2 Hs1 Hns HID Hrun) as Hs2.
  pose proof (fun k x => Delete_lookup_Some ns ID s1 s2 k x Hrun) as Hsub.
  destruct (Delete_pool_lookup ns ID s1 s2 Hs1 Hns HID Hrun)
    as (items' & Hitems' & Hsame).
  destruct (Create_allocated _ _ _ _ _ _ _ _ Hcreate)
    as (used & latest & front & lastItem & _ & _ & _ & _ & Hitems & Hs1eq).
  assert (Hown : forall v, v ∈ items' <-> v ∈ items).
  { intros v. rewrite Hitems'. split.
    - intros [x Hx].
      apply (Create_lookup_inv _ _ _ _ _ _ _ _ _ _ Hcreate) in Hx
        as [Hx|[[Hk|[Hk|Hk]] (w & Hw & ->)]].
      + rewrite Hnone in Hx. discriminate.
      + symmetry in Hk. now apply ItemKey_IDKey in Hk.
      + now apply IDKey_inj, Itoa_inj in Hk as ->.
      + now apply IDKey_LatestKey in Hk.
    - intros Hv. rewrite Hs1eq.
      rewrite (proj2 (Create_records ns ID lastItem s items v Hv)). eauto. }
  assert (Hrest : forall k, k <> LatestKeyFormat ns -> s2 !! k = s !! k).
  { intros k Hk. rewrite Hsame by exact Hk.
    destruct (decide (k ∈ (fun v => ItemKeyFormat ns (Itoa v)) <$> items'))
      as [Hin|Hnin].
    { apply list_elem_of_fmap in Hin as (v & -> & Hv).
      rewrite removed_ItemKey by exact Hv. symmetry.
      apply (Create_fresh ns ID num min max s items s1 v Hs Hns Hcreate).
      now apply Hown. }
    destruct (decide (k ∈ (fun v => IDKeyFormat ns ID (Itoa v)) <$> items'))
      as [Hin|Hnin'].
    { apply list_elem_of_fmap in Hin as (v & -> & Hv).
      rewrite removed_IDKey by exact Hv. symmetry. apply Hnone. }
    assert (Hitem : forall v, v ∈ items' -> k <> ItemKeyFormat ns (Itoa v)).
    { intros v Hv ->. apply Hnin, list_elem_of_fmap. eauto. }
    assert (Hid : forall v, v ∈ items' -> k <> IDKeyFormat ns ID (Itoa v)).
    { intros v Hv ->. apply Hnin', list_elem_of_fmap. eauto. }
    rewrite removed_keep by assumption.
    rewrite Hs1eq, lookup_insert_ne by auto.
    apply written_keep; intros v Hv; [apply Hitem | apply Hid];
      now apply Hown. }
  assert (Hitem2 : forall v, s2 !! ItemKeyFormat ns (Itoa v)
                             = s !! ItemKeyFormat ns (Itoa v)).
  { intros v. apply Hrest, ItemKey_LatestKey. }
  destruct (microstorage.values (ItemListKeyFormat ns) s) as [|x l] eqn:Hval.
  - assert (Hnoitem : forall v, s !! ItemKeyFormat ns (Itoa v) = None).
    { intros v. destruct (s !! ItemKeyFormat ns (Itoa v)) as [x|] eqn:Hx;
        [exfalso | reflexivity].
      rewrite values_nil in Hval. apply Hval in Hx.
      rewrite below_ItemList_ItemKey in Hx. discriminate. }
    apply map_eq. intros k.
    destruct (decide (k = LatestKeyFormat ns)) as [->|Hk];
      [| now apply Hrest].
    transitivity (@None string).
    + apply eq_None_not_Some. intros Hsome.
      apply (consistent_cursor s2 Hs2 ns Hns) in Hsome as [v [x Hx]].
      rewrite Hitem2, Hnoitem in Hx. discriminate.
    + symmetry. apply eq_None_not_Some. intros Hsome.
      apply (consistent_cursor s Hs ns Hns) in Hsome as [v [x Hx]].
      rewrite Hnoitem in Hx. discriminate.
  - assert (Hx : x ∈ microstorage.values (ItemListKeyFormat ns) s)
      by (rewrite Hval; apply list_elem_of_here).
    apply elem_of_values in Hx as (k0 & Hk0 & Hb).
    apply below_ItemList_inv in Hb as [rest ->].
    destruct (binding_ItemKey s ns rest x Hs Hns Hk0) as [-> (v & _ & ->)].
    apply map_eq. intros k.
    destruct (decide (k = LatestKeyFormat ns)) as [->|Hk].
    + rewrite lookup_insert_eq.
      assert (Hsome : is_Some (s2 !! LatestKeyFormat ns)).
      { apply (consistent_cursor s2 Hs2 ns Hns). exists v.
        rewrite Hitem2. eauto. }
      destruct Hsome as [y Hy]. rewrite Hy. apply Hsub in Hy.
      rewrite Hs1eq, lookup_insert_eq in Hy. injection Hy as <-.
      now rewrite Hitems, last_last.
    + rewrite lookup_insert_ne by auto. now apply Hrest.
Qed.

(** ** Namespaces *)

Lemma namespace_keys_differ (ns ns0 r r0 : string) :
  noSlash ns = true -> noSlash ns0 = true -> ns <> ns0 ->
  "range-pool/" +:+ ns +:+ String "/" r
  <> "range-pool/" +:+ ns0 +:+ String "/" r0.
Proof.
  intros Hns Hns0 Hne H. apply (String.app_inj "range-pool/") in H.
  apply (f_equal segments) in H. rewrite !segments_slash in H by assumption.
  now injection H.
Qed.

(** A listing depends on the bindings below its key only. *)
Lemma values_ext (dir : string) (s s' : gmap string string) :
  (forall k, microstorage.below dir k = true -> s' !! k = s !! k) ->
  microstorage.values dir s' = microstorage.values dir s.
Proof.
  intros Hsame.
  assert (Heq : filter (fun kv : string * string =>
                          microstorage.below dir kv.1 = true) s'
                = filter (fun kv : string * string =>
                            microstorage.below dir kv.1 = true) s).
  { apply map_filter_strong_ext_1. intros k x. simpl.
    split; intros [Hb Hx]; (split; [exact Hb |]).
    - now rewrite <- Hsame.
    - now rewrite Hsame. }
  unfold microstorage.values. now rewrite Heq.
Qed.

(** The result of [Create] depends on the listing of the namespace and on
    its cursor only, and the result of [Delete] on the listing of the
    owner. *)
Lemma Create_reads (namespace ID : string) (num min max : Z)
  (s1 s2 : gmap string string) :
  microstorage.values (ItemListKeyFormat namespace) s1
  = microstorage.values (ItemListKeyFormat namespace) s2 ->
  s1 !! LatestKeyFormat namespace = s2 !! LatestKeyFormat namespace ->
  (Service.Create namespace ID num min max s1).1
  = (Service.Create namespace ID num min max s2).1.
Proof.
  intros Hvalues Hlatest. rewrite !Create_run, Hvalues, Hlatest.
  destruct (stringsToInts _) as [used| | |]; try reflexivity.
  destruct (Atoi _) as [latest| | |]; try reflexivity.
  destruct (Service.allocate _ _ _ _ _ _) as [[|item items]| | |];
    reflexivity.
Qed.

Lemma Delete_reads (namespace ID : string) (s1 s2 : gmap string string) :
  microstorage.values (IDListKeyFormat namespace ID) s1
  = microstorage.values (IDListKeyFormat namespace ID) s2 ->
  (Service.Delete namespace ID s1).1 = (Service.Delete namespace ID s2).1.
Proof.
  intros Hvalues. rewrite !Delete_run, Hvalues.
  destruct (stringsToInts _) as [items| | |]; try reflexivity.
  rewrite !delete_run. cbv zeta.
  destruct (microstorage.values (ItemListKeyFormat namespace) _);
    destruct (microstorage.values (ItemListKeyFormat namespace) _);
    reflexivity.
Qed.

(** A call leaves the keys of the other namespaces as they were. *)
Lemma after_other_namespace (c : call) (ns0 rest : string)
  (s s' : gmap string string) :
  noSlash (namespaceOf c) = true -> noSlash ns0 = true ->
  namespaceOf c <> ns0 -> after c s = Some s' ->
  s' !! ("range-pool/" +:+ ns0 +:+ "/" +:+ rest)
  = s !! ("range-pool/" +:+ ns0 +:+ "/" +:+ rest).
Proof.
  destruct c as [ns ID num min max|ns ID]; cbn [namespaceOf after];
    intros Hns Hns0 Hne.
  - destruct (Service.Create ns ID num min max s) as [[items|e| |] s1]
      eqn:Hcreate; intros [= <-].
    + apply (Create_lookup_other _ _ _ _ _ _ _ _ _ Hcreate).
      * intros y Hk.
        exact (namespace_keys_differ ns ns0 ("item/" +:+ y) rest
                 Hns Hns0 Hne (eq_sym Hk)).
      * intros y Hk.
        exact (namespace_keys_differ ns ns0
                 ("id/" +:+ ID +:+ "/item/" +:+ y) rest
                 Hns Hns0 Hne (eq_sym Hk)).
      * intros Hk.
        exact (namespace_keys_differ ns ns0 "latest" rest
                 Hns Hns0 Hne (eq_sym Hk)).
    + apply Create_Err in Hcreate. now subst s1.
  - destruct (Service.Delete ns ID s) as [[[]|e| |] s1] eqn:Hdelete;
      intros [= <-].
    + apply (Delete_lookup_other _ _ _ _ _ Hdelete).
      * intros y Hk.
        exact (namespace_keys_differ ns ns0 ("item/" +:+ y) rest
                 Hns Hns0 Hne (eq_sym Hk)).
      * intros y Hk.
        exact (namespace_keys_differ ns ns0
                 ("id/" +:+ ID +:+ "/item/" +:+ y) rest
                 Hns Hns0 Hne (eq_sym Hk)).
      * intros Hk.
        exact (namespace_keys_differ ns ns0 ("id/" +:+ ID +:+ "/item") rest
                 Hns Hns0 Hne (eq_sym Hk)).
      * intros Hk.
        exact (namespace_keys_differ ns ns0 "item" rest
                 Hns Hns0 Hne (eq_sym Hk)).
      * intros Hk.
        exact (namespace_keys_differ ns ns0 "latest" rest
                 Hns Hns0 Hne (eq_sym Hk)).
    + apply Delete_Err in Hdelete as [-> _]. reflexivity.
Qed.

(** X17: namespaces without a slash are isolated. A call on one of them
    that returns leaves every key of another one as it was, and with it
    the result of every [Create] and of every [Delete] on the other
    namespace, whatever the owners are. *)
Theorem namespaces_isolated (c : call) (ns0 : string)
  (s s' : gmap string string) :
  noSlash (namespaceOf c) = true -> noSlash ns0 = true ->
  namespaceOf c <> ns0 -> after c s = Some s' ->
  (forall rest,
      s' !! ("range-pool/" +:+ ns0 +:+ "/" +:+ rest)
      = s !! ("range-pool/" +:+ ns0 +:+ "/" +:+ rest)) /\
  (forall ID num min max,
      (Service.Create ns0 ID num min max s').1
      = (Service.Create ns0 ID num min max s).1) /\
  (forall ID, (Service.Delete ns0 ID s').1 = (Service.Delete ns0 ID s).1).
Proof.
  intros Hns Hns0 Hne Hafter.
  pose proof (fun rest => after_other_namespace c ns0 rest s s'
                            Hns Hns0 Hne Hafter) as Hkeys.
  split; [exact Hkeys | split].
  - intros ID num min max. apply Create_reads.
    + apply values_ext. intros k [rest ->]%below_ItemList_inv.
      exact (Hkeys ("item/" +:+ rest)).
    + exact (Hkeys "latest").
  - intros ID. apply Delete_reads, values_ext.
    intros k [rest ->]%below_IDList_inv.
    exact (Hkeys ("id/" +:+ ID +:+ "/item/" +:+ rest)).
Qed.

(** X18: names with a slash overlap. The namespace-level records of the
    namespace [ns/id/ID] are the records of the owner [ID] of the
    namespace [ns], and the records of the owner [ID/item/sub] lie below
    the list key of the owner [ID]: after a [Create] for either, the
    listing of the owner [ID] of [ns], which [Delete] reads, holds the
    items of the batch. *)
Theorem slash_names_overlap (ns ID sub other : string) (num min max : Z)
  (s : gmap string string) (items : list Z) (s' : gmap string string) :
  (Service.Create (ns +:+ "/id/" +:+ ID) other num min max s = (Ok items, s')
   \/ Service.Create ns (ID +:+ "/item/" +:+ sub) num min max s
      = (Ok items, s')) ->
  forall v, v ∈ items ->
            Itoa v ∈ microstorage.values (IDListKeyFormat ns ID) s'.
Proof.
  intros Hcreate v Hv. apply elem_of_values.
  destruct Hcreate as [Hcreate|Hcreate];
    apply Create_allocated in Hcreate
      as (_ & _ & _ & lastItem & _ & _ & _ & _ & _ & ->).
  - exists (ItemKeyFormat (ns +:+ "/id/" +:+ ID) (Itoa v)). split.
    + exact (proj1 (Create_records _ _ _ _ _ _ Hv)).
    + replace (ItemKeyFormat (ns +:+ "/id/" +:+ ID) (Itoa v))
        with (IDKeyFormat ns ID (Itoa v)); [apply below_IDList_IDKey |].
      unfold ItemKeyFormat, IDKeyFormat. now rewrite !string_app_assoc.
  - exists (IDKeyFormat ns (ID +:+ "/item/" +:+ sub) (Itoa v)). split.
    + exact (proj2 (Create_records _ _ _ _ _ _ Hv)).
    + replace (IDKeyFormat ns (ID +:+ "/item/" +:+ sub) (Itoa v))
        with (IDKeyFormat ns ID (sub +:+ "/item/" +:+ Itoa v));
        [apply below_IDList_IDKey |].
      unfold IDKeyFormat. now rewrite !string_app_assoc.
Qed.

(** ** The capacity of a range and the errors of [Create] *)

(** An item that is handed out takes one item off the free ones. *)
Lemma freeItems_step (used : list Z) (min max v : Z) :
  (length (freeItems used min max)
   <= S (length (freeItems (sortInts used ++ [v]) min max)))%nat.
Proof.
  apply (submseteq_length _ (v :: _)). apply NoDup_submseteq.
  - apply NoDup_filter, NoDup_seqZ.
  - intros x [Hx Hin]%list_elem_of_filter.
    destruct (decide (x = v)) as [->|Hne]; [apply list_elem_of_here |].
    apply list_elem_of_further, list_elem_of_filter. split; [| exact Hin].
    rewrite elem_of_app, elem_of_sortInts, list_elem_of_singleton. tauto.
Qed.

Lemma allocate_within (n : nat) (used items : list Z) (min max latest : Z) :
  max < maxInt -> validArgs min max latest ->
  (n <= length (freeItems used min max))%nat ->
  exists r, Service.allocate n used items min max latest = Ok r.
Proof.
  intros Hmax Hvalid. revert used items.
  induction n as [|n IH]; intros used items Hn; cbn [Service.allocate];
    [eauto |].
  destruct (nextItem_returns used min max latest Hmax Hvalid)
    as [[v Hv]|Hcap].
  - rewrite Hv. apply IH. pose proof (freeItems_step used min max v). lia.
  - exfalso. apply nextItem_capacity_inv in Hcap; [| exact Hmax].
    destruct (freeItems used min max) as [|x l] eqn:Hfree;
      [simpl in Hn; lia |].
    assert (Hx : x ∈ freeItems used min max)
      by (rewrite Hfree; apply list_elem_of_here).
    apply list_elem_of_filter in Hx as [Hx Hin]. apply elem_of_seqZ in Hin.
    apply Hx, Hcap. lia.
Qed.

(** X19: when [max] is not the largest [int], a [Create] that asks for
    one item or more, and for no more than are free in [min..max],
    returns a batch of [num] items. *)
Theorem Create_within_capacity (namespace ID : string) (num min max : Z)
  (s : gmap string string) (used : list Z) (latest : Z) :
  max < maxInt -> validArgs min max latest ->
  Service.used namespace s = (Ok used, s) ->
  Service.latest namespace s = (Ok latest, s) ->
  1 <= num <= Z.of_nat (length (freeItems used min max)) ->
  exists items s',
    Service.Create namespace ID num min max s = (Ok items, s') /\
    Z.of_nat (length items) = num.
Proof.
  intros Hmax Hvalid Hused Hlatest Hnum.
  rewrite used_run in Hused. rewrite latest_run in Hlatest.
  injection Hused as Hused. injection Hlatest as Hlatest.
  rewrite Create_run, Hused, Hlatest.
  destruct (allocate_within (Z.to_nat num) used [] min max latest Hmax Hvalid)
    as [items Halloc]; [lia |].
  rewrite Halloc. apply allocate_Ok in Halloc as (new & Hnew & Hlen & _).
  simpl in Hnew. subst new.
  destruct items as [|item items]; [simpl in Hlen; lia |].
  eexists _, _. split; [reflexivity | lia].
Qed.


(** ** What [Create] hands out *)

(** X21: no double allocation. On storage built by slash-free calls, an
    item that is in the listing of an owner is in no batch that [Create]
    returns for the namespace, whoever asks. *)
Theorem held_item_not_allocated (calls : list call)
  (s : gmap string string) (ns ID other : string) (num min max : Z)
  (items : list Z) (s' : gmap string string) (v : Z) :
  forallb plainCall calls = true -> history calls ∅ = Some s ->
  noSlash ns = true -> noSlash ID = true ->
  Itoa v ∈ microstorage.values (IDListKeyFormat ns ID) s ->
  Service.Create ns other num min max s = (Ok items, s') ->
  v ∉ items.
Proof.
  intros Hcalls Hhistory Hns HID Hheld Hcreate Hv.
  pose proof (history_step calls ∅ s Hcalls consistent_empty Hhistory) as Hs.
  apply elem_of_values in Hheld as (k & Hk & Hb).
  apply below_IDList_inv in Hb as [rest ->].
  destruct (binding_IDKey s ns ID rest _ Hs Hns HID Hk) as [-> _].
  destruct (consistent_item s Hs ns ID v Hns HID (ex_intro _ _ Hk))
    as [x Hx].
  rewrite (Create_fresh ns other num min max s items s' v Hs Hns Hcreate Hv)
    in Hx.
  discriminate.
Qed.

(** X22: a [Create] that returns a batch was asked for one item or more
    out of a range with [0 <= min < max], and when [max] is not the
    largest [int], every item of the batch lies in [min..max]. *)
Theorem Create_items_in_range (namespace ID : string) (num min max : Z)
  (s : gmap string string) (items : list Z) (s' : gmap string string) :
  Service.Create namespace ID num min max s = (Ok items, s') ->
  1 <= num /\ 0 <= min < max /\
  (max < maxInt -> forall v, v ∈ items -> min <= v <= max).
Proof.
  intros Hcreate.
  apply Create_allocated in Hcreate
    as (used & latest & front & lastItem & _ & _ & Hlen & Halloc & -> & _).
  rewrite length_app in Hlen. simpl in Hlen.
  split; [lia | split].
  - destruct front as [|item front]; simpl in Halloc;
      destruct Halloc as [Hnext _];
      apply nextItem_Ok_valid in Hnext as (? & ? & ? & _); lia.
  - intros Hmax. exact (allocated_in_range _ _ _ _ _ Hmax Halloc).
Qed.

(** ** The further theorems at concrete calls *)

(** [stringsToInts_Itoa] at the items of [Test_Service_Search]. *)
Lemma stringsToInts_Itoa_witness :
  Forall is_int [2; 3] /\ stringsToInts (Itoa <$> [2; 3]) = Ok [2; 3].
Proof.
  assert (H : Forall is_int [2; 3]).
  { constructor; [unfold is_int, minInt, maxInt; lia |].
    constructor; [unfold is_int, minInt, maxInt; lia | constructor]. }
  split; [exact H | exact (stringsToInts_Itoa [2; 3] H)].
Defined.

(** [nextItem_result] at a row of [Test_nextItem]. *)
Lemma nextItem_result_witness :
  nextItem [3; 4; 6] 2 9 5 = Ok 7 /\
  (7 ∉ [3; 4; 6]) /\ 7 <> latestItemException /\
  (is_int 9 -> is_int 7) /\ (9 < maxInt -> 2 <= 7 <= 9).
Proof.
  assert (H : nextItem [3; 4; 6] 2 9 5 = Ok 7) by reflexivity.
  split; [exact H | exact (nextItem_result [3; 4; 6] 2 9 5 7 H)].
Defined.

(** [nextItem_order_irrelevant] at the used items of [Test_nextItem], in
    another order. *)
Lemma nextItem_order_irrelevant_witness :
  [6; 3; 4] ≡ₚ [3; 4; 6] /\
  nextItem [6; 3; 4] 2 9 5 = nextItem [3; 4; 6] 2 9 5 /\
  nextItem (sortInts [6; 3; 4]) 2 9 5 = nextItem [6; 3; 4] 2 9 5.
Proof.
  assert (H : [6; 3; 4] ≡ₚ [3; 4; 6])
    by exact (Permutation_cons_append [3; 4] 6).
  split; [exact H |].
  exact (nextItem_order_irrelevant [6; 3; 4] [3; 4; 6] 2 9 5 H).
Defined.

(** [Create_frame] at the first call of [Test_Service_Search]. *)
Lemma Create_frame_witness :
  Service.Create "test-namespace" "test-id" 2 2 9 ∅
  = (Ok [2; 3], two_items_store) /\
  (forall k, is_Some ((∅ : gmap string string) !! k) ->
             is_Some (two_items_store !! k)) /\
  (forall k,
      (forall y, k <> ItemKeyFormat "test-namespace" y) ->
      (forall y, k <> IDKeyFormat "test-namespace" "test-id" y) ->
      k <> LatestKeyFormat "test-namespace" ->
      two_items_store !! k = (∅ : gmap string string) !! k) /\
  (forall k x, two_items_store !! k = Some x ->
      (∅ : gmap string string) !! k = Some x \/
      ((k = ItemKeyFormat "test-namespace" x \/
        k = IDKeyFormat "test-namespace" "test-id" x \/
        k = LatestKeyFormat "test-namespace") /\
       exists v, v ∈ [2; 3] /\ x = Itoa v)).
Proof.
  assert (H : Service.Create "test-namespace" "test-id" 2 2 9 ∅
              = (Ok [2; 3], two_items_store)) by reflexivity.
  split; [exact H |].
  exact (Create_frame "test-namespace" "test-id" 2 2 9 ∅ [2; 3]
           two_items_store H).
Defined.

(** [Delete_frame] at the [Delete] of [Test_Service_Search]. *)
Lemma Delete_frame_witness :
  Service.Delete "test-namespace" "test-id" two_items_store = (Ok tt, ∅) /\
  (forall k x, (∅ : gmap string string) !! k = Some x ->
               two_items_store !! k = Some x) /\
  (forall k,
      (forall y, k <> ItemKeyFormat "test-namespace" y) ->
      (forall y, k <> IDKeyFormat "test-namespace" "test-id" y) ->
      k <> IDListKeyFormat "test-namespace" "test-id" ->
      k <> ItemListKeyFormat "test-namespace" ->
      k <> LatestKeyFormat "test-namespace" ->
      (∅ : gmap string string) !! k = two_items_store !! k).
Proof.
  assert (H : Service.Delete "test-namespace" "test-id" two_items_store
              = (Ok tt, ∅)) by reflexivity.
  split; [exact H |].
  exact (Delete_frame "test-namespace" "test-id" two_items_store ∅ H).
Defined.


(** [Delete_idempotent] at the [Delete] of [Test_Service_Search]. *)
Lemma Delete_idempotent_witness :
  ownerRecords "test-namespace" "test-id" two_items_store /\
  Service.Delete "test-namespace" "test-id" two_items_store = (Ok tt, ∅) /\
  Service.Delete "test-namespace" "test-id" ∅ = (Ok tt, ∅).
Proof.
  assert (H : Service.Delete "test-namespace" "test-id" two_items_store
              = (Ok tt, ∅)) by reflexivity.
  split; [exact ownerRecords_two_items | split; [exact H |]].
  exact (Delete_idempotent "test-namespace" "test-id" two_items_store ∅
           ownerRecords_two_items H).
Defined.

(** [history_consistent] after two owners took an item each and the
    first one gave its item back. *)
Lemma history_consistent_witness :
  forallb plainCall wrapped_history = true /\
  history wrapped_history ∅ = Some wrapped_store /\
  consistent wrapped_store.
Proof.
  assert (H1 : forallb plainCall wrapped_history = true) by reflexivity.
  assert (H2 : history wrapped_history ∅ = Some wrapped_store)
    by reflexivity.
  split; [exact H1 | split; [exact H2 |]].
  exact (history_consistent wrapped_history wrapped_store H1 H2).
Defined.

(** [Delete_in_pool] for the owner that is left. *)
Lemma Delete_in_pool_witness :
  forallb plainCall wrapped_history = true /\
  history wrapped_history ∅ = Some wrapped_store /\
  noSlash "ns" = true /\ noSlash "B" = true /\
  exists s',
    Service.Delete "ns" "B" wrapped_store = (Ok tt, s') /\
    (forall v, s' !! IDKeyFormat "ns" "B" (Itoa v) = None) /\
    (forall v, is_Some (s' !! ItemKeyFormat "ns" (Itoa v)) <->
               is_Some (wrapped_store !! ItemKeyFormat "ns" (Itoa v)) /\
               ~ is_Some (wrapped_store !! IDKeyFormat "ns" "B" (Itoa v))) /\
    (forall ID' v, noSlash ID' = true -> ID' <> "B" ->
       s' !! IDKeyFormat "ns" ID' (Itoa v)
       = wrapped_store !! IDKeyFormat "ns" ID' (Itoa v)).
Proof.
  assert (H1 : forallb plainCall wrapped_history = true) by reflexivity.
  assert (H2 : history wrapped_history ∅ = Some wrapped_store)
    by reflexivity.
  assert (H3 : noSlash "ns" = true) by reflexivity.
  assert (H4 : noSlash "B" = true) by reflexivity.
  split; [exact H1 | split; [exact H2 | split; [exact H3 |]]].
  split; [exact H4 |].
  exact (Delete_in_pool wrapped_history wrapped_store "ns" "B" H1 H2 H3 H4).
Defined.

(** [Create_in_pool] for a third owner. *)
Lemma Create_in_pool_witness :
  forallb plainCall wrapped_history = true /\
  history wrapped_history ∅ = Some wrapped_store /\
  noSlash "ns" = true /\ 1 <= 1 /\ 4 < maxInt /\
  exists used latest,
    Service.used "ns" wrapped_store = (Ok used, wrapped_store) /\
    (forall v, v ∈ used <->
               is_Some (wrapped_store !! ItemKeyFormat "ns" (Itoa v))) /\
    Service.latest "ns" wrapped_store = (Ok latest, wrapped_store) /\
    (validArgs 2 4 latest ->
     (exists items s',
         Service.Create "ns" "C" 1 2 4 wrapped_store = (Ok items, s')) \/
     Service.Create "ns" "C" 1 2 4 wrapped_store
     = (Err capacityReachedError, wrapped_store)) /\
    (~ validArgs 2 4 latest ->
     Service.Create "ns" "C" 1 2 4 wrapped_store
     = (Err executionFailedError, wrapped_store)).
Proof.
  assert (H1 : forallb plainCall wrapped_history = true) by reflexivity.
  assert (H2 : history wrapped_history ∅ = Some wrapped_store)
    by reflexivity.
  assert (H3 : noSlash "ns" = true) by reflexivity.
  assert (H4 : 1 <= 1) by lia.
  assert (H5 : 4 < maxInt) by reflexivity.
  split; [exact H1 | split; [exact H2 | split; [exact H3 |]]].
  split; [exact H4 | split; [exact H5 |]].
  exact (Create_in_pool wrapped_history wrapped_store "ns" "C" 1 2 4
           H1 H2 H3 H4 H5).
Defined.

(** [Create_Delete_round_trip] for the owner that gave its item back: it
    takes 4 and gives it back, and the cursor has moved from 3 to 4. *)
Lemma Create_Delete_round_trip_witness :
  forallb plainCall wrapped_history = true /\
  history wrapped_history ∅ = Some wrapped_store /\
  noSlash "ns" = true /\ noSlash "A" = true /\ is_int 4 /\
  microstorage.values (IDListKeyFormat "ns" "A") wrapped_store = [] /\
  Service.Create "ns" "A" 1 2 4 wrapped_store
  = (Ok [4], (Service.Create "ns" "A" 1 2 4 wrapped_store).2) /\
  Service.Delete "ns" "A" (Service.Create "ns" "A" 1 2 4 wrapped_store).2
  = (Ok tt,
     match microstorage.values (ItemListKeyFormat "ns") wrapped_store with
     | [] => wrapped_store
     | _ => <[LatestKeyFormat "ns" := Itoa (List.last [4] 0)]> wrapped_store
     end).
Proof.
  assert (H1 : forallb plainCall wrapped_history = true) by reflexivity.
  assert (H2 : history wrapped_history ∅ = Some wrapped_store)
    by reflexivity.
  assert (H3 : noSlash "ns" = true) by reflexivity.
  assert (H4 : noSlash "A" = true) by reflexivity.
  assert (H5 : is_int 4) by (unfold is_int, minInt, maxInt; lia).
  assert (H6 : microstorage.values (IDListKeyFormat "ns" "A") wrapped_store
               = []) by reflexivity.
  assert (H7 : Service.Create "ns" "A" 1 2 4 wrapped_store
               = (Ok [4], (Service.Create "ns" "A" 1 2 4 wrapped_store).2))
    by reflexivity.
  split; [exact H1 | split; [exact H2 | split; [exact H3 |]]].
  split; [exact H4 | split; [exact H5 | split; [exact H6 |]]].
  split; [exact H7 |].
  exact (Create_Delete_round_trip wrapped_history wrapped_store "ns" "A"
           1 2 4 [4] _ H1 H2 H3 H4 H5 H6 H7).
Defined.

(** [namespaces_isolated] at a [Create] on [ns], seen from [other]. *)
Lemma namespaces_isolated_witness :
  noSlash (namespaceOf (CreateCall "ns" "A" 1 2 4)) = true /\
  noSlash "other" = true /\
  namespaceOf (CreateCall "ns" "A" 1 2 4) <> "other" /\
  after (CreateCall "ns" "A" 1 2 4) wrapped_store
  = Some (Service.Create "ns" "A" 1 2 4 wrapped_store).2 /\
  (forall rest,
      (Service.Create "ns" "A" 1 2 4 wrapped_store).2
        !! ("range-pool/" +:+ "other" +:+ "/" +:+ rest)
      = wrapped_store !! ("range-pool/" +:+ "other" +:+ "/" +:+ rest)) /\
  (forall ID num min max,
      (Service.Create "other" ID num min max
         (Service.Create "ns" "A" 1 2 4 wrapped_store).2).1
      = (Service.Create "other" ID num min max wrapped_store).1) /\
  (forall ID,
      (Service.Delete "other" ID
         (Service.Create "ns" "A" 1 2 4 wrapped_store).2).1
      = (Service.Delete "other" ID wrapped_store).1).
Proof.
  assert (H1 : noSlash (namespaceOf (CreateCall "ns" "A" 1 2 4)) = true)
    by reflexivity.
  assert (H2 : noSlash "other" = true) by reflexivity.
  assert (H3 : namespaceOf (CreateCall "ns" "A" 1 2 4) <> "other")
    by discriminate.
  assert (H4 : after (CreateCall "ns" "A" 1 2 4) wrapped_store
               = Some (Service.Create "ns" "A" 1 2 4 wrapped_store).2)
    by reflexivity.
  split; [exact H1 | split; [exact H2 | split; [exact H3 |]]].
  split; [exact H4 |].
  exact (namespaces_isolated (CreateCall "ns" "A" 1 2 4) "other"
           wrapped_store _ H1 H2 H3 H4).
Defined.

(** [slash_names_overlap] at a [Create] on the namespace [ns/id/A] and at
    a [Create] for the owner [A/item/B] of [ns]: the owner [A] of [ns],
    for which nothing was created, lists the item 2. *)
Lemma slash_names_overlap_witness :
  Service.Create ("ns" +:+ "/id/" +:+ "A") "B" 1 2 4 ∅
  = (Ok [2], (Service.Create ("ns" +:+ "/id/" +:+ "A") "B" 1 2 4 ∅).2) /\
  (forall v, v ∈ [2] ->
     Itoa v ∈ microstorage.values (IDListKeyFormat "ns" "A")
                (Service.Create ("ns" +:+ "/id/" +:+ "A") "B" 1 2 4 ∅).2) /\
  Service.Create "ns" ("A" +:+ "/item/" +:+ "B") 1 2 4 ∅
  = (Ok [2], (Service.Create "ns" ("A" +:+ "/item/" +:+ "B") 1 2 4 ∅).2) /\
  (forall v, v ∈ [2] ->
     Itoa v ∈ microstorage.values (IDListKeyFormat "ns" "A")
                (Service.Create "ns" ("A" +:+ "/item/" +:+ "B") 1 2 4 ∅).2).
Proof.
  assert (H1 : Service.Create ("ns" +:+ "/id/" +:+ "A") "B" 1 2 4 ∅
               = (Ok [2],
                  (Service.Create ("ns" +:+ "/id/" +:+ "A") "B" 1 2 4 ∅).2))
    by reflexivity.
  assert (H2 : Service.Create "ns" ("A" +:+ "/item/" +:+ "B") 1 2 4 ∅
               = (Ok [2],
                  (Service.Create "ns" ("A" +:+ "/item/" +:+ "B") 1 2 4 ∅).2))
    by reflexivity.
  split; [exact H1 | split].
  - exact (slash_names_overlap "ns" "A" "B" "B" 1 2 4 ∅ [2] _ (or_introl H1)).
  - split; [exact H2 |].
    exact (slash_names_overlap "ns" "A" "B" "B" 1 2 4 ∅ [2] _ (or_intror H2)).
Defined.

(** [Create_within_capacity] after the first call of
    [Test_Service_Search]: six items of 2..9 are free, and two are asked
    for. *)
Lemma Create_within_capacity_witness :
  9 < maxInt /\ validArgs 2 9 3 /\
  Service.used "test-namespace" two_items_store
  = (Ok [3; 2], two_items_store) /\
  Service.latest "test-namespace" two_items_store = (Ok 3, two_items_store) /\
  1 <= 2 <= Z.of_nat (length (freeItems [3; 2] 2 9)) /\
  exists items s',
    Service.Create "test-namespace" "other-id" 2 2 9 two_items_store
    = (Ok items, s') /\
    Z.of_nat (length items) = 2.
Proof.
  assert (Hmax : 9 < maxInt) by reflexivity.
  assert (Hvalid : validArgs 2 9 3)
    by (unfold validArgs, latestItemException; lia).
  assert (Hused : Service.used "test-namespace" two_items_store
                  = (Ok [3; 2], two_items_store)) by reflexivity.
  assert (Hlatest : Service.latest "test-namespace" two_items_store
                    = (Ok 3, two_items_store)) by reflexivity.
  assert (Hfree : 1 <= 2 <= Z.of_nat (length (freeItems [3; 2] 2 9)))
    by (split; [lia | apply Z.leb_le; reflexivity]).
  split; [exact Hmax | split; [exact Hvalid | split; [exact Hused |]]].
  split; [exact Hlatest | split; [exact Hfree |]].
  exact (Create_within_capacity "test-namespace" "other-id" 2 2 9
           two_items_store [3; 2] 3 Hmax Hvalid Hused Hlatest Hfree).
Defined.


(** [held_item_not_allocated] for the item 3 that the owner B holds. *)
Lemma held_item_not_allocated_witness :
  forallb plainCall wrapped_history = true /\
  history wrapped_history ∅ = Some wrapped_store /\
  noSlash "ns" = true /\ noSlash "B" = true /\
  Itoa 3 ∈ microstorage.values (IDListKeyFormat "ns" "B") wrapped_store /\
  Service.Create "ns" "C" 1 2 4 wrapped_store
  = (Ok [4], (Service.Create "ns" "C" 1 2 4 wrapped_store).2) /\
  3 ∉ [4].
Proof.
  assert (H1 : forallb plainCall wrapped_history = true) by reflexivity.
  assert (H2 : history wrapped_history ∅ = Some wrapped_store)
    by reflexivity.
  assert (H3 : noSlash "ns" = true) by reflexivity.
  assert (H4 : noSlash "B" = true) by reflexivity.
  assert (H5 : Itoa 3 ∈ microstorage.values (IDListKeyFormat "ns" "B")
                          wrapped_store)
    by exact (list_elem_of_here "3" []).
  assert (H6 : Service.Create "ns" "C" 1 2 4 wrapped_store
               = (Ok [4], (Service.Create "ns" "C" 1 2 4 wrapped_store).2))
    by reflexivity.
  split; [exact H1 | split; [exact H2 | split; [exact H3 |]]].
  split; [exact H4 | split; [exact H5 | split; [exact H6 |]]].
  exact (held_item_not_allocated wrapped_history wrapped_store "ns" "B" "C"
           1 2 4 [4] _ 3 H1 H2 H3 H4 H5 H6).
Defined.

(** [Create_items_in_range] at the first call of [Test_Service_Search]. *)
Lemma Create_items_in_range_witness :
  Service.Create "test-namespace" "test-id" 2 2 9 ∅
  = (Ok [2; 3], two_items_store) /\
  1 <= 2 /\ 0 <= 2 < 9 /\
  (9 < maxInt -> forall v, v ∈ [2; 3] -> 2 <= v <= 9).
Proof.
  assert (H : Service.Create "test-namespace" "test-id" 2 2 9 ∅
              = (Ok [2; 3], two_items_store)) by reflexivity.
  split; [exact H |].
  exact (Create_items_in_range "test-namespace" "test-id" 2 2 9 ∅ [2; 3]
           two_items_store H).
Defined.

(** [key_formats_injective] at the namespace and the owner of the tests,
    and another owner. *)
Lemma key_formats_injective_witness :
  noSlash "test-namespace" = true /\ noSlash "test-id" = true /\
  noSlash "other-id" = true /\
  (ItemKeyFormat "test-namespace" (Itoa 2)
   = ItemKeyFormat "test-namespace" (Itoa 3) ->
   "test-namespace" = "test-namespace" /\ 2 = 3) /\
  (IDKeyFormat "test-namespace" "test-id" (Itoa 2)
   = IDKeyFormat "test-namespace" "other-id" (Itoa 3) ->
   "test-namespace" = "test-namespace" /\ "test-id" = "other-id" /\ 2 = 3) /\
  (LatestKeyFormat "test-namespace" = LatestKeyFormat "test-namespace" ->
   "test-namespace" = "test-namespace") /\
  ItemKeyFormat "test-namespace" (Itoa 2)
  <> IDKeyFormat "test-namespace" "other-id" (Itoa 3) /\
  ItemKeyFormat "test-namespace" (Itoa 2)
  <> LatestKeyFormat "test-namespace" /\
  IDKeyFormat "test-namespace" "test-id" (Itoa 2)
  <> LatestKeyFormat "test-namespace" /\
  (forall k, k = ItemKeyFormat "test-namespace" (Itoa 2) \/
             k = IDKeyFormat "test-namespace" "test-id" (Itoa 2) \/
             k = LatestKeyFormat "test-namespace" ->
             k <> ItemListKeyFormat "test-namespace" /\
             k <> IDListKeyFormat "test-namespace" "other-id").
Proof.
  assert (H1 : noSlash "test-namespace" = true) by reflexivity.
  assert (H2 : noSlash "test-id" = true) by reflexivity.
  assert (H3 : noSlash "other-id" = true) by reflexivity.
  split; [exact H1 | split; [exact H2 | split; [exact H3 |]]].
  exact (key_formats_injective "test-namespace" "test-namespace"
           "test-id" "other-id" 2 3 H1 H1 H2 H3).
Defined.
